(** * AutoWeave integration agent: orchestration core

    A shallow embedding of the JavaScript classes [MetricsCollector],
    [LangChainOrchestrator], [IntegrationAgent], [IntegrationAgentModule]
    and [GitOpsManager], and of the naming of models in [PydanticGenerator],
    with the properties of them that the specification states and further
    properties that the code has.

    Conventions of the embedding.
    - A JavaScript number that counts runs or milliseconds is a [Z]; such
      counts stay far below 2^53, where doubles are exact.  The one quotient
      ([avg_duration]) is the double that the division of two such numbers
      gives.
    - [undefined]/[null] in an optional position is [None].
    - An object that is mutated in place and reachable from two places lives
      in a heap and is named by a location.
    - ISO timestamp fields ([timestamp], [generatedAt], [createdAt]) and
      logger calls are left out: nothing reads them back.
    - The Prometheus mirror ([promMetrics]) is write-only and left out.
    - Strings are Rocq strings; the string methods, regular expressions,
      [path.join] and [JSON.stringify] of the runtime are parameters of the
      environment, and [JSON.stringify] is taken to return on the values it
      is given here. *)

From Stdlib Require Import ZArith.
From Stdlib Require PrimFloat.
From stdpp Require Import gmap strings list fin_maps pretty.

Local Open Scope string_scope.
Local Open Scope list_scope.
Local Open Scope Z_scope.

(** ** JavaScript values that the code only carries around *)

#[local] Unset Elimination Schemes.
Inductive json :=
| JNull
| JBool (b : bool)
| JNum (z : Z)
| JStr (s : string)
| JArr (l : list json)
| JObj (l : list (string * json)).
#[local] Set Elimination Schemes.

(** The double of an integer; it is exact below 2^53. *)
Fixpoint double_of_positive (p : positive) : PrimFloat.float :=
  match p with
  | xH => PrimFloat.one
  | xO p => PrimFloat.mul PrimFloat.two (double_of_positive p)
  | xI p =>
      PrimFloat.add (PrimFloat.mul PrimFloat.two (double_of_positive p)) PrimFloat.one
  end.

Definition double (z : Z) : PrimFloat.float :=
  match z with
  | Z0 => PrimFloat.zero
  | Zpos p => double_of_positive p
  | Zneg p => PrimFloat.opp (double_of_positive p)
  end.

(** [a / b] for two integers: the division of doubles. *)
Definition divide (a b : Z) : PrimFloat.float := PrimFloat.div (double a) (double b).

(** An error object: [error.constructor.name] and [error.message]. *)
Record Error := mkError { ctor_name : string; message : string }.

Definition new_Error (msg : string) : Error := mkError "Error" msg.
Definition new_TypeError (msg : string) : Error := mkError "TypeError" msg.
Definition new_SyntaxError (msg : string) : Error := mkError "SyntaxError" msg.

(** Truthiness of a string and of an optional string. *)
Definition truthy_str (s : string) : bool := negb (String.eqb s EmptyString).
Definition truthy (o : option string) : bool :=
  match o with Some s => truthy_str s | None => false end.

(** [o || d] where [o] is a string or undefined. *)
Definition or_str (o : option string) (d : string) : string :=
  match o with Some s => if truthy_str s then s else d | None => d end.

(** Optional chaining, [o?.f]. *)
Definition chain {A B} (o : option A) (f : A -> option B) : option B :=
  match o with Some a => f a | None => None end.

(** ** Objects used as ordered maps ([Map], object literals) *)

(** [m.get(k)] / [o[k]]. *)
Fixpoint map_get {V} (k : string) (m : list (string * V)) : option V :=
  match m with
  | [] => None
  | (k', v) :: m' => if String.eqb k' k then Some v else map_get k m'
  end.

(** [m.set(k, v)]: an existing key keeps its place, a new key goes last. *)
Fixpoint map_set {V} (k : string) (v : V) (m : list (string * V)) : list (string * V) :=
  match m with
  | [] => [(k, v)]
  | (k', v') :: m' =>
      if String.eqb k' k then (k, v) :: m' else (k', v') :: map_set k v m'
  end.

(** [{...a, ...b}]. *)
Definition spread {V} (a b : list (string * V)) : list (string * V) :=
  fold_left (fun acc kv => map_set (fst kv) (snd kv) acc) b a.

(** [a.slice(-n)]. *)
Definition slice_last {A} (n : nat) (l : list A) : list A :=
  drop (length l - n) l.

(** ** The metrics collector (metrics-collector.js) *)

Module Metrics.

Definition loc := nat.

(** [this.metrics.integrations] *)
Record Integrations := mkIntegrations {
  total : Z;
  success : Z;
  failed : Z;
  in_progress : Z
}.

(** [this.metrics.performance]; [min_duration = None] is [Infinity]. *)
Record Performance := mkPerformance {
  total_duration : Z;
  avg_duration : PrimFloat.float;
  min_duration : option Z;
  max_duration : Z
}.

(** [this.metrics.resources] *)
Record Resources := mkResources {
  memory_usage : Z;
  cpu_usage : Z
}.

(** The part of the heap that holds the collector's nested objects. *)
Record Heap := mkHeap {
  h_integrations : gmap loc Integrations;
  h_performance : gmap loc Performance;
  h_maps : gmap loc (gmap string Z);
  h_resources : gmap loc Resources;
  h_next : loc
}.

(** The object literal [this.metrics]: five references. *)
Record MetricsObj := mkMetricsObj {
  integrations : loc;
  performance : loc;
  errors : loc;
  api_calls : loc;
  resources : loc
}.

(** A [MetricsCollector] instance together with the heap it lives in. *)
Record MetricsCollector := mkCollector {
  heap : Heap;
  metrics : MetricsObj;
  currentIntegrations : gset string
}.

(** What [getMetrics] returns: a new object with the same five references
    and [uptime]. *)
Record Snapshot := mkSnapshot {
  s_integrations : loc;
  s_performance : loc;
  s_errors : loc;
  s_api_calls : loc;
  s_resources : loc;
  s_uptime : Z
}.

Definition zero_integrations : Integrations := mkIntegrations 0 0 0 0.
Definition zero_performance : Performance :=
  mkPerformance 0 PrimFloat.zero None 0.
Definition zero_resources : Resources := mkResources 0 0.

Definition empty_heap : Heap := mkHeap ∅ ∅ ∅ ∅ 0%nat.

(** Reading through a reference. *)
Definition get_integrations (h : Heap) (l : loc) : Integrations :=
  default zero_integrations (h_integrations h !! l).
Definition get_performance (h : Heap) (l : loc) : Performance :=
  default zero_performance (h_performance h !! l).
Definition get_map (h : Heap) (l : loc) : gmap string Z :=
  default ∅ (h_maps h !! l).
Definition get_resources (h : Heap) (l : loc) : Resources :=
  default zero_resources (h_resources h !! l).

(** Writing through a reference. *)
Definition set_integrations (l : loc) (v : Integrations) (h : Heap) : Heap :=
  mkHeap (<[l := v]> (h_integrations h)) (h_performance h) (h_maps h)
         (h_resources h) (h_next h).
Definition set_performance (l : loc) (v : Performance) (h : Heap) : Heap :=
  mkHeap (h_integrations h) (<[l := v]> (h_performance h)) (h_maps h)
         (h_resources h) (h_next h).
Definition set_map (l : loc) (v : gmap string Z) (h : Heap) : Heap :=
  mkHeap (h_integrations h) (h_performance h) (<[l := v]> (h_maps h))
         (h_resources h) (h_next h).
Definition set_resources (l : loc) (v : Resources) (h : Heap) : Heap :=
  mkHeap (h_integrations h) (h_performance h) (h_maps h)
         (<[l := v]> (h_resources h)) (h_next h).

(** The object literal assigned to [this.metrics] by the constructor and by
    [reset]: five new objects. *)
Definition new_metrics (h : Heap) : MetricsObj * Heap :=
  let n := h_next h in
  (mkMetricsObj n (S n) (S (S n)) (S (S (S n))) (S (S (S (S n)))),
   mkHeap (<[n := zero_integrations]> (h_integrations h))
          (<[S n := zero_performance]> (h_performance h))
          (<[S (S (S n)) := ∅]> (<[S (S n) := ∅]> (h_maps h)))
          (<[S (S (S (S n))) := zero_resources]> (h_resources h))
          (n + 5)%nat).

(** [constructor(config)] *)
Definition constructor (h : Heap) : MetricsCollector :=
  let '(m, h') := new_metrics h in mkCollector h' m ∅.

(** [startIntegration(integrationId, metadata)]; [now] is the reading of
    [Date.now()] used when no id is given. *)
Definition startIntegration (integrationId : option string) (now : Z)
    (mc : MetricsCollector) : string * MetricsCollector :=
  let id := or_str integrationId ("integration-" +:+ pretty now) in
  let l := integrations (metrics mc) in
  let i := get_integrations (heap mc) l in
  (id,
   mkCollector
     (set_integrations l
        (mkIntegrations (total i) (success i) (failed i) (in_progress i + 1))
        (heap mc))
     (metrics mc)
     ({[ id ]} ∪ currentIntegrations mc)).

(** [updateDurationMetrics(duration)] *)
Definition updateDurationMetrics (duration : Z) (mc : MetricsCollector)
    : MetricsCollector :=
  let lp := performance (metrics mc) in
  let p := get_performance (heap mc) lp in
  let td := total_duration p + duration in
  let mn := match min_duration p with
            | None => duration
            | Some m => Z.min m duration
            end in
  let mx := Z.max (max_duration p) duration in
  let t := total (get_integrations (heap mc) (integrations (metrics mc))) in
  let avg := if 0 <? t then divide td t else avg_duration p in
  mkCollector (set_performance lp (mkPerformance td avg (Some mn) mx) (heap mc))
              (metrics mc) (currentIntegrations mc).

(** [recordSuccess(duration, metadata)] *)
Definition recordSuccess (duration : Z) (mc : MetricsCollector)
    : MetricsCollector :=
  let l := integrations (metrics mc) in
  let i := get_integrations (heap mc) l in
  let i' := mkIntegrations (total i + 1) (success i + 1) (failed i)
                           (Z.max 0 (in_progress i - 1)) in
  updateDurationMetrics duration
    (mkCollector (set_integrations l i' (heap mc)) (metrics mc)
                 (currentIntegrations mc)).

(** [recordFailure(duration, error, metadata)] *)
Definition recordFailure (duration : Z) (error : Error) (mc : MetricsCollector)
    : MetricsCollector :=
  let l := integrations (metrics mc) in
  let i := get_integrations (heap mc) l in
  let i' := mkIntegrations (total i + 1) (success i) (failed i + 1)
                           (Z.max 0 (in_progress i - 1)) in
  let mc1 := updateDurationMetrics duration
               (mkCollector (set_integrations l i' (heap mc)) (metrics mc)
                            (currentIntegrations mc)) in
  let errorType := or_str (Some (ctor_name error)) "UnknownError" in
  let le := errors (metrics mc1) in
  let em := get_map (heap mc1) le in
  mkCollector
    (set_map le (<[errorType := default 0 (em !! errorType) + 1]> em) (heap mc1))
    (metrics mc1) (currentIntegrations mc1).

(** [recordApiRequest(endpoint, method, statusCode, duration)] *)
Definition recordApiRequest (endpoint method : string) (mc : MetricsCollector)
    : MetricsCollector :=
  let key := method +:+ " " +:+ endpoint in
  let la := api_calls (metrics mc) in
  let am := get_map (heap mc) la in
  mkCollector
    (set_map la (<[key := default 0 (am !! key) + 1]> am) (heap mc))
    (metrics mc) (currentIntegrations mc).

(** [collectResourceMetrics()]; [heapUsed] is [process.memoryUsage().heapUsed]. *)
Definition collectResourceMetrics (heapUsed : Z) (mc : MetricsCollector)
    : MetricsCollector :=
  let lr := resources (metrics mc) in
  let r := get_resources (heap mc) lr in
  mkCollector
    (set_resources lr (mkResources heapUsed (cpu_usage r)) (heap mc))
    (metrics mc) (currentIntegrations mc).

(** [getMetrics()]: [{...this.metrics, timestamp, uptime}]. *)
Definition getMetrics (uptime : Z) (mc : MetricsCollector) : Snapshot :=
  let m := metrics mc in
  mkSnapshot (integrations m) (performance m) (errors m) (api_calls m)
             (resources m) uptime.

(** [reset()] *)
Definition reset (mc : MetricsCollector) : MetricsCollector :=
  let '(m, h') := new_metrics (heap mc) in mkCollector h' m ∅.

(** The counters as the collector sees them now. *)
Definition counters (mc : MetricsCollector) : Integrations :=
  get_integrations (heap mc) (integrations (metrics mc)).
Definition durations (mc : MetricsCollector) : Performance :=
  get_performance (heap mc) (performance (metrics mc)).
Definition error_counts (mc : MetricsCollector) : gmap string Z :=
  get_map (heap mc) (errors (metrics mc)).

(** The counters as read through a snapshot returned earlier. *)
Definition snapshot_counters (s : Snapshot) (mc : MetricsCollector) : Integrations :=
  get_integrations (heap mc) (s_integrations s).

(** [snapshot.integrations.total = v], executed by a caller holding [s]. *)
Definition snapshot_set_total (s : Snapshot) (v : Z) (mc : MetricsCollector)
    : MetricsCollector :=
  let i := get_integrations (heap mc) (s_integrations s) in
  mkCollector
    (set_integrations (s_integrations s)
       (mkIntegrations v (success i) (failed i) (in_progress i)) (heap mc))
    (metrics mc) (currentIntegrations mc).

(** The calls a sequence of runs makes on the collector. *)
Inductive Call :=
| StartIntegration (integrationId : option string) (now : Z)
| RecordSuccess (duration : Z)
| RecordFailure (duration : Z) (error : Error).

Definition call (mc : MetricsCollector) (c : Call) : MetricsCollector :=
  match c with
  | StartIntegration id now => snd (startIntegration id now mc)
  | RecordSuccess d => recordSuccess d mc
  | RecordFailure d e => recordFailure d e mc
  end.

Definition calls (cs : list Call) (mc : MetricsCollector) : MetricsCollector :=
  fold_left call cs mc.

Definition is_start (c : Call) : bool :=
  match c with StartIntegration _ _ => true | _ => false end.

(** Runs started and runs completed by a sequence of calls. *)
Definition started (cs : list Call) : Z :=
  Z.of_nat (length (filter (fun c => is_start c = true) cs)).
Definition completed (cs : list Call) : Z :=
  Z.of_nat (length (filter (fun c => is_start c = false) cs)).

(** Every completion belongs to a run started before it. *)
Definition well_formed (cs : list Call) : Prop :=
  forall n, completed (take n cs) <= started (take n cs).

End Metrics.

(** ** Data exchanged between the components *)

(** An OpenAPI specification, with the fields the agent reads.  An object
    literal is a list of entries in [Object.keys] order. *)
Module OpenAPI.
Record Info := mkInfo { title : option string; version : option string }.
Record Server := mkServer { url : option string }.
Definition PathItem := list (string * json).
Record Spec := mkSpec {
  info : option Info;
  servers : option (list Server);
  paths : option (list (string * PathItem))
}.
End OpenAPI.

(** The workflow, manifests and registry record of integration-agent.js. *)
Module Workflow.
Inductive StepConfig :=
| SetupConfig (openapi_spec : OpenAPI.Spec) (base_url : string)
              (endpoints : list string)
| ProxyConfig (method : string) (path : string) (operation : option json)
| MonitorConfig (health_check_interval metrics_endpoint log_level : string).

Record Step := mkStep {
  name : string;
  description : string;
  action : string;
  config : StepConfig
}.

Record t := mkWorkflow {
  wf_name : string;
  wf_description : string;
  steps : list Step;
  tools : list json;
  environment : list (string * json);
  resources : json
}.
End Workflow.

(** What [generateKubernetesManifests] returns. *)
Record ManifestMetadata := mkManifestMetadata {
  openAPIVersion : string;
  md_targetNamespace : option string
}.

Record K8sResult := mkK8sResult {
  agentId : string;
  manifests : list (string * json);
  workflow : Workflow.t;
  metadata : ManifestMetadata
}.

(** The second argument of [yamlGenerator.generate]. *)
Record GenerateOptions := mkGenerateOptions {
  go_agentId : string;
  go_namespace : string;
  go_deployConfig : json;
  go_labels : list (string * string)
}.

(** What [PydanticGenerator.generateModels] returns (pydantic-generator.js). *)
Record Models := mkModels {
  outputFile : string;
  modelsCode : string;
  models : list json;
  imports : list string;
  enums : list json;
  totalLines : Z;
  apiTitle : string;
  modelName : string
}.

(** What [GitOpsManager.deployToGitOps] returns (gitops-manager.js). *)
Record Deployment := mkDeployment {
  d_gitRepo : option string;
  d_targetNamespace : option string;
  manifestsWritten : Z;
  argocdApplication : json;
  commitResult : json
}.

(** What [OpenAPIParser.extractMetadata] and [analyzeSpecification] return
    (openapi-parser.js): the fields the orchestrator reads, and the rest. *)
Record SpecMetadata := mkSpecMetadata {
  sm_title : string;
  sm_version : string;
  sm_endpoints : list json;
  sm_rest : json
}.

Record SpecAnalysis := mkSpecAnalysis {
  complexity : string;
  sa_recommendations : list string;
  sa_rest : json
}.

(** The manifests argument of [validateManifests] and [deployToGitOps]: the
    generator's result, or any other value. *)
Inductive ManifestsArg :=
| Generated (r : K8sResult)
| Raw (j : json).

(** The options object of [deployToGitOps]. *)
Record DeployOptions := mkDeployOptions {
  do_manifests : option ManifestsArg;
  do_gitRepo : option string;
  do_targetNamespace : option string;
  do_commitMessage : option string
}.

(** The [agent_config] a tool call may carry. *)
Record AgentConfig := mkAgentConfig {
  ac_openAPISpec : option OpenAPI.Spec;
  ac_deployConfig : option json
}.

(** [JSON.parse(function_call.arguments)], with the keys that the tools and
    their callees read. *)
Record ToolArgs := mkToolArgs {
  spec_url : option string;
  openapi_spec : option OpenAPI.Spec;
  agent_config : option AgentConfig;
  namespace : option string;
  a_manifests : option json;
  git_repo : option string;
  a_gitRepo : option string;
  a_targetNamespace : option string;
  a_commitMessage : option string
}.

(** What [executeTool] returns, one constructor per object shape. *)
Inductive ToolResult :=
| ParserResult (spec : OpenAPI.Spec) (metadata : SpecMetadata)
               (analysis : SpecAnalysis) (message : string)
| PydanticResult (result : Models) (message : string)
| ManifestResult (manifests : K8sResult) (message : string)
| GitOpsResult (result : Deployment) (message : string)
| AnalyzerResult (analysis : SpecAnalysis) (metadata : SpecMetadata)
                 (message : string)
| ToolFailure (error : string) (tool : string) (arguments : ToolArgs).

(** What [orchestrate] returns. *)
Inductive OrchestrationResult :=
| ToolExecution (tool : string) (arguments : ToolArgs) (result : ToolResult)
                (reasoning : string)
| Reasoning (content : string) (recommendations : list string).

(** [pydanticModels] and [deploymentResult] of a run hold either a tool
    result or the collaborator's own result. *)
Inductive ModelsValue :=
| ToolModels (r : ToolResult)
| GeneratedModels (m : Models).

Inductive DeploymentValue :=
| ToolDeployment (r : ToolResult)
| Deployed (d : Deployment).

(** [context.integrationAgent]: which components it carries. *)
Record Components := mkComponents {
  has_openAPIParser : bool;
  has_pydanticGenerator : bool;
  has_integrationAgent : bool;
  has_gitOpsManager : bool
}.

(** The [context] argument of [orchestrate]. *)
Record Context := mkContext {
  ctx_integrationAgent : option Components;
  ctx_openapi_spec : option OpenAPI.Spec;
  ctx_agent_config : option (OpenAPI.Spec * ModelsValue);
  ctx_namespace : option string;
  ctx_manifests : option K8sResult;
  ctx_git_repo : option string
}.

(** A tool descriptor. *)
Record Tool := mkTool {
  tool_name : string;
  tool_description : string;
  parameters : json
}.

(** Chat messages, requests and responses of the reasoning service. *)
Record ChatMessage := mkChatMessage { role : string; msg_content : string }.

Record Request := mkRequest {
  model : string;
  messages : list ChatMessage;
  functions : list Tool
}.

(** A function call of the reasoning service: its name, and what
    [JSON.parse] makes of its [arguments], the object or the message of the
    [SyntaxError]. *)
Record FunctionCall := mkFunctionCall {
  fc_name : string;
  fc_parsed : string + ToolArgs
}.

(** The arguments of a call whose [arguments] parse. *)
Definition fc_arguments (call : FunctionCall) : option ToolArgs :=
  match fc_parsed call with
  | inr args => Some args
  | inl _ => None
  end.

Record ResponseMessage := mkResponseMessage {
  rm_content : option string;
  function_call : option FunctionCall
}.

Record Response := mkResponse { choices : list ResponseMessage }.

(** ** The environment: external services and built-ins

    The reasoning service has a state of its own ([LLM]); the file system,
    the subprocesses, the Git remote and the clock form the [World] of the
    collaborators. *)
Class Env := {
  LLM : Type;
  World : Type;
  (** [openai.chat.completions.create] *)
  chat_completions_create : Request -> LLM -> (Error + Response) * LLM;
  (** [Date.now()] *)
  Date_now : World -> Z;
  (** openapi-parser.js *)
  parseSpecification : option string -> World -> (Error + OpenAPI.Spec) * World;
  extractMetadata : option OpenAPI.Spec -> Error + SpecMetadata;
  analyzeSpecification : option OpenAPI.Spec -> Error + SpecAnalysis;
  (** pydantic-generator.js *)
  generateModels : option OpenAPI.Spec -> World -> (Error + Models) * World;
  (** kagent/yaml-generator *)
  yamlGenerator_generate :
    Workflow.t -> GenerateOptions -> World -> (Error + list (string * json)) * World;
  (** gitops-manager.js *)
  deployToGitOps : DeployOptions -> World -> (Error + Deployment) * World;
  (** [fs.mkdir], [fs.writeFile], [fs.rm] and the subprocess run by
      [executeCommand] *)
  fs_mkdir : string -> World -> (Error + unit) * World;
  fs_writeFile : string -> string -> World -> (Error + unit) * World;
  fs_rm : string -> World -> (Error + unit) * World;
  spawn : string -> list string -> World -> (Error + string) * World;
  (** [path.join], [JSON.stringify], string methods and regular expressions *)
  path_join : string -> string -> string;
  JSON_stringify : json -> string;
  stringify_spec : OpenAPI.Spec -> string;
  stringify_context : Context -> string;
  stringify_result : OrchestrationResult -> string;
  toLowerCase : string -> string;
  toUpperCase : string -> string;
  (** [s.replace(/\s+/g, '-')] and [s.replace(/[^a-zA-Z0-9]/g, '-')] *)
  replace_whitespace : string -> string;
  replace_non_alnum : string -> string;
  (** [s.match(/[-*•]\s+(.+)/g)], [s.match(/\d+\.\s+(.+)/g)] ([None] is null),
      [s.replace(/[-*•]\s+/, '')] and [s.replace(/\d+\.\s+/, '')] *)
  match_bullets : string -> option (list string);
  match_numbered : string -> option (list string);
  strip_bullet : string -> string;
  strip_number : string -> string
}.

(** [hay.includes(needle)] *)
Fixpoint includes (needle hay : string) : bool :=
  String.prefix needle hay ||
  match hay with
  | EmptyString => false
  | String _ hay' => includes needle hay'
  end.

(** Truthiness of a JSON value. *)
Definition js_truthy (j : json) : bool :=
  match j with
  | JNull => false
  | JBool b => b
  | JNum z => negb (z =? 0)
  | JStr s => truthy_str s
  | JArr _ | JObj _ => true
  end.

(** [Object.entries(j)]; [null] throws. *)
Definition Object_entries (j : json) : Error + list (string * json) :=
  match j with
  | JNull => inl (new_TypeError "Cannot convert undefined or null to object")
  | JBool _ | JNum _ => inr []
  | JStr s =>
      inr (imap (fun i c => (pretty i, JStr (String c EmptyString)))
                (String.list_ascii_of_string s))
  | JArr l => inr (imap (fun i v => (pretty i, v)) l)
  | JObj l => inr l
  end.

(** ** State of the module and the monad of its methods *)

(** A [LangChainOrchestrator]: the tool [Map] and the conversation history. *)
Record OrchestratorState := mkOrchestrator {
  tools : list (string * Tool);
  conversationHistory : list ChatMessage
}.

(** An [IntegrationAgent]: the agent [Map] and the id counter. *)
Record AgentRecord := mkAgentRecord { ar_result : K8sResult; status : string }.

Record AgentState := mkAgent {
  agents : list (string * AgentRecord);
  agentIdCounter : Z
}.

Section Monad.
Context `{E : Env}.

(** An [IntegrationAgentModule] and the external state it works on. *)
Record State := mkState {
  llm : LLM;
  world : World;
  metricsCollector : Metrics.MetricsCollector;
  orchestrator : OrchestratorState;
  integrationAgent : AgentState
}.

(** A method either returns or throws; its effects on the state stay in
    both cases. *)
Definition M (A : Type) : Type := State -> State * (Error + A).

Definition ret {A} (a : A) : M A := fun s => (s, inr a).

Definition throw {A} (e : Error) : M A := fun s => (s, inl e).

Definition bind {A B} (c : M A) (k : A -> M B) : M B :=
  fun s =>
    match c s with
    | (s', inr a) => k a s'
    | (s', inl e) => (s', inl e)
    end.

(** [try { c } catch (error) { h error }] *)
Definition try_catch {A} (c : M A) (h : Error -> M A) : M A :=
  fun s =>
    match c s with
    | (s', inr a) => (s', inr a)
    | (s', inl e) => h e s'
    end.

(** A call to a collaborator, to the reasoning service, to a pure function
    that may throw. *)
Definition call_world {A} (f : World -> (Error + A) * World) : M A :=
  fun s =>
    let '(r, w) := f (world s) in
    (mkState (llm s) w (metricsCollector s) (orchestrator s) (integrationAgent s), r).

Definition call_llm {A} (f : LLM -> (Error + A) * LLM) : M A :=
  fun s =>
    let '(r, l) := f (llm s) in
    (mkState l (world s) (metricsCollector s) (orchestrator s) (integrationAgent s), r).

Definition call_pure {A} (r : Error + A) : M A := fun s => (s, r).

Definition now : M Z := fun s => (s, inr (Date_now (world s))).

(** Reading and updating the components. *)
Definition get_orchestrator : M OrchestratorState :=
  fun s => (s, inr (orchestrator s)).

Definition modify_orchestrator (f : OrchestratorState -> OrchestratorState) : M unit :=
  fun s =>
    (mkState (llm s) (world s) (metricsCollector s) (f (orchestrator s))
             (integrationAgent s), inr tt).

Definition get_agent : M AgentState :=
  fun s => (s, inr (integrationAgent s)).

Definition modify_agent (f : AgentState -> AgentState) : M unit :=
  fun s =>
    (mkState (llm s) (world s) (metricsCollector s) (orchestrator s)
             (f (integrationAgent s)), inr tt).

Definition modify_metrics
    (f : Metrics.MetricsCollector -> Metrics.MetricsCollector) : M unit :=
  fun s =>
    (mkState (llm s) (world s) (f (metricsCollector s)) (orchestrator s)
             (integrationAgent s), inr tt).

(** [for (const x of l) { await f x }] *)
Fixpoint for_each {A} (f : A -> M unit) (l : list A) : M unit :=
  match l with
  | [] => ret tt
  | x :: l' => bind (f x) (fun _ => for_each f l')
  end.

(** The same loop, collecting what each round pushes. *)
Fixpoint for_collect {A B} (f : A -> M (list B)) (l : list A) : M (list B) :=
  match l with
  | [] => ret []
  | x :: l' => bind (f x) (fun ys => bind (for_collect f l') (fun zs => ret (ys ++ zs)))
  end.

End Monad.

Declare Scope js_scope.
Delimit Scope js_scope with js.
Notation "x <- c ;; k" := (bind c (fun x => k))
  (at level 62, c at next level, right associativity) : js_scope.
Notation "c ;;; k" := (bind c (fun _ => k))
  (at level 62, right associativity) : js_scope.
Local Open Scope js_scope.

(** ** The integration agent (integration-agent.js) *)

(** The options object of [generateKubernetesManifests]; its fourth field,
    [pydanticModels], is handed on to [generateAgentWorkflow], which never
    reads it, and is left out. *)
Record ManifestOptions := mkManifestOptions {
  mo_openAPISpec : option OpenAPI.Spec;
  mo_targetNamespace : option string;
  mo_deployConfig : option json
}.

Record CheckResult := mkCheck { passed : bool; errors : list string }.

Record ValidationResults := mkValidation {
  kubeconform : CheckResult;
  conftest : CheckResult;
  kubectl : CheckResult
}.

Module Agent.
Section Agent.
Context `{E : Env}.

(** [constructor(config)] *)
Definition constructor : AgentState := mkAgent [] 0.

Definition monitor_step : Workflow.Step :=
  Workflow.mkStep "monitor-integration"
    "Monitor integration health and metrics" "monitor"
    (Workflow.MonitorConfig "30s" "/metrics" "info").

Definition initialize_step (openAPISpec : OpenAPI.Spec) (endpoints : list string)
    : Workflow.Step :=
  Workflow.mkStep "initialize-api-client"
    "Initialize API client with OpenAPI specification" "setup"
    (Workflow.SetupConfig openAPISpec
       (or_str (chain (chain (OpenAPI.servers openAPISpec) head) OpenAPI.url)
               "https://api.example.com")
       endpoints).

(** One round of the inner loop: the step pushed for [method]. *)
Definition method_step (endpoint : string) (item : OpenAPI.PathItem)
    (method : string) : Workflow.Step :=
  Workflow.mkStep
    ("handle-" +:+ method +:+ "-" +:+ replace_non_alnum endpoint)
    ("Handle " +:+ toUpperCase method +:+ " requests to " +:+ endpoint)
    "api-proxy"
    (Workflow.ProxyConfig (toUpperCase method) endpoint (map_get method item)).

(** One round of the outer loop; [Object.keys] of a missing path item
    throws. *)
Definition endpoint_steps (paths : list (string * OpenAPI.PathItem))
    (endpoint : string) : Error + list Workflow.Step :=
  match map_get endpoint paths with
  | None => inl (new_TypeError "Cannot convert undefined or null to object")
  | Some item => inr (map (method_step endpoint item) (map fst item))
  end.

(** The outer loop over [endpoints.slice(0, 10)]. *)
Fixpoint endpoints_steps (paths : list (string * OpenAPI.PathItem))
    (endpoints : list string) : Error + list Workflow.Step :=
  match endpoints with
  | [] => inr []
  | endpoint :: rest =>
      match endpoint_steps paths endpoint with
      | inl e => inl e
      | inr here =>
          match endpoints_steps paths rest with
          | inl e => inl e
          | inr there => inr (here ++ there)
          end
      end
  end.

Definition default_resources : json :=
  JObj [("requests", JObj [("cpu", JStr "100m"); ("memory", JStr "128Mi")]);
        ("limits", JObj [("cpu", JStr "500m"); ("memory", JStr "512Mi")])].

(** [generateAgentWorkflow(openAPISpec, pydanticModels)] *)
Definition generateAgentWorkflow (openAPISpec : option OpenAPI.Spec)
    : Error + Workflow.t :=
  match openAPISpec with
  | None => inl (new_TypeError "Cannot read properties of undefined (reading 'info')")
  | Some spec =>
      let title := chain (OpenAPI.info spec) OpenAPI.title in
      let version := chain (OpenAPI.info spec) OpenAPI.version in
      let name :=
        "integration-agent-" +:+
        or_str (chain title (fun t => Some (replace_whitespace (toLowerCase t))))
               "api" in
      let description :=
        "Integration agent for " +:+ or_str title "API" +:+
        " (" +:+ or_str version "unknown" +:+ ")" in
      let from_paths :=
        match OpenAPI.paths spec with
        | None => inr []
        | Some paths =>
            let endpoints := map fst paths in
            match endpoints_steps paths (take 10 endpoints) with
            | inl e => inl e
            | inr handled => inr (initialize_step spec endpoints :: handled)
            end
        end in
      match from_paths with
      | inl e => inl e
      | inr steps =>
          inr (Workflow.mkWorkflow name description (steps ++ [monitor_step])
                 [] [] default_resources)
      end
  end.

Definition labels (agentId component : string) : json :=
  JObj [("autoweave.dev/agent-id", JStr agentId);
        ("autoweave.dev/component", JStr component)].

Definition manifest_metadata (name : string) (targetNamespace : option string)
    (agentId component : string) : json :=
  JObj [("name", JStr name);
        ("namespace", JStr (or_str targetNamespace "default"));
        ("labels", labels agentId component)].

Definition port (name : string) (number : Z) : json :=
  JObj [("name", JStr name); ("port", JNum number); ("targetPort", JNum number)].

(** [generateIntegrationManifests(agentId, openAPISpec, targetNamespace)] *)
Definition generateIntegrationManifests (agentId : string)
    (openAPISpec : OpenAPI.Spec) (targetNamespace : option string)
    : list (string * json) :=
  [("configMap",
    JObj [("apiVersion", JStr "v1");
          ("kind", JStr "ConfigMap");
          ("metadata",
           manifest_metadata (agentId +:+ "-openapi-spec") targetNamespace
             agentId "openapi-spec");
          ("data", JObj [("openapi.json", JStr (stringify_spec openAPISpec))])]);
   ("service",
    JObj [("apiVersion", JStr "v1");
          ("kind", JStr "Service");
          ("metadata",
           manifest_metadata (agentId +:+ "-service") targetNamespace
             agentId "api-proxy");
          ("spec",
           JObj [("selector", JObj [("autoweave.dev/agent-id", JStr agentId)]);
                 ("ports", JArr [port "http" 8080; port "metrics" 9090])])]);
   ("serviceMonitor",
    JObj [("apiVersion", JStr "monitoring.coreos.com/v1");
          ("kind", JStr "ServiceMonitor");
          ("metadata",
           manifest_metadata (agentId +:+ "-metrics") targetNamespace
             agentId "metrics");
          ("spec",
           JObj [("selector",
                  JObj [("matchLabels",
                         JObj [("autoweave.dev/agent-id", JStr agentId)])]);
                 ("endpoints",
                  JArr [JObj [("port", JStr "metrics");
                              ("interval", JStr "30s");
                              ("path", JStr "/metrics")]])])])].

(** [generateKubernetesManifests(options)] *)
Definition generateKubernetesManifests (options : ManifestOptions) : M K8sResult :=
  try_catch
    (modify_agent (fun a => mkAgent (agents a) (agentIdCounter a + 1)) ;;;
     a <- get_agent ;;
     let agentId := "integration-agent-" +:+ pretty (agentIdCounter a) in
     agentWorkflow <- call_pure (generateAgentWorkflow (mo_openAPISpec options)) ;;
     generated <- call_world
       (yamlGenerator_generate agentWorkflow
          (mkGenerateOptions agentId
             (or_str (mo_targetNamespace options) "default")
             (match mo_deployConfig options with
              | Some c => if js_truthy c then c else JObj []
              | None => JObj []
              end)
             [("autoweave.dev/agent-type", "integration-agent");
              ("autoweave.dev/generated-from", "openapi-spec")])) ;;
     match mo_openAPISpec options with
     | None =>
         throw (new_TypeError "Cannot read properties of undefined (reading 'info')")
     | Some spec =>
         let integrationManifests :=
           generateIntegrationManifests agentId spec (mo_targetNamespace options) in
         let result :=
           mkK8sResult agentId (spread generated integrationManifests)
             agentWorkflow
             (mkManifestMetadata
                (or_str (chain (OpenAPI.info spec) OpenAPI.version) "unknown")
                (mo_targetNamespace options)) in
         modify_agent (fun a =>
           mkAgent (map_set agentId (mkAgentRecord result "generated") (agents a))
                   (agentIdCounter a)) ;;;
         ret result
     end)
    (fun error => throw error).

(** [executeCommand(command, args)]: resolves with the output of a
    subprocess that exits with code 0, rejects otherwise. *)
Definition executeCommand (command : string) (args : list string) : M string :=
  call_world (spawn command args).

(** [Object.entries(manifests.manifests || manifests)] *)
Definition manifest_entries (arg : ManifestsArg) : Error + list (string * json) :=
  match arg with
  | Generated r => inr (manifests r)
  | Raw JNull =>
      inl (new_TypeError "Cannot read properties of null (reading 'manifests')")
  | Raw (JObj l) =>
      match map_get "manifests" l with
      | Some m => if js_truthy m then Object_entries m else Object_entries (JObj l)
      | None => Object_entries (JObj l)
      end
  | Raw j => Object_entries j
  end.

(** One validation check: [passed] is set if the commands succeed, the
    message of the first failure is pushed otherwise. *)
Definition check (commands : M unit) : M CheckResult :=
  try_catch (commands ;;; ret (mkCheck true []))
            (fun error => ret (mkCheck false [message error])).

(** [validateManifests(manifests)] *)
Definition validateManifests (arg : ManifestsArg) : M ValidationResults :=
  try_catch
    (t <- now ;;
     let tempDir := path_join "/tmp" ("autoweave-validation-" +:+ pretty t) in
     call_world (fs_mkdir tempDir) ;;;
     entries <- call_pure (manifest_entries arg) ;;
     manifestFiles <- for_collect
       (fun entry =>
          let filePath := path_join tempDir (fst entry +:+ ".yaml") in
          call_world (fs_writeFile filePath (JSON_stringify (snd entry))) ;;;
          ret [filePath])
       entries ;;
     kubeconform <- check
       (executeCommand "kubeconform" ["-strict"; "-summary"; tempDir] ;;; ret tt) ;;
     conftest <- check
       (executeCommand "conftest" ["test"; tempDir] ;;; ret tt) ;;
     kubectl <- check
       (for_each
          (fun file =>
             executeCommand "kubectl" ["apply"; "-f"; file; "--dry-run=client"] ;;;
             ret tt)
          manifestFiles) ;;
     call_world (fs_rm tempDir) ;;;
     ret (mkValidation kubeconform conftest kubectl))
    (fun error => throw error).

(** [getStatus(agentId)] *)
Definition getStatus (agentId : string) : M AgentRecord :=
  a <- get_agent ;;
  match map_get agentId (agents a) with
  | None => throw (new_Error ("Agent " +:+ agentId +:+ " not found"))
  | Some agent => ret agent
  end.

(** [listAgents()] *)
Definition listAgents : M (list AgentRecord) :=
  a <- get_agent ;; ret (map snd (agents a)).

(** [deleteAgent(agentId)] *)
Definition deleteAgent (agentId : string) : M string :=
  a <- get_agent ;;
  match map_get agentId (agents a) with
  | None => throw (new_Error ("Agent " +:+ agentId +:+ " not found"))
  | Some _ =>
      modify_agent (fun a =>
        mkAgent (filter (fun kv => fst kv ≠ agentId) (agents a))
                (agentIdCounter a)) ;;;
      ret agentId
  end.

End Agent.
End Agent.

(** ** The orchestrator (langchain-orchestrator.js) *)

(** What [planIntegration] returns. *)
Record Plan := mkPlan {
  request : string;
  plan : OrchestrationResult;
  estimatedDuration : string;
  requiredResources : list string
}.

Module Orchestrator.
Section Orchestrator.
Context `{E : Env}.

(** [registerTool(tool)]: [this.tools.set(tool.name, tool)]. *)
Definition registerTool (tool : Tool) (o : OrchestratorState) : OrchestratorState :=
  mkOrchestrator (map_set (tool_name tool) tool (tools o)) (conversationHistory o).

Definition property (type description : string) : json :=
  JObj [("type", JStr type); ("description", JStr description)].

Definition schema (properties : list (string * json)) (required : list string)
    : json :=
  JObj [("type", JStr "object");
        ("properties", JObj properties);
        ("required", JArr (map JStr required))].

Definition parse_openapi_spec : Tool :=
  mkTool "parse_openapi_spec"
    "Parse and validate an OpenAPI specification from URL or file"
    (schema [("spec_url", property "string" "URL or file path to OpenAPI specification")]
            ["spec_url"]).

Definition generate_pydantic_models : Tool :=
  mkTool "generate_pydantic_models"
    "Generate Pydantic models from OpenAPI specification"
    (schema [("openapi_spec", property "object" "OpenAPI specification object")]
            ["openapi_spec"]).

Definition generate_kubernetes_manifests : Tool :=
  mkTool "generate_kubernetes_manifests"
    "Generate Kubernetes manifests for integration agent"
    (schema [("agent_config",
              property "object" "Agent configuration including OpenAPI spec and models");
             ("namespace", property "string" "Target Kubernetes namespace")]
            ["agent_config"]).

Definition deploy_via_gitops : Tool :=
  mkTool "deploy_via_gitops"
    "Deploy manifests via GitOps workflow"
    (schema [("manifests", property "object" "Kubernetes manifests to deploy");
             ("git_repo", property "string" "Git repository URL for GitOps");
             ("namespace", property "string" "Target namespace")]
            ["manifests"]).

Definition analyze_api_complexity : Tool :=
  mkTool "analyze_api_complexity"
    "Analyze OpenAPI specification complexity and provide recommendations"
    (schema [("openapi_spec", property "object" "OpenAPI specification to analyze")]
            ["openapi_spec"]).

(** [registerDefaultTools()] *)
Definition registerDefaultTools (o : OrchestratorState) : OrchestratorState :=
  registerTool analyze_api_complexity
    (registerTool deploy_via_gitops
       (registerTool generate_kubernetes_manifests
          (registerTool generate_pydantic_models
             (registerTool parse_openapi_spec o)))).

(** [constructor(config)] *)
Definition constructor : OrchestratorState :=
  registerDefaultTools (mkOrchestrator [] []).

(** [this.tools.get(name)] *)
Definition getTool (name : string) (o : OrchestratorState) : option Tool :=
  map_get name (tools o).

(** [getRegisteredTools()] *)
Definition getRegisteredTools (o : OrchestratorState) : list Tool :=
  map snd (tools o).

(** [getToolFunctions()] *)
Definition getToolFunctions (o : OrchestratorState) : list Tool :=
  map (fun tool => mkTool (tool_name tool) (tool_description tool) (parameters tool))
      (map snd (tools o)).

Definition systemPrompt (context : Context) : string :=
  "You are an AI Integration Agent Orchestrator powered by AutoWeave.

Your role is to help users create integration agents from OpenAPI specifications. You have access to specialized tools for:
1. Parsing and validating OpenAPI specifications
2. Generating Pydantic models from API schemas
3. Creating Kubernetes manifests for deployment
4. Setting up GitOps workflows with Argo CD
5. Analyzing API complexity and providing recommendations

When a user requests an integration agent, follow these steps:
1. Parse and validate the OpenAPI specification
2. Analyze the API for complexity and patterns
3. Generate appropriate Pydantic models
4. Create Kubernetes deployment manifests
5. Set up GitOps deployment if requested

Always provide clear explanations of what you're doing and why. Be helpful and educational.

Current context: " +:+ stringify_context context.

(** [buildMessages(userInput, context)] *)
Definition buildMessages (userInput : string) (context : Context)
    (o : OrchestratorState) : list ChatMessage :=
  [mkChatMessage "system" (systemPrompt context)] ++
  slice_last 6 (conversationHistory o) ++
  [mkChatMessage "user" userInput].

(** [extractRecommendations(content)] *)
Definition extractRecommendations (content : string) : list string :=
  let bulletPoints := match_bullets content in
  let numberedPoints := match_numbered content in
  match bulletPoints with Some points => map strip_bullet points | None => [] end ++
  match numberedPoints with Some points => map strip_number points | None => [] end.

(** [result.message] of a tool result. *)
Definition result_message (r : ToolResult) : option string :=
  match r with
  | ParserResult _ _ _ m | PydanticResult _ m | ManifestResult _ m
  | GitOpsResult _ m | AnalyzerResult _ _ m => Some m
  | ToolFailure _ _ _ => None
  end.

(** [formatResultForHistory(result)] *)
Definition formatResultForHistory (result : OrchestrationResult) : string :=
  match result with
  | ToolExecution tool _ r _ =>
      "Executed " +:+ tool +:+ ": " +:+ or_str (result_message r) "Success"
  | Reasoning content _ => content
  end.

(** [addToHistory(userInput, result)] *)
Definition addToHistory (userInput : string) (result : OrchestrationResult)
    (o : OrchestratorState) : OrchestratorState :=
  let pushed :=
    conversationHistory o ++
    [mkChatMessage "user" userInput;
     mkChatMessage "assistant" (formatResultForHistory result)] in
  mkOrchestrator (tools o)
    (if (20 <? length pushed)%nat then slice_last 20 pushed else pushed).

(** [clearHistory()] *)
Definition clearHistory (o : OrchestratorState) : OrchestratorState :=
  mkOrchestrator (tools o) [].

(** [const { c } = context.integrationAgent || {}] followed by [!c]. *)
Definition component (c : Components -> bool) (context : Context) : bool :=
  match ctx_integrationAgent context with
  | Some components => c components
  | None => false
  end.

(** [executeOpenAPIParser(args, context)] *)
Definition executeOpenAPIParser (args : ToolArgs) (context : Context) : M ToolResult :=
  if negb (component has_openAPIParser context)
  then throw (new_Error "OpenAPI Parser not available in context")
  else
    spec <- call_world (parseSpecification (spec_url args)) ;;
    metadata <- call_pure (extractMetadata (Some spec)) ;;
    analysis <- call_pure (analyzeSpecification (Some spec)) ;;
    ret (ParserResult spec metadata analysis
           ("Successfully parsed OpenAPI spec: " +:+ sm_title metadata +:+
            " v" +:+ sm_version metadata)).

(** [executePydanticGenerator(args, context)] *)
Definition executePydanticGenerator (args : ToolArgs) (context : Context)
    : M ToolResult :=
  if negb (component has_pydanticGenerator context)
  then throw (new_Error "Pydantic Generator not available in context")
  else
    result <- call_world (generateModels (openapi_spec args)) ;;
    ret (PydanticResult result
           ("Generated " +:+ pretty (length (models result)) +:+ " Pydantic models")).

(** [executeManifestGenerator(args, context)] *)
Definition executeManifestGenerator (args : ToolArgs) (context : Context)
    : M ToolResult :=
  if negb (component has_integrationAgent context)
  then throw (new_Error "Integration Agent not available in context")
  else
    generated <- Agent.generateKubernetesManifests
      (mkManifestOptions (chain (agent_config args) ac_openAPISpec)
                         (namespace args)
                         (chain (agent_config args) ac_deployConfig)) ;;
    ret (ManifestResult generated
           ("Generated Kubernetes manifests for namespace: " +:+
            or_str (namespace args) "default")).

(** [executeGitOpsDeployment(args, context)] *)
Definition executeGitOpsDeployment (args : ToolArgs) (context : Context)
    : M ToolResult :=
  if negb (component has_gitOpsManager context)
  then throw (new_Error "GitOps Manager not available in context")
  else
    result <- call_world
      (deployToGitOps
         (mkDeployOptions (Raw <$> a_manifests args) (a_gitRepo args)
                          (a_targetNamespace args) (a_commitMessage args))) ;;
    ret (GitOpsResult result
           ("Deployed to GitOps repository: " +:+ or_str (git_repo args) "default")).

(** [executeComplexityAnalyzer(args, context)] *)
Definition executeComplexityAnalyzer (args : ToolArgs) (context : Context)
    : M ToolResult :=
  if negb (component has_openAPIParser context)
  then throw (new_Error "OpenAPI Parser not available in context")
  else
    analysis <- call_pure (analyzeSpecification (openapi_spec args)) ;;
    metadata <- call_pure (extractMetadata (openapi_spec args)) ;;
    ret (AnalyzerResult analysis metadata
           ("API complexity: " +:+ complexity analysis +:+ ", " +:+
            pretty (length (sm_endpoints metadata)) +:+ " endpoints")).

(** The [switch] of [executeTool]. *)
Definition dispatch (name : string) (parsedArgs : ToolArgs) (context : Context)
    : M ToolResult :=
  if String.eqb name "parse_openapi_spec"
  then executeOpenAPIParser parsedArgs context
  else if String.eqb name "generate_pydantic_models"
  then executePydanticGenerator parsedArgs context
  else if String.eqb name "generate_kubernetes_manifests"
  then executeManifestGenerator parsedArgs context
  else if String.eqb name "deploy_via_gitops"
  then executeGitOpsDeployment parsedArgs context
  else if String.eqb name "analyze_api_complexity"
  then executeComplexityAnalyzer parsedArgs context
  else throw (new_Error ("Unknown tool: " +:+ name)).

(** [executeTool(functionCall, context)]; [JSON.parse] runs before the
    [try]. *)
Definition executeTool (functionCall : FunctionCall) (context : Context)
    : M ToolResult :=
  match fc_parsed functionCall with
  | inl rejected => throw (new_SyntaxError rejected)
  | inr parsedArgs =>
      try_catch (dispatch (fc_name functionCall) parsedArgs context)
        (fun error =>
           ret (ToolFailure (message error) (fc_name functionCall) parsedArgs))
  end.

(** [processResponse(response, context)] *)
Definition processResponse (response : Response) (context : Context)
    : M OrchestrationResult :=
  match choices response with
  | [] => throw (new_TypeError "Cannot read properties of undefined (reading 'message')")
  | message :: _ =>
      match function_call message with
      | Some call =>
          toolResult <- executeTool call context ;;
          match fc_parsed call with
          | inl rejected => throw (new_SyntaxError rejected)
          | inr arguments =>
              ret (ToolExecution (fc_name call) arguments toolResult
                     (or_str (rm_content message) ("Executed " +:+ fc_name call)))
          end
      | None =>
          match rm_content message with
          | None =>
              throw (new_TypeError "Cannot read properties of null (reading 'match')")
          | Some content =>
              ret (Reasoning content (extractRecommendations content))
          end
      end
  end.

(** [orchestrate(userInput, context)] *)
Definition orchestrate (userInput : string) (context : Context)
    : M OrchestrationResult :=
  try_catch
    (o <- get_orchestrator ;;
     let messages := buildMessages userInput context o in
     let functions := getToolFunctions o in
     response <- call_llm
       (chat_completions_create (mkRequest "gpt-4" messages functions)) ;;
     result <- processResponse response context ;;
     modify_orchestrator (addToHistory userInput result) ;;;
     ret result)
    (fun error => throw error).

(** [response.content || JSON.stringify(response)] *)
Definition content_or_json (response : OrchestrationResult) : string :=
  match response with
  | Reasoning content _ =>
      if truthy_str content then content else stringify_result response
  | ToolExecution _ _ _ _ => stringify_result response
  end.

(** [estimateIntegrationDuration(response)] *)
Definition estimateIntegrationDuration (response : OrchestrationResult) : string :=
  let content := content_or_json response in
  if includes "complex" content || includes "many endpoints" content
  then "30-60 minutes"
  else if includes "medium" content || includes "moderate" content
  then "15-30 minutes"
  else "5-15 minutes".

(** [identifyRequiredResources(response)] *)
Definition identifyRequiredResources (response : OrchestrationResult) : list string :=
  let content := content_or_json response in
  ["OpenAPI specification"; "Kubernetes cluster"] ++
  (if includes "git" content || includes "GitOps" content
   then ["Git repository"] else []) ++
  (if includes "auth" content || includes "authentication" content
   then ["API credentials"] else []) ++
  (if includes "database" content || includes "storage" content
   then ["Database/storage"] else []).

(** [planIntegration(request, context)] *)
Definition planIntegration (request : string) (context : Context) : M Plan :=
  let planningPrompt :=
    "Create a detailed step-by-step plan for the following integration request:

Request: " +:+ request +:+ "

Context: " +:+ stringify_context context +:+ "

Provide a structured plan with clear steps, estimated time, and required resources." in
  response <- orchestrate planningPrompt context ;;
  ret (mkPlan request response (estimateIntegrationDuration response)
              (identifyRequiredResources response)).

End Orchestrator.
End Orchestrator.

(** ** The module entry point (index.js) *)

(** The [options] of [createIntegrationAgent]. *)
Record Options := mkOptions {
  openapi_url : option string;
  target_namespace : option string;
  o_git_repo : option string;
  deploy_config : option json
}.

(** What [createIntegrationAgent] returns. *)
Record IntegrationResult := mkResult {
  success : bool;
  r_plan : Plan;
  openAPISpec : OpenAPI.Spec;
  pydanticModels : ModelsValue;
  kubernetesManifests : K8sResult;
  deploymentResult : option DeploymentValue;
  orchestrationResults : list (string * OrchestrationResult);
  duration : Z
}.

(** The outputs of the stages of a run. *)
Record StageOutputs := mkOutputs {
  out_spec : OpenAPI.Spec;
  out_models : ModelsValue;
  out_manifests : K8sResult;
  out_deployment : option DeploymentValue
}.

Definition stage_outputs (r : IntegrationResult) : StageOutputs :=
  mkOutputs (openAPISpec r) (pydanticModels r) (kubernetesManifests r)
            (deploymentResult r).

Module Coordinator.
Section Coordinator.
Context `{E : Env}.

(** [`${o}`] for a string or undefined. *)
Definition template (o : option string) : string := default "undefined" o.

(** [this.metricsCollector.startIntegration(integrationId, options)] *)
Definition startIntegration (integrationId : option string) : M string :=
  fun s =>
    let '(id, mc) :=
      Metrics.startIntegration integrationId (Date_now (world s))
                               (metricsCollector s) in
    (mkState (llm s) (world s) mc (orchestrator s) (integrationAgent s), inr id).

Definition orchestrationContext : Context :=
  mkContext (Some (mkComponents true true true true)) None None None None None.

(** [openAPIResult.result?.spec] *)
Definition result_spec (r : OrchestrationResult) : option OpenAPI.Spec :=
  match r with
  | ToolExecution _ _ (ParserResult spec _ _ _) _ => Some spec
  | _ => None
  end.

(** [pydanticResult.result] *)
Definition result_of (r : OrchestrationResult) : option ToolResult :=
  match r with
  | ToolExecution _ _ result _ => Some result
  | Reasoning _ _ => None
  end.

(** [manifestsResult.result?.manifests] *)
Definition result_manifests (r : OrchestrationResult) : option K8sResult :=
  match r with
  | ToolExecution _ _ (ManifestResult generated _) _ => Some generated
  | _ => None
  end.

(** Step 5 of the [try] block: deploy via GitOps, if requested. *)
Definition deploy (options : Options) (kubernetesManifests : K8sResult)
    : M (option DeploymentValue) :=
  if truthy (o_git_repo options) then
    gitOpsResult <- Orchestrator.orchestrate
      ("Deploy the generated manifests via GitOps to repository " +:+
       template (o_git_repo options))
      (mkContext (ctx_integrationAgent orchestrationContext) None None
                 (target_namespace options) (Some kubernetesManifests)
                 (o_git_repo options)) ;;
    match result_of gitOpsResult with
    | Some result => ret (Some (ToolDeployment result))
    | None =>
        deployed <- call_world
          (deployToGitOps
             (mkDeployOptions (Some (Generated kubernetesManifests))
                              (o_git_repo options) (target_namespace options) None)) ;;
        ret (Some (Deployed deployed))
    end
  else ret None.

(** The stages of the [try] block of [createIntegrationAgent], from the
    planning request to the reading of the clock that gives [duration]. *)
Definition stages (options : Options) (startTime : Z) : M IntegrationResult :=
  let integrationRequest :=
    "Create an integration agent from OpenAPI specification at " +:+
    template (openapi_url options) +:+ " for deployment in namespace " +:+
    or_str (target_namespace options) "default" +:+
    (if truthy (o_git_repo options)
     then " with GitOps deployment to " +:+ template (o_git_repo options)
     else EmptyString) in
  plan <- Orchestrator.planIntegration integrationRequest orchestrationContext ;;
  (* Step 1: parse and validate the OpenAPI specification *)
  openAPIResult <- Orchestrator.orchestrate
    ("Parse and analyze the OpenAPI specification at " +:+
     template (openapi_url options))
    orchestrationContext ;;
  openAPISpec <-
    match result_spec openAPIResult with
    | Some spec => ret spec
    | None => call_world (parseSpecification (openapi_url options))
    end ;;
  (* Step 2: generate Pydantic models *)
  pydanticResult <- Orchestrator.orchestrate
    "Generate Pydantic models from the parsed OpenAPI specification"
    (mkContext (ctx_integrationAgent orchestrationContext) (Some openAPISpec)
               None None None None) ;;
  pydanticModels <-
    match result_of pydanticResult with
    | Some result => ret (ToolModels result)
    | None =>
        generated <- call_world (generateModels (Some openAPISpec)) ;;
        ret (GeneratedModels generated)
    end ;;
  (* Step 3: generate Kubernetes manifests *)
  manifestsResult <- Orchestrator.orchestrate
    ("Generate Kubernetes manifests for deployment in namespace " +:+
     or_str (target_namespace options) "default")
    (mkContext (ctx_integrationAgent orchestrationContext) None
               (Some (openAPISpec, pydanticModels)) (target_namespace options)
               None None) ;;
  kubernetesManifests <-
    match result_manifests manifestsResult with
    | Some generated => ret generated
    | None =>
        Agent.generateKubernetesManifests
          (mkManifestOptions (Some openAPISpec) (target_namespace options)
                             (deploy_config options))
    end ;;
  (* Step 4: validate manifests *)
  Agent.validateManifests (Generated kubernetesManifests) ;;;
  (* Step 5: deploy via GitOps (if requested) *)
  deploymentResult <- deploy options kubernetesManifests ;;
  finished <- now ;;
  ret (mkResult true plan openAPISpec pydanticModels kubernetesManifests
         deploymentResult
         [("openAPI", openAPIResult); ("pydantic", pydanticResult);
          ("manifests", manifestsResult)]
         (finished - startTime)).

(** The [try] block: start the metrics, run the stages, record success. *)
Definition try_block (options : Options) (startTime : Z) : M IntegrationResult :=
  t <- now ;;
  startIntegration (Some ("integration-" +:+ pretty t)) ;;;
  result <- stages options startTime ;;
  modify_metrics (Metrics.recordSuccess (duration result)) ;;;
  ret result.

(** The [catch] block: record the failure, throw the error again. *)
Definition catch_block (startTime : Z) (error : Error) : M IntegrationResult :=
  finished <- now ;;
  modify_metrics (Metrics.recordFailure (finished - startTime) error) ;;;
  throw error.

(** [createIntegrationAgent(options)] *)
Definition createIntegrationAgent (options : Options) : M IntegrationResult :=
  startTime <- now ;;
  if negb (truthy (openapi_url options))
  then throw (new_Error "Missing required parameter: openapi_url")
  else try_catch (try_block options startTime) (catch_block startTime).

(** The run with reasoning disabled, in the words of the specification
    (sections 4.3 and 8): each stage's collaborator is invoked directly,
    with the options derived from the run. *)
Definition runDirect (options : Options) : M StageOutputs :=
  openAPISpec <- call_world (parseSpecification (openapi_url options)) ;;
  generated <- call_world (generateModels (Some openAPISpec)) ;;
  kubernetesManifests <- Agent.generateKubernetesManifests
    (mkManifestOptions (Some openAPISpec) (target_namespace options)
                       (deploy_config options)) ;;
  Agent.validateManifests (Generated kubernetesManifests) ;;;
  deploymentResult <-
    (if truthy (o_git_repo options) then
       deployed <- call_world
         (deployToGitOps
            (mkDeployOptions (Some (Generated kubernetesManifests))
                             (o_git_repo options) (target_namespace options) None)) ;;
       ret (Some (Deployed deployed))
     else ret None) ;;
  ret (mkOutputs openAPISpec (GeneratedModels generated) kubernetesManifests
                 deploymentResult).

End Coordinator.
End Coordinator.

(** ** Notions used to state the properties *)

Section Notions.
Context `{E : Env}.

(** A module as its constructor leaves it. *)
Definition initial (l : LLM) (w : World) : State :=
  mkState l w (Metrics.constructor Metrics.empty_heap)
          Orchestrator.constructor Agent.constructor.

Definition history (s : State) : list ChatMessage :=
  conversationHistory (orchestrator s).

(** A sequence of [orchestrate] calls whose caller goes on after an error. *)
Definition orchestrate_all (inputs : list (string * Context)) (s : State) : State :=
  fold_left (fun s input => fst (Orchestrator.orchestrate (fst input) (snd input) s))
            inputs s.

(** The entries that a sequence of [orchestrate] calls pushes, in order. *)
Fixpoint transcript (inputs : list (string * Context)) (s : State)
    : list ChatMessage :=
  match inputs with
  | [] => []
  | input :: rest =>
      let '(s', r) := Orchestrator.orchestrate (fst input) (snd input) s in
      match r with
      | inr result =>
          [mkChatMessage "user" (fst input);
           mkChatMessage "assistant" (Orchestrator.formatResultForHistory result)]
      | inl _ => []
      end ++ transcript rest s'
  end.

(** The reasoning service answers every request with guidance: a message
    with text and no function call. *)
Definition guidance_only : Prop :=
  forall req l, exists content rest,
    fst (chat_completions_create req l) =
    inr (mkResponse (mkResponseMessage (Some content) None :: rest)).

(** The reasoning service rejects every request. *)
Definition service_unreachable : Prop :=
  forall req l, exists e, fst (chat_completions_create req l) = inl e.

(** The directory that [validateManifests] works in when called in [s]. *)
Definition validation_dir (s : State) : string :=
  path_join "/tmp" ("autoweave-validation-" +:+ pretty (Date_now (world s))).

(** The file operations of [validateManifests] succeed. *)
Definition fs_succeeds : Prop :=
  (forall path w, fst (fs_mkdir path w) = inr tt) /\
  (forall path data w, fst (fs_writeFile path data w) = inr tt) /\
  (forall path w, fst (fs_rm path w) = inr tt).

(** The state [s] with the world [w]. *)
Definition with_world (s : State) (w : World) : State :=
  mkState (llm s) w (metricsCollector s) (orchestrator s) (integrationAgent s).

(** The file of an entry of the manifests in the directory [tempDir]. *)
Definition manifest_file (tempDir : string) (entry : string * json) : string :=
  path_join tempDir (fst entry +:+ ".yaml").

(** The world after the directory has been made and one file has been
    written for each entry. *)
Definition staged (entries : list (string * json)) (tempDir : string) (w : World)
    : World :=
  fold_left
    (fun w entry =>
       snd (fs_writeFile (manifest_file tempDir entry) (JSON_stringify (snd entry)) w))
    entries (snd (fs_mkdir tempDir w)).

(** What the subprocesses answer when commands are run one after the other
    until one fails: the error of the one that has failed, if any, and the
    world they leave. *)
Fixpoint run_commands (commands : list (string * list string)) (w : World)
    : option Error * World :=
  match commands with
  | [] => (None, w)
  | (command, args) :: rest =>
      match spawn command args w with
      | (inr _, w') => run_commands rest w'
      | (inl e, w') => (Some e, w')
      end
  end.


(** The result of a check after such an answer. *)
Definition verdict (failure : option Error) : CheckResult :=
  match failure with
  | None => mkCheck true []
  | Some e => mkCheck false [message e]
  end.

End Notions.

(** The path handled by an endpoint step. *)
Definition proxy_path (st : Workflow.Step) : option string :=
  match Workflow.config st with
  | Workflow.ProxyConfig _ path _ => Some path
  | _ => None
  end.

(** A check result as [validateManifests] fills it: passed and no error, or
    not passed and the message of the failure. *)
Definition check_filled (c : CheckResult) : Prop :=
  (passed c = true /\ errors c = []) \/
  (passed c = false /\ exists m, errors c = [m]).

(** ** A concrete environment

    The billing scenario of the specification: the parser returns the
    "Billing API" 1.0, the manifest generator one deployment (three more
    manifests are added by the agent), and every collaborator call advances
    the clock by one.  The answer of the reasoning service and the outcome
    of [fs.mkdir] are parameters. *)

Definition billing_spec : OpenAPI.Spec :=
  OpenAPI.mkSpec
    (Some (OpenAPI.mkInfo (Some "Billing API") (Some "1.0")))
    (Some [OpenAPI.mkServer (Some "https://x")])
    (Some [("/invoices", [("get", JObj []); ("post", JObj [])]);
           ("/customers", [("get", JObj [])])]).

Definition billing_models : Models :=
  mkModels "billing_api_models.py" "class Invoice(BaseModel): pass"
           [JStr "Invoice"] [] [] 1 "Billing API" "billing_api".

Definition billing_deployment : Deployment :=
  mkDeployment (Some "https://git/x.git") (Some "billing") 4 JNull JNull.

Definition billing_env (answer : Error + Response) (mkdir_fails : bool) : Env := {|
  LLM := nat;
  World := Z;
  chat_completions_create := fun _ n => (answer, S n);
  Date_now := fun w => w;
  parseSpecification := fun _ w => (inr billing_spec, w + 1);
  extractMetadata := fun _ => inr (mkSpecMetadata "Billing API" "1.0" [] JNull);
  analyzeSpecification := fun _ => inr (mkSpecAnalysis "low" [] JNull);
  generateModels := fun _ w => (inr billing_models, w + 1);
  yamlGenerator_generate := fun _ _ w => (inr [("deployment", JObj [])], w + 1);
  deployToGitOps := fun _ w => (inr billing_deployment, w + 1);
  fs_mkdir := fun _ w =>
    (if mkdir_fails then inl (new_Error "EACCES: permission denied") else inr tt,
     w + 1);
  fs_writeFile := fun _ _ w => (inr tt, w + 1);
  fs_rm := fun _ w => (inr tt, w + 1);
  spawn := fun command _ w =>
    (if String.eqb command "conftest"
     then inl (new_Error "Command failed with code 1: ")
     else inr "ok",
     w + 1);
  path_join := fun a b => a +:+ "/" +:+ b;
  JSON_stringify := fun _ => "{}";
  stringify_spec := fun _ => "{}";
  stringify_context := fun _ => "{}";
  stringify_result := fun _ => "{}";
  toLowerCase := fun s => s;
  toUpperCase := fun s => s;
  replace_whitespace := fun s => s;
  replace_non_alnum := fun s => s;
  match_bullets := fun _ => None;
  match_numbered := fun _ => None;
  strip_bullet := fun s => s;
  strip_number := fun s => s
|}.

(** The reasoning service answers with guidance. *)
Definition guidance : Error + Response :=
  inr (mkResponse [mkResponseMessage (Some "Proceed stage by stage.") None]).

(** The reasoning service is unreachable. *)
Definition unreachable : Error + Response :=
  inl (mkError "APIConnectionError" "Connection error.").

(** The billing environment with a reasoning service that gives guidance,
    one that is unreachable, and one where [fs.mkdir] fails. *)
Definition guided : Env := billing_env guidance false.
Definition unguided : Env := billing_env unreachable false.
Definition read_only : Env := billing_env guidance true.



Definition billing_options (git_repo : option string) : Options :=
  mkOptions (Some "https://x/openapi.json") (Some "billing") git_repo None.

(** A manifest set to validate. *)
Definition billing_manifests : K8sResult :=
  mkK8sResult "integration-agent-1" [("deployment", JObj [])]
    (Workflow.mkWorkflow "integration-agent-api" "Integration agent for API (unknown)"
       [Agent.monitor_step] [] [] Agent.default_resources)
    (mkManifestMetadata "unknown" None).

(** ** Notions used in the proofs *)

Section ProofNotions.
Context `{E : Env}.

(** The method [c] leaves the observation [f] of the state as it was,
    whether it returns or throws. *)
Definition preserves {A X} (f : State -> X) (c : M A) : Prop :=
  forall s, f (fst (c s)) = f s.

(** Observations that do not depend on one component of the state. *)
Definition ignores_llm {X} (f : State -> X) : Prop :=
  forall l l' w mc o a, f (mkState l w mc o a) = f (mkState l' w mc o a).
Definition ignores_world {X} (f : State -> X) : Prop :=
  forall l w w' mc o a, f (mkState l w mc o a) = f (mkState l w' mc o a).
Definition ignores_metrics {X} (f : State -> X) : Prop :=
  forall l w mc mc' o a, f (mkState l w mc o a) = f (mkState l w mc' o a).
Definition ignores_orchestrator {X} (f : State -> X) : Prop :=
  forall l w mc o o' a, f (mkState l w mc o a) = f (mkState l w mc o' a).
Definition ignores_agent {X} (f : State -> X) : Prop :=
  forall l w mc o a a', f (mkState l w mc o a) = f (mkState l w mc o a').

(** The method [c] returns, from every state, a value that satisfies [P]. *)
Definition returns {A} (c : M A) (P : A -> Prop) : Prop :=
  forall s, exists a, snd (c s) = inr a /\ P a.

(** Whenever the method [c] returns, the value satisfies [P]. *)
Definition ensures {A} (c : M A) (P : A -> Prop) : Prop :=
  forall s, match snd (c s) with inr a => P a | inl _ => True end.

(** Two states that the collaborators cannot tell apart. *)
Definition same_collaborators (s1 s2 : State) : Prop :=
  world s1 = world s2 /\ integrationAgent s1 = integrationAgent s2.

(** From states that the collaborators cannot tell apart, [c1] and [c2]
    reach such states again, and both return, with values related by [R],
    or both throw the same error. *)
Definition simulates {A B} (R : A -> B -> Prop) (c1 : M A) (c2 : M B) : Prop :=
  forall s1 s2, same_collaborators s1 s2 ->
    same_collaborators (fst (c1 s1)) (fst (c2 s2)) /\
    match snd (c1 s1), snd (c2 s2) with
    | inr a, inr b => R a b
    | inl e1, inl e2 => e1 = e2
    | _, _ => False
    end.

(** [c] returns a value that satisfies [P] and leaves what the
    collaborators see as it was. *)
Definition quiet {A} (c : M A) (P : A -> Prop) : Prop :=
  forall s, same_collaborators (fst (c s)) s /\
            exists a, snd (c s) = inr a /\ P a.

End ProofNotions.

(** ** More of the metrics collector: the summary and sequences of calls *)

Module MetricsSummary.
Import Metrics.

(** [Array.from(m.values()).reduce((sum, count) => sum + count, 0)] *)
Definition sum_counts (m : gmap string Z) : Z :=
  map_fold (fun _ count sum => sum + count) 0 m.

(** What [getSummary] returns.  [successRate] and [averageDuration] (rounded
    floating-point quotients), [topErrors] (which depends on the order of the
    [Map]'s entries) and [timestamp] are left out. *)
Record Summary := mkSummary {
  totalIntegrations : Z;
  successfulIntegrations : Z;
  failedIntegrations : Z;
  activeIntegrations : Z;
  minDuration : Z;
  maxDuration : Z;
  totalErrors : Z;
  totalApiCalls : Z;
  memoryUsage : Z
}.

(** [getSummary()] *)
Definition getSummary (mc : MetricsCollector) : Summary :=
  let i := get_integrations (heap mc) (integrations (metrics mc)) in
  let p := get_performance (heap mc) (performance (metrics mc)) in
  mkSummary (total i) (success i) (failed i) (in_progress i)
    (match min_duration p with None => 0 | Some m => m end)
    (max_duration p)
    (sum_counts (get_map (heap mc) (errors (metrics mc))))
    (sum_counts (get_map (heap mc) (api_calls (metrics mc))))
    (memory_usage (get_resources (heap mc) (resources (metrics mc)))).

(** The durations that a sequence of calls records, in order. *)
Definition recorded (cs : list Call) : list Z :=
  flat_map (fun c => match c with
                     | StartIntegration _ _ => []
                     | RecordSuccess d => [d]
                     | RecordFailure d _ => [d]
                     end) cs.

(** The error type that a call counts: [error.constructor.name ||
    'UnknownError'] for a [recordFailure], none for the other calls. *)
Definition failure_type (c : Call) : option string :=
  match c with
  | RecordFailure _ e => Some (or_str (Some (ctor_name e)) "UnknownError")
  | _ => None
  end.

(** A sequence of [recordApiRequest] calls, each an endpoint and a method. *)
Definition record_requests (rs : list (string * string)) (mc : MetricsCollector)
    : MetricsCollector :=
  fold_left (fun mc r => recordApiRequest (fst r) (snd r) mc) rs mc.

(** The count kept for a key of [api_calls]. *)
Definition api_count (key : string) (mc : MetricsCollector) : Z :=
  default 0 (get_map (heap mc) (api_calls (metrics mc)) !! key).

(** The references of the collector have been allocated. *)
Definition allocated (mc : MetricsCollector) : Prop :=
  (integrations (metrics mc) < h_next (heap mc))%nat.

End MetricsSummary.

(** ** Sequences of calls on the registries *)

(** A sequence of [registerTool] calls. *)
Definition register_all (ts : list Tool) (o : OrchestratorState) : OrchestratorState :=
  fold_left (fun o tool => Orchestrator.registerTool tool o) ts o.

(** The names of the five tools that [executeTool] knows. *)
Definition known_tools : list string :=
  ["parse_openapi_spec"; "generate_pydantic_models";
   "generate_kubernetes_manifests"; "deploy_via_gitops"; "analyze_api_complexity"].

(** The tool registry of a module. *)
Definition registry `{E : Env} (s : State) : list (string * Tool) :=
  tools (orchestrator s).

(** A call on the agent registry. *)
Inductive AgentCall :=
| Generate (options : ManifestOptions)
| Delete (agentId : string).

Section AgentCalls.
Context `{E : Env}.

(** The agent ids that a sequence of calls returns, in order; the caller goes
    on after an error. *)
Fixpoint generated_ids (cs : list AgentCall) (s : State) : list string :=
  match cs with
  | [] => []
  | Generate options :: rest =>
      let '(s', r) := Agent.generateKubernetesManifests options s in
      match r with inr generated => [agentId generated] | inl _ => [] end ++
      generated_ids rest s'
  | Delete id :: rest => generated_ids rest (fst (Agent.deleteAgent id s))
  end.

End AgentCalls.

(** ** Start of the integration agent (integration-agent.js) *)

Module Startup.
Section Startup.
Context `{E : Env}.

(** [verifyDependencies()] *)
Definition verifyDependencies : M unit :=
  for_each
    (fun tool =>
       try_catch (Agent.executeCommand tool ["--version"] ;;; ret tt)
                 (fun _ => ret tt))
    ["kubeconform"; "conftest"; "kubectl"].

(** [initialize()] *)
Definition initialize : M unit :=
  try_catch verifyDependencies (fun error => throw error).

End Startup.
End Startup.

(** ** The GitOps manager (gitops-manager.js) *)

Module GitOps.

(** The calls that the manager makes to [simple-git] and to [fs]. *)
Inductive Op :=
| GitOpen (baseDir : option string)
| Clone (gitRepo repoDir : string)
| Mkdir (path : string)
| WriteFile (path content : string)
| AddConfig (repoDir key value : string)
| Add (repoDir files : string)
| Status (repoDir : string)
| Commit (repoDir message : string)
| Push (repoDir remote branch : string)
| Rm (path : string)
| Access (path : string).

(** What a call gives when it does not fail: [status.files.length] for
    [status()], [commitResult.commit] for [commit(message)]. *)
Definition Answer (op : Op) : Type :=
  match op with
  | Status _ => nat
  | Commit _ _ => string
  | _ => unit
  end.

(** The Argo CD Application of [createArgocdApplication], by the fields that
    vary: the other fields of the object are constants. *)
Record Application := mkApplication {
  app_name : string;
  app_agentId : json;
  repoURL : option string;
  app_path : string;
  app_namespace : string
}.

(** The host of the manager: the disk with its repositories, which answers
    the calls, the clock, and [path] and [yaml]. *)
Class Host := {
  Disk : Type;
  exec : forall op : Op, Disk -> (Error + Answer op) * Disk;
  Date_now : Disk -> Z;
  toISOString : Disk -> string;
  basename : string -> string -> string;
  join : list string -> string;
  stringify : json -> string;
  stringify_app : Application -> string;
  String_of : json -> string
}.

(** [options] of [deployToGitOps]; [manifests] by its entries. *)
Record Options := mkOptions {
  manifests : option (list (string * json));
  gitRepo : option string;
  targetNamespace : option string;
  commitMessage : option string
}.

(** What [commitAndPush] returns. *)
Inductive CommitResult :=
| NoChanges
| Committed (commit : string) (changes : nat) (message : string).

(** What [deployToGitOps] returns. *)
Record Result := mkResult {
  success : bool;
  r_gitRepo : option string;
  r_targetNamespace : option string;
  manifestsWritten : nat;
  argocdApplication : Application;
  commitResult : CommitResult;
  deployedAt : string
}.

(** [v.k] for a value [v] that is not null: the property of an object, and
    undefined for a number, a boolean, a string or an array, which have no
    property of the names used here. *)
Definition prop (k : string) (v : json) : option json :=
  match v with
  | JObj fields => map_get k fields
  | _ => None
  end.

(** [v?.k] *)
Definition opt_prop (k : string) (v : option json) : option json :=
  match v with
  | None | Some JNull => None
  | Some v => prop k v
  end.

Definition truthy_value (v : option json) : bool :=
  match v with
  | Some v => js_truthy v
  | None => false
  end.

(** [m.metadata?.labels?.['autoweave.dev/agent-id']]; [m.metadata] throws
    for [null]. *)
Definition agent_label (m : json) : Error + option json :=
  match m with
  | JNull => inl (new_TypeError "Cannot read properties of null (reading 'metadata')")
  | _ => inr (opt_prop "autoweave.dev/agent-id" (opt_prop "labels" (prop "metadata" m)))
  end.

(** A manifest for which the predicate of [find] gives a falsy value. *)
Definition unlabelled (m : json) : Prop :=
  exists label, agent_label m = inr label /\ truthy_value label = false.

(** [values.find(m => m.metadata?.labels?.['autoweave.dev/agent-id'])] *)
Fixpoint find_labelled (values : list json) : Error + option json :=
  match values with
  | [] => inr None
  | m :: rest =>
      match agent_label m with
      | inl e => inl e
      | inr label => if truthy_value label then inr (Some m) else find_labelled rest
      end
  end.

(** [found?.metadata?.labels?.['autoweave.dev/agent-id'] || 'unknown'] *)
Definition agent_id (found : option json) : json :=
  let label :=
    opt_prop "autoweave.dev/agent-id" (opt_prop "labels" (opt_prop "metadata" found)) in
  match label with
  | Some v => if js_truthy v then v else JStr "unknown"
  | None => JStr "unknown"
  end.

Section Manager.
Context `{H : Host}.

(** [`${v}`] *)
Definition template (v : json) : string :=
  match v with
  | JStr s => s
  | _ => String_of v
  end.

(** The disk, and the calls made so far. *)
Record St := mkSt { disk : Disk; trace : list Op }.

Definition G (A : Type) : Type := St -> St * (Error + A).

Definition ret {A} (a : A) : G A := fun s => (s, inr a).

Definition throw {A} (e : Error) : G A := fun s => (s, inl e).

Definition bind {A B} (c : G A) (k : A -> G B) : G B :=
  fun s =>
    match c s with
    | (s', inr a) => k a s'
    | (s', inl e) => (s', inl e)
    end.

Definition try_catch {A} (c : G A) (h : Error -> G A) : G A :=
  fun s =>
    match c s with
    | (s', inr a) => (s', inr a)
    | (s', inl e) => h e s'
    end.

(** A call, awaited: it is made, and it returns or throws. *)
Definition perform (op : Op) : G (Answer op) :=
  fun s =>
    let '(r, d) := exec op (disk s) in
    (mkSt d (trace s ++ [op]), r).

Definition now : G Z := fun s => (s, inr (Date_now (disk s))).

Definition iso_now : G string := fun s => (s, inr (toISOString (disk s))).

End Manager.

Declare Scope git_scope.
Delimit Scope git_scope with git.
Notation "x <- c ;; k" := (bind c (fun x => k))
  (at level 62, c at next level, right associativity) : git_scope.
Notation "c ;;; k" := (bind c (fun _ => k))
  (at level 62, right associativity) : git_scope.
Local Open Scope git_scope.

Section Methods.
Context `{H : Host}.

(** The double quote. *)
Definition dquote : string :=
  String (Ascii.Ascii false true false false false true false false) EmptyString.

(** [this.workspaceDir], set by the constructor. *)
Definition workspaceDir : string := join ["/tmp"; "autoweave-gitops"].

(** [initialize()] *)
Definition initialize : G unit :=
  try_catch (perform (Mkdir workspaceDir)) (fun error => throw error).

(** [cloneRepository(gitRepo)]; [path.basename] throws for a path that is
    not a string. *)
Definition cloneRepository (gitRepo : option string) : G string :=
  match gitRepo with
  | None =>
      throw (new_TypeError
        ("The " +:+ dquote +:+ "path" +:+ dquote +:+
         " argument must be of type string. Received undefined"))
  | Some repo =>
      let repoName := basename repo ".git" in
      t <- now ;;
      let repoDir := join [workspaceDir; repoName +:+ "-" +:+ pretty t] in
      try_catch
        (perform (GitOpen None) ;;;
         perform (Clone repo repoDir) ;;;
         ret repoDir)
        (fun error => throw error)
  end.

(** The loop of [writeManifests]. *)
Fixpoint write_entries (entries : list (string * json)) (outputDir : string)
    (writtenFiles : list string) : G (list string) :=
  match entries with
  | [] => ret writtenFiles
  | (name, manifest) :: rest =>
      let filePath := join [outputDir; name +:+ ".yaml"] in
      perform (WriteFile filePath (stringify manifest)) ;;;
      write_entries rest outputDir (writtenFiles ++ [filePath])
  end.

(** [Object.entries(manifests)], [Object.values(manifests)] *)
Definition entries_of (manifests : option (list (string * json)))
    : G (list (string * json)) :=
  match manifests with
  | Some entries => ret entries
  | None => throw (new_TypeError "Cannot convert undefined or null to object")
  end.

(** [writeManifests(manifests, outputDir)] *)
Definition writeManifests (manifests : option (list (string * json)))
    (outputDir : string) : G (list string) :=
  entries <- entries_of manifests ;;
  write_entries entries outputDir [].

(** [createArgocdApplication(options, repoDir)] *)
Definition createArgocdApplication (options : Options) (repoDir : string)
    : G Application :=
  entries <- entries_of (manifests options) ;;
  match find_labelled (map snd entries) with
  | inl e => throw e
  | inr found =>
      let agentId := agent_id found in
      let argocdApp :=
        mkApplication ("autoweave-" +:+ template agentId) agentId (gitRepo options)
          ("manifests/" +:+ or_str (targetNamespace options) "default")
          (or_str (targetNamespace options) "default") in
      let argocdDir := join [repoDir; "argocd"] in
      perform (Mkdir argocdDir) ;;;
      let argocdAppPath :=
        join [argocdDir; "autoweave-" +:+ template agentId +:+ ".yaml"] in
      perform (WriteFile argocdAppPath
                 (stringify_app argocdApp)) ;;;
      ret argocdApp
  end.

(** [commitAndPush(repoDir, files, commitMessage)]; [git(repoDir)] comes
    before the [try]. *)
Definition commitAndPush (repoDir : string) (files : list string)
    (commitMessage : option string) : G CommitResult :=
  perform (GitOpen (Some repoDir)) ;;;
  try_catch
    (perform (AddConfig repoDir "user.name" "AutoWeave Integration Agent") ;;;
     perform (AddConfig repoDir "user.email" "autoweave@example.com") ;;;
     perform (Add repoDir ".") ;;;
     changes <- perform (Status repoDir) ;;
     if (changes =? 0)%nat then ret NoChanges
     else
       date <- iso_now ;;
       let message :=
         or_str commitMessage ("AutoWeave: Deploy integration agent - " +:+ date) in
       commit <- perform (Commit repoDir message) ;;
       perform (Push repoDir "origin" "main") ;;;
       ret (Committed commit changes message))
    (fun error => throw error).

(** [cleanup(repoDir)] *)
Definition cleanup (repoDir : string) : G unit :=
  try_catch (perform (Rm repoDir)) (fun _ => ret tt).

(** [deployToGitOps(options)] *)
Definition deployToGitOps (options : Options) : G Result :=
  try_catch
    (repoDir <- cloneRepository (gitRepo options) ;;
     let manifestsDir :=
       join [repoDir; "manifests"; or_str (targetNamespace options) "default"] in
     perform (Mkdir manifestsDir) ;;;
     writtenFiles <- writeManifests (manifests options) manifestsDir ;;
     argocdApp <- createArgocdApplication options repoDir ;;
     commitResult <- commitAndPush repoDir writtenFiles (commitMessage options) ;;
     cleanup repoDir ;;;
     date <- iso_now ;;
     ret (mkResult true (gitRepo options) (targetNamespace options)
            (length writtenFiles) argocdApp commitResult date))
    (fun error => throw error).

(** The loop of [validateRepository]. *)
Fixpoint has_directories (repoDir : string) (dirs : list string) : G bool :=
  match dirs with
  | [] => ret true
  | dir :: rest =>
      found <- try_catch (perform (Access (join [repoDir; dir])) ;;; ret true)
                 (fun _ => ret false) ;;
      if found then has_directories repoDir rest else ret false
  end.

(** [validateRepository(repoDir)] *)
Definition validateRepository (repoDir : string) : G bool :=
  has_directories repoDir ["manifests"; "argocd"].

(** What the host answers when calls are made one after the other until one
    fails: how many calls are made, the error of the one that fails, if any,
    and the disk that is left. *)
Record Answers := mkAnswers {
  made : nat;
  failed_with : option Error;
  leaves : Disk
}.

Fixpoint replay (ops : list Op) (d : Disk) : Answers :=
  match ops with
  | [] => mkAnswers 0 None d
  | op :: rest =>
      match exec op d with
      | (inl e, d') => mkAnswers 1 (Some e) d'
      | (inr _, d') =>
          let answers := replay rest d' in
          mkAnswers (S (made answers)) (failed_with answers) (leaves answers)
      end
  end.

(** The calls of [commitAndPush] before [status()]. *)
Definition configuring (repoDir : string) : list Op :=
  [GitOpen (Some repoDir);
   AddConfig repoDir "user.name" "AutoWeave Integration Agent";
   AddConfig repoDir "user.email" "autoweave@example.com";
   Add repoDir "."].

(** The calls that [c] makes, and what it gives, satisfy [P]: from every
    state, the calls are added to the trace. *)
Definition emits {A} (c : G A) (P : list Op -> Error + A -> Prop) : Prop :=
  forall s, exists ops,
    trace (fst (c s)) = trace s ++ ops /\ P ops (snd (c s)).

(** The file that [writeManifests] writes for an entry, and the call that
    writes it. *)
Definition file_of (outputDir : string) (entry : string * json) : string :=
  join [outputDir; fst entry +:+ ".yaml"].

Definition write_of (outputDir : string) (entry : string * json) : Op :=
  WriteFile (file_of outputDir entry) (stringify (snd entry)).

(** The calls of [commitAndPush] up to [status()]. *)
Definition staging (repoDir : string) : list Op :=
  [GitOpen (Some repoDir);
   AddConfig repoDir "user.name" "AutoWeave Integration Agent";
   AddConfig repoDir "user.email" "autoweave@example.com";
   Add repoDir ".";
   Status repoDir].

(** All calls that [c] makes satisfy [P]. *)
Definition only {A} (P : Op -> Prop) (c : G A) : Prop :=
  emits c (fun ops _ => Forall P ops).

End Methods.

Definition is_rm (op : Op) : bool :=
  match op with Rm _ => true | _ => false end.

(** The calls that remove nothing. *)
Definition kept (op : Op) : Prop := is_rm op = false.

(** The calls of a method that removes [dir] with its last call when it
    returns, and removes nothing when it throws. *)
Definition cleans_up {A} (dir : string) (X : A -> Prop) (ops : list Op)
    (r : Error + A) : Prop :=
  match r with
  | inr a => exists calls, ops = calls ++ [Rm dir] /\ Forall kept calls /\ X a
  | inl _ => Forall kept ops
  end.

(** A host on which the calls chosen by [fails] fail and the others succeed,
    with one changed file and the commit [abc123]; the disk counts the
    calls. *)
Definition answer (op : Op) : Answer op :=
  match op with
  | Status _ => 1%nat
  | Commit _ _ => "abc123"
  | _ => tt
  end.

Definition host (fails : Op -> bool) : Host := {|
  Disk := nat;
  exec := fun op d =>
    (if fails op then inl (new_Error "failed") else inr (answer op), S d);
  Date_now := fun d => Z.of_nat d;
  toISOString := fun d => "2024-01-01T00:00:00.000Z";
  basename := fun p ext => "repo";
  join := fun parts => foldr (fun a b => a +:+ "/" +:+ b) EmptyString parts;
  stringify := fun _ => "{}";
  stringify_app := fun _ => "{}";
  String_of := fun _ => "[object Object]"
|}.

End GitOps.

(** [Object.entries(result)] for the [result] of [generateKubernetesManifests],
    which [createIntegrationAgent] hands to [deployToGitOps] as [manifests];
    the steps of the workflow and the date [generatedAt] are given. *)
Definition result_entries (result : K8sResult) (steps : json) (generatedAt : string)
    : list (string * json) :=
  [("agentId", JStr (agentId result));
   ("manifests", JObj (manifests result));
   ("workflow",
    JObj [("name", JStr (Workflow.wf_name (workflow result)));
          ("description", JStr (Workflow.wf_description (workflow result)));
          ("steps", steps);
          ("tools", JArr (Workflow.tools (workflow result)));
          ("environment", JObj (Workflow.environment (workflow result)));
          ("resources", Workflow.resources (workflow result))]);
   ("metadata",
    JObj ([("openAPIVersion", JStr (openAPIVersion (metadata result)));
           ("generatedAt", JStr generatedAt)] ++
          match md_targetNamespace (metadata result) with
          | Some ns => [("targetNamespace", JStr ns)]
          | None => []
          end))].

(** ** Names of the generated models (pydantic-generator.js) *)

Module Pydantic.

(** A string by its UTF-16 code units, which is what a regular expression
    without the [u] flag works on. *)
Definition Str : Type := list N.

Definition underscore : N := 95%N.

Definition is_underscore (c : N) : bool := (c =? underscore)%N.

(** [[a-z]] and [[0-9]] *)
Definition is_lower (c : N) : bool := ((97 <=? c) && (c <=? 122))%N.

Definition is_digit (c : N) : bool := ((48 <=? c) && (c <=? 57))%N.

(** [s.replace(/[^a-z0-9]/g, '_')] *)
Definition replace_others (s : Str) : Str :=
  map (fun c => if is_lower c || is_digit c then c else underscore) s.

(** [s.replace(/_{2,}/g, '_')] *)
Fixpoint collapse (s : Str) : Str :=
  match s with
  | [] => []
  | c :: rest =>
      match rest with
      | c' :: _ =>
          if is_underscore c && is_underscore c' then collapse rest
          else c :: collapse rest
      | [] => [c]
      end
  end.

(** [s.replace(/^_|_$/g, '')]: an underscore at the start goes, and so does
    one at the end of what follows. *)
Definition strip_leading (s : Str) : Str :=
  match s with
  | c :: rest => if is_underscore c then rest else s
  | [] => []
  end.

Fixpoint strip_trailing (s : Str) : Str :=
  match s with
  | [] => []
  | c :: rest =>
      match rest with
      | [] => if is_underscore c then [] else [c]
      | _ :: _ => c :: strip_trailing rest
      end
  end.

Definition strip_ends (s : Str) : Str := strip_trailing (strip_leading s).

(** [sanitizeModelName(title)], given [String.prototype.toLowerCase]. *)
Definition sanitizeModelName (toLowerCase : Str -> Str) (title : Str) : Str :=
  strip_ends (collapse (replace_others (toLowerCase title))).

(** The characters of a sanitized name. *)
Definition is_name_char (c : N) : bool :=
  is_lower c || is_digit c || is_underscore c.

(** No two underscores in a row. *)
Fixpoint no_double (s : Str) : bool :=
  match s with
  | [] => true
  | c :: rest =>
      match rest with
      | c' :: _ => negb (is_underscore c && is_underscore c')
      | [] => true
      end && no_double rest
  end.

End Pydantic.

(* ================================================================== *)
(** * Properties *)

(** ** The billing scenario, run *)

(** The run without a deployment target succeeds; it is counted as one
    success and no run is left in progress. *)
Example billing_run_counters :
  Metrics.counters
    (metricsCollector
       (fst (Coordinator.createIntegrationAgent (billing_options None)
               (initial (E := guided) 0%nat 0)))) =
  Metrics.mkIntegrations 1 1 0 0.
Proof. reflexivity. Qed.

(** Its manifests are the generator's one and the agent's three. *)
Example billing_run_manifests :
  match snd (Coordinator.createIntegrationAgent (billing_options None)
               (initial (E := guided) 0%nat 0)) with
  | inr r => map fst (manifests (kubernetesManifests r))
  | inl _ => []
  end = ["deployment"; "configMap"; "service"; "serviceMonitor"].
Proof. reflexivity. Qed.

(** The planning request and the three stage requests leave eight entries
    in the history, and one agent in the registry. *)
Example billing_run_history :
  let s := fst (Coordinator.createIntegrationAgent (billing_options None)
                  (initial (E := guided) 0%nat 0)) in
  length (history s) = 8%nat /\
  map fst (agents (integrationAgent s)) = ["integration-agent-1"].
Proof. split; reflexivity. Qed.

(** With a deployment target a fifth request is made and the deployer's
    result is returned. *)
Example billing_run_deployed :
  match snd (Coordinator.createIntegrationAgent
               (billing_options (Some "https://git/x.git"))
               (initial (E := guided) 0%nat 0)) with
  | inr r => deploymentResult r
  | inl _ => None
  end = Some (Deployed billing_deployment).
Proof. reflexivity. Qed.

(** Validation of the billing manifests: [conftest] fails, the other two
    checks pass, and a result is returned. *)
Example billing_validation :
  snd (Agent.validateManifests (Generated billing_manifests)
         (initial (E := guided) 0%nat 0)) =
  inr (mkValidation (mkCheck true [])
         (mkCheck false ["Command failed with code 1: "])
         (mkCheck true [])).
Proof. reflexivity. Qed.

(** A tool call answered by the reasoning service is executed by
    [orchestrate]: here the parser tool, whose specification the first stage
    then takes over. *)
Example tool_call_is_executed :
  let call :=
    mkFunctionCall "parse_openapi_spec"
      (inr (mkToolArgs (Some "https://x/openapi.json") None None None None None
                        None None None)) in
  let E := billing_env (inr (mkResponse [mkResponseMessage None (Some call)])) false in
  match snd (Orchestrator.orchestrate (E := E) "Parse" Coordinator.orchestrationContext
               (initial (E := E) 0%nat 0)) with
  | inr r => Coordinator.result_spec r
  | inl _ => None
  end = Some billing_spec.
Proof. reflexivity. Qed.

Section MetricsProperties.
Import Metrics.

Lemma counters_startIntegration id now mc :
  counters (snd (startIntegration id now mc)) =
  mkIntegrations (total (counters mc)) (success (counters mc))
                 (failed (counters mc)) (in_progress (counters mc) + 1).
Proof.
  unfold counters, startIntegration, get_integrations; simpl.
  by rewrite lookup_insert_eq.
Qed.

Lemma counters_recordSuccess d mc :
  counters (recordSuccess d mc) =
  mkIntegrations (total (counters mc) + 1) (success (counters mc) + 1)
                 (failed (counters mc)) (Z.max 0 (in_progress (counters mc) - 1)).
Proof.
  unfold counters, recordSuccess, updateDurationMetrics, get_integrations; simpl.
  by rewrite lookup_insert_eq.
Qed.

Lemma counters_recordFailure d e mc :
  counters (recordFailure d e mc) =
  mkIntegrations (total (counters mc) + 1) (success (counters mc))
                 (failed (counters mc) + 1) (Z.max 0 (in_progress (counters mc) - 1)).
Proof.
  unfold counters, recordFailure, updateDurationMetrics, get_integrations; simpl.
  by rewrite lookup_insert_eq.
Qed.

End MetricsProperties.

Section MetricsSequences.
Import Metrics.

Lemma calls_snoc cs c mc : calls (cs ++ [c]) mc = call (calls cs mc) c.
Proof. unfold calls. by rewrite fold_left_app. Qed.

Lemma metrics_call mc c : metrics (call mc c) = metrics mc.
Proof. by destruct c. Qed.

Lemma metrics_calls cs mc : metrics (calls cs mc) = metrics mc.
Proof.
  induction cs as [|c cs IH] using rev_ind; [done|].
  by rewrite calls_snoc, metrics_call.
Qed.

Lemma counters_call mc c :
  counters (call mc c) =
  match c with
  | StartIntegration _ _ =>
      mkIntegrations (total (counters mc)) (success (counters mc))
        (failed (counters mc)) (in_progress (counters mc) + 1)
  | RecordSuccess _ =>
      mkIntegrations (total (counters mc) + 1) (success (counters mc) + 1)
        (failed (counters mc)) (Z.max 0 (in_progress (counters mc) - 1))
  | RecordFailure _ _ =>
      mkIntegrations (total (counters mc) + 1) (success (counters mc))
        (failed (counters mc) + 1) (Z.max 0 (in_progress (counters mc) - 1))
  end.
Proof.
  destruct c; simpl.
  - apply counters_startIntegration.
  - apply counters_recordSuccess.
  - apply counters_recordFailure.
Qed.

Lemma counters_constructor h : counters (constructor h) = zero_integrations.
Proof.
  unfold counters, constructor, get_integrations; simpl.
  by rewrite lookup_insert_eq.
Qed.

Lemma started_snoc cs c :
  started (cs ++ [c]) = started cs + (if is_start c then 1 else 0).
Proof.
  unfold started. rewrite filter_app, length_app, Nat2Z.inj_add. f_equal.
  destruct c; reflexivity.
Qed.

Lemma completed_snoc cs c :
  completed (cs ++ [c]) = completed cs + (if is_start c then 0 else 1).
Proof.
  unfold completed. rewrite filter_app, length_app, Nat2Z.inj_add. f_equal.
  destruct c; reflexivity.
Qed.

Lemma well_formed_snoc cs c :
  well_formed (cs ++ [c]) ->
  well_formed cs /\ completed (cs ++ [c]) <= started (cs ++ [c]).
Proof.
  intros Hwf. split.
  - intros n. destruct (decide (n <= length cs)%nat) as [Hle|Hgt].
    + specialize (Hwf n). by rewrite take_app_le in Hwf.
    + rewrite take_ge by lia.
      specialize (Hwf (length cs)). by rewrite take_app_le, take_ge in Hwf.
  - specialize (Hwf (length (cs ++ [c]))). by rewrite take_ge in Hwf.
Qed.

Lemma in_progress_nonneg cs mc :
  0 <= in_progress (counters mc) ->
  0 <= in_progress (counters (calls cs mc)).
Proof.
  induction cs as [|c cs IH] using rev_ind; [done|].
  intros H0. rewrite calls_snoc, counters_call.
  specialize (IH H0). destruct c; simpl; lia.
Qed.

Lemma in_progress_outstanding cs h :
  well_formed cs ->
  in_progress (counters (calls cs (constructor h))) = started cs - completed cs.
Proof.
  induction cs as [|c cs IH] using rev_ind.
  - intros _. change (calls [] (constructor h)) with (constructor h).
    by rewrite counters_constructor.
  - intros Hwf. apply well_formed_snoc in Hwf as [Hwf Hle].
    specialize (IH Hwf).
    rewrite started_snoc, completed_snoc in *.
    rewrite calls_snoc, counters_call.
    destruct c; simpl in *; lia.
Qed.

(** C4.  After any sequence of [startIntegration], [recordSuccess] and
    [recordFailure] calls on a newly constructed collector, the counters
    satisfy [success + failed = total]. *)
Theorem success_plus_failed_is_total (h : Heap) (cs : list Call) :
  let c := counters (calls cs (constructor h)) in
  success c + failed c = total c.
Proof.
  simpl. induction cs as [|c cs IH] using rev_ind.
  - change (calls [] (constructor h)) with (constructor h).
    by rewrite counters_constructor.
  - rewrite calls_snoc, counters_call. destruct c; simpl; lia.
Qed.

(** C5.  [in_progress] is never negative; in a sequence of calls where
    every completion belongs to a run started before it, [in_progress] is
    the number of runs started minus the number completed, so that a
    [recordSuccess] and a [recordFailure] each lower it by exactly one and
    it is 0 once every started run has completed. *)
Theorem in_progress_tracks_runs (h : Heap) (cs : list Call) :
  let ip l := in_progress (counters (calls l (constructor h))) in
  0 <= ip cs /\
  (well_formed cs -> ip cs = started cs - completed cs) /\
  (forall d, well_formed (cs ++ [RecordSuccess d]) ->
             ip (cs ++ [RecordSuccess d]) = ip cs - 1) /\
  (forall d e, well_formed (cs ++ [RecordFailure d e]) ->
               ip (cs ++ [RecordFailure d e]) = ip cs - 1) /\
  (well_formed cs -> started cs = completed cs -> ip cs = 0).
Proof.
  simpl. split; [|split; [|split; [|split]]].
  - apply in_progress_nonneg. by rewrite counters_constructor.
  - apply in_progress_outstanding.
  - intros d Hwf. rewrite (in_progress_outstanding _ _ Hwf).
    apply well_formed_snoc in Hwf as [Hwf _].
    rewrite (in_progress_outstanding _ _ Hwf), started_snoc, completed_snoc.
    simpl; lia.
  - intros d e Hwf. rewrite (in_progress_outstanding _ _ Hwf).
    apply well_formed_snoc in Hwf as [Hwf _].
    rewrite (in_progress_outstanding _ _ Hwf), started_snoc, completed_snoc.
    simpl; lia.
  - intros Hwf Heq. rewrite (in_progress_outstanding _ _ Hwf). lia.
Qed.

End MetricsSequences.

(** C5, witness: two runs started, one ended in success and one in failure. *)
Lemma in_progress_tracks_runs_witness :
  Metrics.in_progress
    (Metrics.counters
       (Metrics.calls
          [Metrics.StartIntegration None 1; Metrics.StartIntegration None 2;
           Metrics.RecordSuccess 10;
           Metrics.RecordFailure 20 (new_Error "failed")]
          (Metrics.constructor Metrics.empty_heap))) = 0.
Proof.
  apply (in_progress_tracks_runs Metrics.empty_heap
           [Metrics.StartIntegration None 1; Metrics.StartIntegration None 2;
            Metrics.RecordSuccess 10;
            Metrics.RecordFailure 20 (new_Error "failed")]).
  - intros [|[|[|[|n]]]]; simpl take; rewrite ?take_nil; vm_compute;
      discriminate.
  - reflexivity.
Defined.

(** ** Snapshots of the metrics *)

Section Snapshots.
Import Metrics.

Lemma getMetrics_shares uptime mc :
  s_integrations (getMetrics uptime mc) = integrations (metrics mc) /\
  s_performance (getMetrics uptime mc) = performance (metrics mc) /\
  s_errors (getMetrics uptime mc) = errors (metrics mc) /\
  s_api_calls (getMetrics uptime mc) = api_calls (metrics mc) /\
  s_resources (getMetrics uptime mc) = resources (metrics mc).
Proof. done. Qed.

(** C9, as the code has it.  [getMetrics] returns a new top-level object
    that holds the collector's own nested objects: the five references of the
    snapshot are those of the collector; after any later calls on the
    collector, the counters read through the snapshot are the collector's
    current counters; and a counter written through the snapshot is written
    in the collector. *)
Theorem getMetrics_is_shallow (uptime : Z) (mc : MetricsCollector) :
  let s := getMetrics uptime mc in
  (s_integrations s = integrations (metrics mc) /\
   s_performance s = performance (metrics mc) /\
   s_errors s = errors (metrics mc) /\
   s_api_calls s = api_calls (metrics mc) /\
   s_resources s = resources (metrics mc)) /\
  (forall cs, snapshot_counters s (calls cs mc) = counters (calls cs mc)) /\
  (forall v,
     counters (snapshot_set_total s v mc) =
     mkIntegrations v (success (counters mc)) (failed (counters mc))
                    (in_progress (counters mc))).
Proof.
  simpl. split; [|split].
  - apply (getMetrics_shares uptime).
  - intros cs. unfold snapshot_counters, counters.
    by rewrite metrics_calls.
  - intros v. unfold counters, snapshot_set_total, get_integrations; simpl.
    by rewrite lookup_insert_eq.
Qed.

(** C9, counterexample.  On a new collector, writing [total] through the
    snapshot changes the collector's counters, and a [recordSuccess] on the
    collector changes what the snapshot shows. *)
Lemma getMetrics_not_a_copy :
  let mc := constructor empty_heap in
  let s := getMetrics 0 mc in
  counters (snapshot_set_total s 99 mc) <> counters mc /\
  snapshot_counters s (recordSuccess 5 mc) <> snapshot_counters s mc.
Proof. split; vm_compute; discriminate. Qed.

End Snapshots.

(** ** The tool registry *)

Section Registry.

Lemma map_get_set_eq {V} k (v : V) m : map_get k (map_set k v m) = Some v.
Proof.
  induction m as [|[k' v'] m IH]; simpl.
  - by rewrite String.eqb_refl.
  - destruct (String.eqb k' k) eqn:Hk; simpl.
    + by rewrite String.eqb_refl.
    + by rewrite Hk.
Qed.

Lemma map_get_set_ne {V} k k0 (v : V) m :
  k0 <> k -> map_get k0 (map_set k v m) = map_get k0 m.
Proof.
  intros Hne. induction m as [|[k' v'] m IH]; simpl.
  - destruct (String.eqb_spec k k0); [congruence | done].
  - destruct (String.eqb_spec k' k) as [->|Hk]; simpl.
    + destruct (String.eqb_spec k k0); [congruence | done].
    + by rewrite IH.
Qed.

Lemma map_set_keys {V} k (v v0 : V) m :
  map_get k m = Some v0 -> map fst (map_set k v m) = map fst m.
Proof.
  induction m as [|[k' v'] m IH]; simpl; [done|].
  destruct (String.eqb_spec k' k) as [->|Hk]; simpl; [done|].
  intros H. by rewrite IH.
Qed.

(** C3, as the code has it.  [registerTool] puts the descriptor under its
    name whether or not the name is taken: the new descriptor is the one
    retrieved afterwards, every other name keeps its descriptor, and a
    name that was taken keeps its place in the registration order. *)
Theorem registerTool_replaces (tool : Tool) (o : OrchestratorState) :
  Orchestrator.getTool (tool_name tool) (Orchestrator.registerTool tool o) = Some tool /\
  (forall name, name <> tool_name tool ->
     Orchestrator.getTool name (Orchestrator.registerTool tool o) =
     Orchestrator.getTool name o) /\
  (forall original, Orchestrator.getTool (tool_name tool) o = Some original ->
     map fst (tools (Orchestrator.registerTool tool o)) = map fst (tools o)).
Proof.
  unfold Orchestrator.getTool, Orchestrator.registerTool; simpl.
  split; [|split].
  - apply map_get_set_eq.
  - intros name Hne. by apply map_get_set_ne.
  - intros original. apply map_set_keys.
Qed.

(** C3, witness of the theorem on the default registry. *)
Lemma registerTool_replaces_witness :
  Orchestrator.getTool "deploy_via_gitops"
    (Orchestrator.registerTool (mkTool "parse_openapi_spec" "other" JNull)
       Orchestrator.constructor) =
  Orchestrator.getTool "deploy_via_gitops" Orchestrator.constructor.
Proof.
  apply (registerTool_replaces (mkTool "parse_openapi_spec" "other" JNull)
           Orchestrator.constructor).
  discriminate.
Defined.

(** C3, counterexample.  Registering a second descriptor under the name
    of a default tool does not fail, and the original descriptor is no
    longer the one retrieved. *)
Lemma registerTool_duplicate_overwrites :
  let second := mkTool "parse_openapi_spec" "other" JNull in
  let o := Orchestrator.registerTool second Orchestrator.constructor in
  Orchestrator.getTool "parse_openapi_spec" Orchestrator.constructor =
    Some Orchestrator.parse_openapi_spec /\
  Orchestrator.getTool "parse_openapi_spec" o = Some second /\
  Orchestrator.getTool "parse_openapi_spec" o <>
    Some Orchestrator.parse_openapi_spec.
Proof. repeat split; vm_compute; discriminate. Qed.

End Registry.

(** ** The generated workflow *)

Section WorkflowSteps.
Context `{E : Env}.

Lemma map_get_key {V} k (m : list (string * V)) :
  In k (map fst m) -> exists v, map_get k m = Some v.
Proof.
  induction m as [|[k' v'] m IH]; simpl; [done|].
  intros [->|Hin].
  - rewrite String.eqb_refl. eauto.
  - destruct (String.eqb k' k); eauto.
Qed.

Lemma map_get_nodup {V} k (v : V) (m : list (string * V)) :
  NoDup (map fst m) -> In (k, v) m -> map_get k m = Some v.
Proof.
  induction m as [|[k' v'] m IH]; simpl; [done|].
  intros Hnd [Heq|Hin].
  - injection Heq as -> ->. by rewrite String.eqb_refl.
  - apply NoDup_cons in Hnd as [Hnotin Hnd].
    destruct (String.eqb_spec k' k) as [->|Hk].
    + exfalso. apply Hnotin. apply list_elem_of_In.
      change k with (fst (k, v)). by apply in_map.
    + by apply IH.
Qed.

(** The outer loop succeeds on keys of [paths], and pushes exactly the
    steps of these keys. *)
Lemma endpoints_steps_keys paths endpoints :
  (forall endpoint, In endpoint endpoints -> In endpoint (map fst paths)) ->
  exists handled,
    Agent.endpoints_steps paths endpoints = inr handled /\
    forall st, In st handled <->
      exists endpoint item method,
        In endpoint endpoints /\ map_get endpoint paths = Some item /\
        In method (map fst item) /\ st = Agent.method_step endpoint item method.
Proof.
  induction endpoints as [|endpoint rest IH]; intros Hkeys; simpl.
  - exists []. split; [done|]. intros st; split; [done|].
    intros (? & ? & ? & [] & _).
  - destruct (map_get_key endpoint paths) as [item Hitem];
      [apply Hkeys; by left|].
    destruct IH as (there & Hthere & Hin); [intros; apply Hkeys; by right|].
    unfold Agent.endpoint_steps. rewrite Hitem, Hthere.
    eexists; split; [done|].
    intros st. rewrite in_app_iff, Hin, in_map_iff. split.
    + intros [(method & <- & Hm)|(e & i & m & He & Hi & Hm & ->)].
      * exists endpoint, item, method. auto.
      * exists e, i, m. auto.
    + intros (e & i & m & [Heq|He] & Hi & Hm & ->).
      * subst e. rewrite Hitem in Hi. injection Hi as <-. left. by exists m.
      * right. exists e, i, m. auto.
Qed.

Lemma proxy_path_method_step endpoint item method :
  proxy_path (Agent.method_step endpoint item method) = Some endpoint.
Proof. done. Qed.

Lemma in_take {A} (x : A) n l : In x (take n l) -> In x l.
Proof.
  intros H. apply list_elem_of_In. apply list_elem_of_In in H.
  by apply (subseteq_take n l).
Qed.

(** C10.  The workflow generated for a specification ends with the
    monitoring step, named [monitor-integration], with the action [monitor]
    and its three settings.  Every step with the action [api-proxy] handles
    one of the first 10 keys of [paths]; each method of each of these keys
    has its step, with the action [api-proxy], the method in upper case, the
    key as path and the operation of the method; a key that is not among
    the first 10 has no step. *)
Theorem workflow_handles_first_ten (spec : OpenAPI.Spec) :
  exists w monitor,
    Agent.generateAgentWorkflow (Some spec) = inr w /\
    last (Workflow.steps w) = Some monitor /\
    Workflow.name monitor = "monitor-integration" /\
    Workflow.action monitor = "monitor" /\
    Workflow.config monitor = Workflow.MonitorConfig "30s" "/metrics" "info" /\
    (forall st, In st (Workflow.steps w) -> Workflow.action st = "api-proxy" ->
       exists paths path method operation,
         OpenAPI.paths spec = Some paths /\
         In path (take 10 (map fst paths)) /\
         Workflow.config st = Workflow.ProxyConfig method path operation) /\
    (forall st path, In st (Workflow.steps w) -> proxy_path st = Some path ->
       Workflow.action st = "api-proxy" /\
       exists paths, OpenAPI.paths spec = Some paths /\
                     In path (take 10 (map fst paths))) /\
    (forall paths endpoint item method,
       OpenAPI.paths spec = Some paths ->
       In endpoint (take 10 (map fst paths)) ->
       map_get endpoint paths = Some item ->
       In method (map fst item) ->
       exists st,
         In st (Workflow.steps w) /\
         Workflow.name st =
           "handle-" +:+ method +:+ "-" +:+ replace_non_alnum endpoint /\
         Workflow.action st = "api-proxy" /\
         Workflow.config st =
           Workflow.ProxyConfig (toUpperCase method) endpoint (map_get method item)) /\
    (forall paths endpoint st,
       OpenAPI.paths spec = Some paths ->
       ~ In endpoint (take 10 (map fst paths)) ->
       In st (Workflow.steps w) -> proxy_path st <> Some endpoint).
Proof.
  unfold Agent.generateAgentWorkflow.
  destruct (OpenAPI.paths spec) as [paths|] eqn:Hpaths.
  - destruct (endpoints_steps_keys paths (take 10 (map fst paths)))
      as (handled & -> & Hin); [intros endpoint; apply in_take|].
    eexists; exists Agent.monitor_step; split; [done|]. simpl.
    assert (Hsteps : forall st,
               In st (Agent.initialize_step spec (map fst paths) :: handled ++
                      [Agent.monitor_step]) ->
               st = Agent.initialize_step spec (map fst paths) \/
               st = Agent.monitor_step \/
               exists endpoint item method,
                 In endpoint (take 10 (map fst paths)) /\
                 st = Agent.method_step endpoint item method).
    { intros st [<-|Hst]; [by left|].
      apply in_app_iff in Hst as [Hst|[<-|[]]]; [|by right; left].
      apply Hin in Hst as (e & i & m & He & _ & _ & ->). right; right. eauto. }
    split; [by rewrite app_comm_cons, last_snoc|].
    do 3 (split; [done|]).
    split; [|split; [|split]].
    + intros st Hst Haction.
      destruct (Hsteps st Hst) as [->|[->|(e & i & m & He & ->)]]; [done|done|].
      exists paths, e, (toUpperCase m), (map_get m i). by repeat split.
    + intros st path Hst Hp.
      destruct (Hsteps st Hst) as [->|[->|(e & i & m & He & ->)]]; [done|done|].
      rewrite proxy_path_method_step in Hp. injection Hp as <-.
      split; [done|]. by exists paths.
    + intros paths' endpoint item method [= <-] He Hi Hm.
      exists (Agent.method_step endpoint item method). split; [|done].
      right. apply in_app_iff. left. apply Hin. eauto 10.
    + intros paths' endpoint st [= <-] Hnot Hst Hp. apply Hnot.
      destruct (Hsteps st Hst) as [->|[->|(e & i & m & He & ->)]]; [done|done|].
      rewrite proxy_path_method_step in Hp. by injection Hp as <-.
  - eexists; exists Agent.monitor_step; split; [done|]. simpl.
    do 4 (split; [done|]).
    split; [|split; [|split]].
    + intros st [<-|[]] Haction. done.
    + intros st path [<-|[]] Hp. done.
    + intros ? ? ? ? [=].
    + intros ? ? ? [=].
Qed.

End WorkflowSteps.

(** C10, witness: in the billing specification the step of [get] on
    [/invoices] is generated. *)
Lemma workflow_handles_first_ten_witness :
  exists w st,
    Agent.generateAgentWorkflow (E := guided) (Some billing_spec) = inr w /\
    In st (Workflow.steps w) /\
    Workflow.name st = "handle-get-/invoices" /\
    Workflow.action st = "api-proxy" /\
    Workflow.config st = Workflow.ProxyConfig "get" "/invoices" (Some (JObj [])).
Proof.
  destruct (workflow_handles_first_ten (E := guided) billing_spec)
    as (w & monitor & Hw & _ & _ & _ & _ & _ & _ & Hall & _).
  destruct (Hall _ "/invoices" [("get", JObj []); ("post", JObj [])] "get" eq_refl)
    as (st & Hst & Hname & Haction & Hconfig).
  - simpl. auto.
  - reflexivity.
  - simpl. auto.
  - exists w, st. by repeat split.
Defined.

(** ** Frame reasoning for the methods *)

Section Frames.
Context `{E : Env}.

Context {X : Type} (f : State -> X).

Lemma preserves_ret {A} (a : A) : preserves f (ret a).
Proof. done. Qed.

Lemma preserves_throw {A} e : preserves f (throw (A := A) e).
Proof. done. Qed.

Lemma preserves_call_pure {A} (r : Error + A) : preserves f (call_pure r).
Proof. done. Qed.

Lemma preserves_now : preserves f now.
Proof. done. Qed.

Lemma preserves_get_orchestrator : preserves f get_orchestrator.
Proof. done. Qed.

Lemma preserves_get_agent : preserves f get_agent.
Proof. done. Qed.

Lemma preserves_bind {A B} (c : M A) (k : A -> M B) :
  preserves f c -> (forall a, preserves f (k a)) -> preserves f (bind c k).
Proof.
  intros Hc Hk s. unfold bind. specialize (Hc s).
  destruct (c s) as [s' [e|a]]; simpl in *; [done|].
  by rewrite Hk.
Qed.

Lemma preserves_try_catch {A} (c : M A) (h : Error -> M A) :
  preserves f c -> (forall e, preserves f (h e)) -> preserves f (try_catch c h).
Proof.
  intros Hc Hh s. unfold try_catch. specialize (Hc s).
  destruct (c s) as [s' [e|a]]; simpl in *; [|done].
  by rewrite Hh.
Qed.

Lemma preserves_call_world {A} (g : World -> (Error + A) * World) :
  ignores_world f -> preserves f (call_world g).
Proof.
  intros Hf [l w mc o a]. unfold call_world; simpl.
  destruct (g w) as [r w']; simpl. apply Hf.
Qed.

Lemma preserves_call_llm {A} (g : LLM -> (Error + A) * LLM) :
  ignores_llm f -> preserves f (call_llm g).
Proof.
  intros Hf [l w mc o a]. unfold call_llm; simpl.
  destruct (g l) as [r l']; simpl. apply Hf.
Qed.

Lemma preserves_modify_orchestrator g :
  ignores_orchestrator f -> preserves f (modify_orchestrator g).
Proof. intros Hf [l w mc o a]. apply Hf. Qed.

Lemma preserves_modify_agent g :
  ignores_agent f -> preserves f (modify_agent g).
Proof. intros Hf [l w mc o a]. apply Hf. Qed.

Lemma preserves_modify_metrics g :
  ignores_metrics f -> preserves f (modify_metrics g).
Proof. intros Hf [l w mc o a]. apply Hf. Qed.

Lemma preserves_for_each {A} (g : A -> M unit) l :
  (forall x, preserves f (g x)) -> preserves f (for_each g l).
Proof.
  intros Hg. induction l as [|x l IH]; simpl.
  - apply preserves_ret.
  - apply preserves_bind; auto.
Qed.

Lemma preserves_for_collect {A B} (g : A -> M (list B)) l :
  (forall x, preserves f (g x)) -> preserves f (for_collect g l).
Proof.
  intros Hg. induction l as [|x l IH]; simpl.
  - apply preserves_ret.
  - apply preserves_bind; [auto|]. intros ys.
    apply preserves_bind; [auto|]. intros zs. apply preserves_ret.
Qed.

End Frames.

Create HintDb frame.

(** One step of a frame proof: split a sequence, a [try], a loop or a case
    analysis, or close a primitive. *)
Ltac frame_step :=
  match goal with
  | |- preserves _ (bind _ _) => apply preserves_bind; [|intros ?]
  | |- preserves _ (try_catch _ _) => apply preserves_try_catch; [|intros ?]
  | |- preserves _ (for_each _ _) => apply preserves_for_each; intros ?
  | |- preserves _ (for_collect _ _) => apply preserves_for_collect; intros ?
  | |- preserves _ (ret _) => apply preserves_ret
  | |- preserves _ (throw _) => apply preserves_throw
  | |- preserves _ (call_pure _) => apply preserves_call_pure
  | |- preserves _ now => apply preserves_now
  | |- preserves _ get_orchestrator => apply preserves_get_orchestrator
  | |- preserves _ get_agent => apply preserves_get_agent
  | |- preserves _ (call_world _) => apply preserves_call_world; assumption
  | |- preserves _ (call_llm _) => apply preserves_call_llm; assumption
  | |- preserves _ (modify_orchestrator _) =>
      apply preserves_modify_orchestrator; assumption
  | |- preserves _ (modify_agent _) => apply preserves_modify_agent; assumption
  | |- preserves _ (modify_metrics _) => apply preserves_modify_metrics; assumption
  | |- preserves _ (match ?x with _ => _ end) => destruct x
  | |- preserves _ _ => solve [eauto with frame]
  end.

Ltac frame := repeat frame_step.

Section MethodFrames.
Context `{E : Env} {X : Type} (f : State -> X).

Lemma preserves_generateKubernetesManifests options :
  ignores_world f -> ignores_agent f ->
  preserves f (Agent.generateKubernetesManifests options).
Proof. intros Hw Ha. unfold Agent.generateKubernetesManifests. frame. Qed.

Lemma preserves_validateManifests arg :
  ignores_world f -> preserves f (Agent.validateManifests arg).
Proof.
  intros Hw.
  unfold Agent.validateManifests, Agent.check, Agent.executeCommand. frame.
Qed.

#[local] Hint Resolve preserves_generateKubernetesManifests preserves_validateManifests
  : frame.

Lemma preserves_executeTool call context :
  ignores_world f -> ignores_agent f ->
  preserves f (Orchestrator.executeTool call context).
Proof.
  intros Hw Ha.
  unfold Orchestrator.executeTool, Orchestrator.dispatch,
    Orchestrator.executeOpenAPIParser, Orchestrator.executePydanticGenerator,
    Orchestrator.executeManifestGenerator, Orchestrator.executeGitOpsDeployment,
    Orchestrator.executeComplexityAnalyzer.
  frame.
Qed.

#[local] Hint Resolve preserves_executeTool : frame.

Lemma preserves_processResponse response context :
  ignores_world f -> ignores_agent f ->
  preserves f (Orchestrator.processResponse response context).
Proof. intros Hw Ha. unfold Orchestrator.processResponse. frame. Qed.

#[local] Hint Resolve preserves_processResponse : frame.

Lemma preserves_orchestrate userInput context :
  ignores_llm f -> ignores_world f -> ignores_agent f -> ignores_orchestrator f ->
  preserves f (Orchestrator.orchestrate userInput context).
Proof. intros Hl Hw Ha Ho. unfold Orchestrator.orchestrate. frame. Qed.

#[local] Hint Resolve preserves_orchestrate : frame.

Lemma preserves_planIntegration request context :
  ignores_llm f -> ignores_world f -> ignores_agent f -> ignores_orchestrator f ->
  preserves f (Orchestrator.planIntegration request context).
Proof. intros Hl Hw Ha Ho. unfold Orchestrator.planIntegration. frame. Qed.

#[local] Hint Resolve preserves_planIntegration : frame.

Lemma preserves_deploy options generated :
  ignores_llm f -> ignores_world f -> ignores_agent f -> ignores_orchestrator f ->
  preserves f (Coordinator.deploy options generated).
Proof. intros Hl Hw Ha Ho. unfold Coordinator.deploy. frame. Qed.

#[local] Hint Resolve preserves_deploy : frame.

Lemma preserves_stages options startTime :
  ignores_llm f -> ignores_world f -> ignores_agent f -> ignores_orchestrator f ->
  preserves f (Coordinator.stages options startTime).
Proof. intros Hl Hw Ha Ho. unfold Coordinator.stages. frame. Qed.

End MethodFrames.

(** ** The conversation history *)

Section History.
Context `{E : Env}.

Lemma slice_last_length {A} n (l : list A) : (length (slice_last n l) <= n)%nat.
Proof. unfold slice_last. rewrite length_drop. lia. Qed.

Lemma slice_last_short {A} n (l : list A) :
  (length l <= n)%nat -> slice_last n l = l.
Proof.
  intros H. unfold slice_last.
  by replace (length l - n)%nat with 0%nat by lia.
Qed.

Lemma slice_last_app {A} n (l l' : list A) :
  slice_last n (slice_last n l ++ l') = slice_last n (l ++ l').
Proof.
  unfold slice_last.
  rewrite <- (drop_app_le l l') by lia.
  rewrite drop_drop. f_equal.
  rewrite length_drop, !length_app. lia.
Qed.

Lemma addToHistory_history userInput result o :
  conversationHistory (Orchestrator.addToHistory userInput result o) =
  slice_last 20
    (conversationHistory o ++
     [mkChatMessage "user" userInput;
      mkChatMessage "assistant" (Orchestrator.formatResultForHistory result)]).
Proof.
  unfold Orchestrator.addToHistory; simpl.
  destruct (Nat.ltb_spec 20
    (length (conversationHistory o ++
       [mkChatMessage "user" userInput;
        mkChatMessage "assistant" (Orchestrator.formatResultForHistory result)])));
    [done|].
  by rewrite slice_last_short.
Qed.

(** What a call of [orchestrate] does to the orchestrator: the exchange is
    pushed when a result is returned, nothing changes when it throws. *)
Lemma orchestrate_orchestrator userInput context s :
  orchestrator (fst (Orchestrator.orchestrate userInput context s)) =
  match snd (Orchestrator.orchestrate userInput context s) with
  | inr result => Orchestrator.addToHistory userInput result (orchestrator s)
  | inl _ => orchestrator s
  end.
Proof.
  unfold Orchestrator.orchestrate, try_catch, bind, get_orchestrator, throw.
  destruct s as [l w mc o a]; simpl.
  unfold call_llm; simpl.
  destruct (chat_completions_create _ l) as [[e|response] l']; simpl; [done|].
  pose proof (preserves_processResponse orchestrator response context
                ltac:(done) ltac:(done) (mkState l' w mc o a)) as Hp.
  destruct (Orchestrator.processResponse response context _) as [s2 [e|result]];
    simpl in *; [done|].
  by rewrite Hp.
Qed.

(** After any sequence of [orchestrate] calls, the history is the last 20 of
    the earlier history followed by everything pushed since. *)
Lemma history_window (inputs : list (string * Context)) (s : State) :
  (length (history s) <= 20)%nat ->
  (length (history (orchestrate_all inputs s)) <= 20)%nat /\
  history (orchestrate_all inputs s) =
    slice_last 20 (history s ++ transcript inputs s).
Proof.
  revert s. induction inputs as [|[userInput context] rest IH]; intros s Hs.
  - simpl. rewrite app_nil_r. split; [done|]. by rewrite slice_last_short.
  - unfold orchestrate_all in *. simpl.
    pose proof (orchestrate_orchestrator userInput context s) as Ho.
    destruct (Orchestrator.orchestrate userInput context s) as [s1 [e|result]];
      simpl in *.
    + destruct (IH s1) as [Hlen Heq]; [unfold history; by rewrite Ho|].
      split; [done|]. rewrite Heq. unfold history. by rewrite Ho.
    + assert (Hs1 : history s1 =
                slice_last 20
                  (history s ++
                   [mkChatMessage "user" userInput;
                    mkChatMessage "assistant"
                      (Orchestrator.formatResultForHistory result)])).
      { unfold history. rewrite Ho. apply addToHistory_history. }
      destruct (IH s1) as [Hlen Heq];
        [rewrite Hs1; apply slice_last_length|].
      split; [done|].
      rewrite Heq, Hs1, slice_last_app. by rewrite <- app_assoc.
Qed.

(** C6.  After any sequence of [orchestrate] calls on a newly constructed
    module, the conversation history has at most 20 entries: the last 20 of
    everything pushed, so that the oldest entries are the ones dropped.  The
    same holds from any state whose history has at most 20 entries (as
    [clearHistory] leaves it): the history is then the last 20 of the earlier
    history followed by everything pushed since. *)
Theorem history_keeps_last_twenty (inputs : list (string * Context)) :
  (forall l w,
     (length (history (orchestrate_all inputs (initial l w))) <= 20)%nat /\
     history (orchestrate_all inputs (initial l w)) =
       slice_last 20 (transcript inputs (initial l w))) /\
  (forall s,
     (length (history s) <= 20)%nat ->
     (length (history (orchestrate_all inputs s)) <= 20)%nat /\
     history (orchestrate_all inputs s) =
       slice_last 20 (history s ++ transcript inputs s)).
Proof.
  split.
  - intros l w. apply (history_window inputs (initial l w)). simpl. lia.
  - apply history_window.
Qed.

End History.

(** C6, witness: eleven requests answered with guidance push 22 entries, of
    which the last 20 are kept. *)
Lemma history_keeps_last_twenty_witness :
  let inputs := replicate 11 ("plan", Coordinator.orchestrationContext) in
  let s := initial (E := guided) 0%nat 0 in
  (length (history (orchestrate_all inputs s)) <= 20)%nat /\
  history (orchestrate_all inputs s) =
    slice_last 20 (history s ++ transcript inputs s).
Proof.
  apply (proj2 (history_keeps_last_twenty (E := guided)
                  (replicate 11 ("plan", Coordinator.orchestrationContext)))).
  simpl. lia.
Defined.

(** ** Manifest validation *)

Section Validation.
Context `{E : Env}.

Lemma returns_ret {A} (a : A) (P : A -> Prop) : P a -> returns (ret a) P.
Proof. intros H s. by exists a. Qed.

Lemma returns_bind {A B} (c : M A) (k : A -> M B) P Q :
  returns c P -> (forall a, P a -> returns (k a) Q) -> returns (bind c k) Q.
Proof.
  intros Hc Hk s. unfold bind.
  destruct (Hc s) as (a & Ha & HP).
  destruct (c s) as [s' r]; simpl in Ha; subst r.
  by apply Hk.
Qed.

Lemma returns_try_catch {A} (c : M A) h (P : A -> Prop) :
  returns c P -> returns (try_catch c h) P.
Proof.
  intros Hc s. unfold try_catch.
  destruct (Hc s) as (a & Ha & HP).
  destruct (c s) as [s' r]; simpl in Ha; subst r. by exists a.
Qed.

Lemma returns_now : returns now (fun _ => True).
Proof. intros s. by eexists. Qed.

Lemma returns_call_world {A} (g : World -> (Error + A) * World) :
  (forall w, exists a, fst (g w) = inr a) ->
  returns (call_world g) (fun _ => True).
Proof.
  intros Hg s. unfold call_world.
  destruct (Hg (world s)) as [a Ha].
  destruct (g (world s)) as [r w']; simpl in *; subst r. by exists a.
Qed.

Lemma returns_call_pure {A} (a : A) : returns (call_pure (inr a)) (fun _ => True).
Proof. intros s. by exists a. Qed.

Lemma returns_for_collect {A B} (g : A -> M (list B)) l :
  (forall x, returns (g x) (fun _ => True)) ->
  returns (for_collect g l) (fun _ => True).
Proof.
  intros Hg. induction l as [|x l IH]; simpl.
  - by apply returns_ret.
  - eapply returns_bind; [apply Hg|]. intros ys _.
    eapply returns_bind; [apply IH|]. intros zs _. by apply returns_ret.
Qed.

(** A check never throws: a failing command is recorded in its result. *)
Lemma returns_check commands : returns (Agent.check commands) check_filled.
Proof.
  intros s. unfold Agent.check, try_catch, bind, ret.
  destruct (commands s) as [s' [e|[]]]; simpl; eexists; split; try done.
  - right. eauto.
  - by left.
Qed.

(** Only [null] has no entries to validate. *)
Lemma manifest_entries_returns arg :
  arg <> Raw JNull -> exists entries, Agent.manifest_entries arg = inr entries.
Proof.
  intros Hnull. destruct arg as [r|j]; simpl; [eauto|].
  destruct j as [|b|z|str|l|l]; simpl; eauto; [done|].
  destruct (map_get "manifests" l) as [m|]; [|eauto].
  destruct (js_truthy m) eqn:Hm; [|eauto].
  destruct m; simpl in *; eauto; done.
Qed.

(** An error of [fs.mkdir] comes out of [validateManifests]. *)
Lemma validateManifests_rethrows arg s e :
  fst (fs_mkdir (validation_dir s) (world s)) = inl e ->
  snd (Agent.validateManifests arg s) = inl e.
Proof.
  intros Hmkdir.
  unfold Agent.validateManifests, try_catch, bind, now, call_world, throw,
    validation_dir in *.
  simpl.
  destruct (fs_mkdir _ (world s)) as [r w']; simpl in *. by subst r.
Qed.

Lemma check_filled_verdict failure : check_filled (verdict failure).
Proof. destruct failure as [e|]; [right|left]; simpl; eauto. Qed.

(** The files are written one after the other. *)
Lemma write_files tempDir entries s :
  (forall path data w, fst (fs_writeFile path data w) = inr tt) ->
  for_collect
    (fun entry =>
       call_world (fs_writeFile (path_join tempDir (fst entry +:+ ".yaml"))
                     (JSON_stringify (snd entry))) ;;;
       ret [path_join tempDir (fst entry +:+ ".yaml")])
    entries s =
  (with_world s
     (fold_left
        (fun w entry =>
           snd (fs_writeFile (manifest_file tempDir entry)
                  (JSON_stringify (snd entry)) w))
        entries (world s)),
   inr (map (manifest_file tempDir) entries)).
Proof.
  intros Hwrite. revert s. induction entries as [|entry rest IH]; intros s.
  - by destruct s.
  - simpl. unfold bind at 1 2. unfold call_world.
    specialize (Hwrite (path_join tempDir (fst entry +:+ ".yaml"))
                  (JSON_stringify (snd entry)) (world s)).
    unfold manifest_file at 1.
    destruct (fs_writeFile _ _ (world s)) as [r w]. simpl in Hwrite. subst r.
    simpl. unfold bind at 1. rewrite IH. by simpl.
Qed.

(** A check of one command gives the verdict on what the command answers. *)
Lemma check_command command args s :
  Agent.check (Agent.executeCommand command args ;;; ret tt) s =
  (with_world s (snd (run_commands [(command, args)] (world s))),
   inr (verdict (fst (run_commands [(command, args)] (world s))))).
Proof.
  unfold Agent.check, Agent.executeCommand, try_catch, bind, call_world, ret.
  simpl. by destruct (spawn command args (world s)) as [[e|out] w].
Qed.

Lemma for_each_commands (command : string -> string * list string) files s :
  for_each
    (fun file => Agent.executeCommand (fst (command file)) (snd (command file)) ;;;
                 ret tt)
    files s =
  (with_world s (snd (run_commands (map command files) (world s))),
   match fst (run_commands (map command files) (world s)) with
   | None => inr tt
   | Some e => inl e
   end).
Proof.
  revert s. induction files as [|file rest IH]; intros s; [by destruct s|].
  simpl. unfold bind at 1 2. unfold Agent.executeCommand, call_world, ret.
  destruct (command file) as [name args]. simpl.
  destruct (spawn name args (world s)) as [[e|out] w]; simpl; [done|].
  by rewrite IH.
Qed.

(** The last check runs [kubectl] on the files in order and stops at the
    first that fails. *)
Lemma check_files files s :
  Agent.check
    (for_each
       (fun file =>
          Agent.executeCommand "kubectl" ["apply"; "-f"; file; "--dry-run=client"] ;;;
          ret tt)
       files) s =
  let answer :=
    run_commands
      (map (fun file => ("kubectl", ["apply"; "-f"; file; "--dry-run=client"])) files)
      (world s) in
  (with_world s (snd answer), inr (verdict (fst answer))).
Proof.
  cbv zeta. unfold Agent.check, try_catch. unfold bind at 1.
  rewrite (for_each_commands
             (fun file => ("kubectl", ["apply"; "-f"; file; "--dry-run=client"]))).
  by destruct (fst (run_commands _ (world s))).
Qed.

(** What [validateManifests] does when the file operations succeed. *)
Lemma validateManifests_run arg entries s :
  fs_succeeds -> Agent.manifest_entries arg = inr entries ->
  Agent.validateManifests arg s =
  let tempDir := validation_dir s in
  let lint :=
    run_commands [("kubeconform", ["-strict"; "-summary"; tempDir])]
      (staged entries tempDir (world s)) in
  let policy := run_commands [("conftest", ["test"; tempDir])] (snd lint) in
  let dry :=
    run_commands
      (map (fun file => ("kubectl", ["apply"; "-f"; file; "--dry-run=client"]))
           (map (manifest_file tempDir) entries))
      (snd policy) in
  (with_world s (snd (fs_rm tempDir (snd dry))),
   inr (mkValidation (verdict (fst lint)) (verdict (fst policy)) (verdict (fst dry)))).
Proof.
  intros (Hmkdir & Hwrite & Hrm) Hentries. cbv zeta.
  unfold Agent.validateManifests, validation_dir, staged.
  rewrite Hentries.
  set (tempDir := path_join "/tmp" ("autoweave-validation-" +:+
                                   pretty (Date_now (world s)))).
  unfold try_catch. unfold bind at 1, now at 1. fold tempDir.
  unfold bind at 1, call_world at 1.
  specialize (Hmkdir tempDir (world s)).
  destruct (fs_mkdir tempDir (world s)) as [r w1]. simpl in Hmkdir. subst r.
  cbv beta iota. unfold bind at 1, call_pure at 1. cbv beta iota.
  unfold bind at 1. rewrite (write_files tempDir entries _ Hwrite). cbv beta iota.
  unfold bind at 1. rewrite check_command. cbv beta iota.
  unfold bind at 1. rewrite check_command. cbv beta iota.
  unfold bind at 1. rewrite check_files. cbv beta iota zeta.
  unfold bind at 1, call_world at 1. simpl.
  match goal with
  | |- context [fs_rm tempDir ?w] =>
      specialize (Hrm tempDir w); destruct (fs_rm tempDir w) as [r w5]
  end.
  simpl in Hrm. by subst r.
Qed.

(** C8, as the code has it.  When the directory and file operations
    succeed, [validateManifests] returns a result for every manifest set,
    whatever the validation commands do.  The result of each check is the
    verdict on what its commands have answered: [kubeconform] and [conftest]
    are run once each on the directory, and [kubectl] on the files in order
    up to the first that fails; a check has passed, with no error, when its
    commands have succeeded, and has not passed, with the message of the
    failure as its one error, when a command has failed.  When the directory
    cannot be created, the error of [fs.mkdir] is thrown again. *)
Theorem validateManifests_returns (arg : ManifestsArg) (s : State) :
  (fs_succeeds -> arg <> Raw JNull ->
   exists entries v,
     Agent.manifest_entries arg = inr entries /\
     snd (Agent.validateManifests arg s) = inr v /\
     let tempDir := validation_dir s in
     let lint :=
       run_commands [("kubeconform", ["-strict"; "-summary"; tempDir])]
         (staged entries tempDir (world s)) in
     let policy := run_commands [("conftest", ["test"; tempDir])] (snd lint) in
     let dry :=
       run_commands
         (map (fun file => ("kubectl", ["apply"; "-f"; file; "--dry-run=client"]))
              (map (manifest_file tempDir) entries))
         (snd policy) in
     v = mkValidation (verdict (fst lint)) (verdict (fst policy)) (verdict (fst dry)) /\
     world (fst (Agent.validateManifests arg s)) = snd (fs_rm tempDir (snd dry)) /\
     check_filled (kubeconform v) /\ check_filled (conftest v) /\
     check_filled (kubectl v)) /\
  (forall e, fst (fs_mkdir (validation_dir s) (world s)) = inl e ->
             snd (Agent.validateManifests arg s) = inl e).
Proof.
  split; [|intros e; apply validateManifests_rethrows].
  intros Hfs Harg.
  destruct (manifest_entries_returns arg Harg) as [entries Hentries].
  exists entries. cbv zeta.
  rewrite (validateManifests_run arg entries s Hfs Hentries). simpl.
  eexists. split; [done|]. split; [reflexivity|].
  repeat split; apply check_filled_verdict.
Qed.
End Validation.

(** C8, witness: with [conftest] failing, a result is returned in which
    [conftest] has not passed, with the message of the command, and the two
    other checks have passed; with [fs.mkdir] failing, its error is
    thrown. *)
Lemma validateManifests_returns_witness :
  snd (Agent.validateManifests (Generated billing_manifests)
         (initial (E := guided) 0%nat 0)) =
  inr (mkValidation (mkCheck true [])
         (mkCheck false ["Command failed with code 1: "]) (mkCheck true [])) /\
  snd (Agent.validateManifests (Generated billing_manifests)
         (initial (E := read_only) 0%nat 0)) =
  inl (new_Error "EACCES: permission denied").
Proof.
  split.
  - destruct (proj1 (validateManifests_returns (E := guided)
                       (Generated billing_manifests)
                       (initial (E := guided) 0%nat 0)))
      as (entries & v & Hentries & Hv & Hverdicts & _).
    + repeat split.
    + discriminate.
    + injection Hentries as <-. rewrite Hv, Hverdicts. reflexivity.
  - apply (proj2 (validateManifests_returns (E := read_only)
                    (Generated billing_manifests)
                    (initial (E := read_only) 0%nat 0))).
    reflexivity.
Defined.

(** C8, counterexample: when [fs.mkdir] fails, [validateManifests] throws. *)
Lemma validateManifests_throws :
  snd (Agent.validateManifests (Generated billing_manifests)
         (initial (E := read_only) 0%nat 0)) =
  inl (new_Error "EACCES: permission denied").
Proof. reflexivity. Qed.

(** ** The failure path of a run *)

Section FailurePath.
Context `{E : Env}.
Import Metrics.

Lemma durations_startIntegration id t mc :
  durations (snd (startIntegration id t mc)) = durations mc.
Proof. done. Qed.

Lemma error_counts_startIntegration id t mc :
  error_counts (snd (startIntegration id t mc)) = error_counts mc.
Proof. done. Qed.

Lemma durations_recordFailure d e mc :
  total_duration (durations (recordFailure d e mc)) =
  total_duration (durations mc) + d.
Proof.
  unfold durations, recordFailure, updateDurationMetrics, get_performance; simpl.
  by rewrite lookup_insert_eq.
Qed.

Lemma error_counts_recordFailure d e mc :
  let errorType := or_str (Some (ctor_name e)) "UnknownError" in
  error_counts (recordFailure d e mc) !! errorType =
  Some (default 0 (error_counts mc !! errorType) + 1).
Proof.
  unfold error_counts, recordFailure, updateDurationMetrics, get_map; simpl.
  rewrite lookup_insert_eq; simpl. by rewrite lookup_insert_eq.
Qed.

(** [createIntegrationAgent] with [openapi_url] given, in terms of its
    stages: the run is started, and the outcome of the stages is recorded
    as a success or as a failure. *)
Lemma createIntegrationAgent_stages options s :
  truthy (openapi_url options) = true ->
  Coordinator.createIntegrationAgent options s =
  let t := Date_now (world s) in
  let started :=
    snd (startIntegration (Some ("integration-" +:+ pretty t)) t
           (metricsCollector s)) in
  match Coordinator.stages options t
          (mkState (llm s) (world s) started (orchestrator s) (integrationAgent s))
  with
  | (s2, inr result) =>
      (mkState (llm s2) (world s2)
         (recordSuccess (duration result) (metricsCollector s2))
         (orchestrator s2) (integrationAgent s2),
       inr result)
  | (s2, inl e) =>
      (mkState (llm s2) (world s2)
         (recordFailure (Date_now (world s2) - t) e (metricsCollector s2))
         (orchestrator s2) (integrationAgent s2),
       inl e)
  end.
Proof.
  intros Hurl.
  unfold Coordinator.createIntegrationAgent, try_catch, Coordinator.try_block,
    Coordinator.catch_block, Coordinator.startIntegration, bind, now,
    modify_metrics, throw, ret.
  rewrite Hurl. change (negb true) with false. cbv iota beta zeta.
  destruct (startIntegration _ (Date_now (world s)) (metricsCollector s))
    as [id mc1].
  simpl snd.
  by destruct (Coordinator.stages options (Date_now (world s)) _)
    as [s2 [e'|result]].
Qed.

(** What [createIntegrationAgent] leaves in the collector when the [try]
    block has been entered and an error comes out. *)
Lemma createIntegrationAgent_catches options s e :
  truthy (openapi_url options) = true ->
  snd (Coordinator.createIntegrationAgent options s) = inl e ->
  let s' := fst (Coordinator.createIntegrationAgent options s) in
  metricsCollector s' =
  recordFailure (Date_now (world s') - Date_now (world s)) e
    (snd (startIntegration
            (Some ("integration-" +:+ pretty (Date_now (world s))))
            (Date_now (world s)) (metricsCollector s))).
Proof.
  intros Hurl. rewrite (createIntegrationAgent_stages options s Hurl).
  cbv zeta.
  match goal with
  | |- context [Coordinator.stages options ?t ?s1] =>
      pose proof (preserves_stages metricsCollector options t
                    ltac:(done) ltac:(done) ltac:(done) ltac:(done) s1) as Hframe;
      destruct (Coordinator.stages options t s1) as [s2 [e'|result]]
  end; simpl in *.
  - intros [= ->]. by rewrite Hframe.
  - discriminate.
Qed.

(** C2, as the code has it.  A call without [openapi_url] throws before
    the run is started and leaves the state as it was: no failure is
    recorded.  In every other call, an error that comes out of the run has
    been recorded by one [recordFailure] on the collector left by
    [startIntegration]: [total] and [failed] are one higher, [success] is
    as before, the duration of the run is added to [total_duration] and
    the error's type is counted once more. *)
Theorem failure_recorded_after_start (options : Options) (s : State) :
  (truthy (openapi_url options) = false ->
   Coordinator.createIntegrationAgent options s =
   (s, inl (new_Error "Missing required parameter: openapi_url"))) /\
  (truthy (openapi_url options) = true ->
   forall e, snd (Coordinator.createIntegrationAgent options s) = inl e ->
     let s' := fst (Coordinator.createIntegrationAgent options s) in
     let before := counters (metricsCollector s) in
     let after := counters (metricsCollector s') in
     let elapsed := Date_now (world s') - Date_now (world s) in
     let errorType := or_str (Some (ctor_name e)) "UnknownError" in
     total after = total before + 1 /\
     failed after = failed before + 1 /\
     success after = success before /\
     in_progress after = Z.max 0 (in_progress before) /\
     total_duration (durations (metricsCollector s')) =
       total_duration (durations (metricsCollector s)) + elapsed /\
     error_counts (metricsCollector s') !! errorType =
       Some (default 0 (error_counts (metricsCollector s) !! errorType) + 1)).
Proof.
  split.
  - intros Hurl. unfold Coordinator.createIntegrationAgent, bind, now.
    by rewrite Hurl.
  - intros Hurl e He. cbv zeta.
    pose proof (createIntegrationAgent_catches options s e Hurl He) as Hmc.
    cbv zeta in Hmc. rewrite Hmc.
    rewrite counters_recordFailure, counters_startIntegration,
      durations_recordFailure, durations_startIntegration.
    pose proof (error_counts_recordFailure) as Herr. cbv zeta in Herr.
    rewrite Herr, error_counts_startIntegration.
    simpl. repeat split; try done. f_equal. lia.
Qed.

End FailurePath.

(** C2, witness: with the reasoning service unreachable the run fails inside
    the [try] block, and the failure is counted. *)
Lemma failure_recorded_after_start_witness :
  let s := initial (E := unguided) 0%nat 0 in
  let s' := fst (Coordinator.createIntegrationAgent (billing_options None) s) in
  Metrics.failed (Metrics.counters (metricsCollector s')) =
  Metrics.failed (Metrics.counters (metricsCollector s)) + 1.
Proof.
  apply (proj2 (failure_recorded_after_start (E := unguided) (billing_options None)
                  (initial (E := unguided) 0%nat 0)) eq_refl
               (mkError "APIConnectionError" "Connection error.") eq_refl).
Defined.

(** C2, counterexample: the error for a missing [openapi_url] reaches the
    caller and no failure has been recorded. *)
Lemma missing_url_is_not_recorded :
  let s := initial (E := guided) 0%nat 0 in
  let run := Coordinator.createIntegrationAgent (mkOptions None None None None) s in
  snd run = inl (new_Error "Missing required parameter: openapi_url") /\
  Metrics.counters (metricsCollector (fst run)) =
  Metrics.counters (metricsCollector s) /\
  Metrics.failed (Metrics.counters (metricsCollector (fst run))) = 0.
Proof. repeat split. Qed.

(** ** The result of a run *)

Section RunResult.
Context `{E : Env}.

Lemma ensures_ret {A} (a : A) (P : A -> Prop) : P a -> ensures (ret a) P.
Proof. by intros H s. Qed.






End RunResult.



(** ** Guidance and the direct run *)

Section Fallback.
Context `{E : Env}.

Lemma simulates_ret {A B} (R : A -> B -> Prop) a b :
  R a b -> simulates R (ret a) (ret b).
Proof. by intros H s1 s2 Hs. Qed.

Lemma simulates_throw {A B} (R : A -> B -> Prop) e :
  simulates R (throw e) (throw e).
Proof. by intros s1 s2 Hs. Qed.

Lemma simulates_bind {A A' B B'} (R : A -> B -> Prop) (R' : A' -> B' -> Prop)
    c1 c2 k1 k2 :
  simulates R c1 c2 ->
  (forall a b, R a b -> simulates R' (k1 a) (k2 b)) ->
  simulates R' (bind c1 k1) (bind c2 k2).
Proof.
  intros Hc Hk s1 s2 Hs. unfold bind.
  destruct (Hc s1 s2 Hs) as [Hs' Hr].
  destruct (c1 s1) as [s1' [e1|a]], (c2 s2) as [s2' [e2|b]]; simpl in *;
    try done.
  by apply Hk.
Qed.

Lemma simulates_try_catch {A B} (R : A -> B -> Prop) c1 c2 h1 h2 :
  simulates R c1 c2 ->
  (forall e, simulates R (h1 e) (h2 e)) ->
  simulates R (try_catch c1 h1) (try_catch c2 h2).
Proof.
  intros Hc Hh s1 s2 Hs. unfold try_catch.
  destruct (Hc s1 s2 Hs) as [Hs' Hr].
  destruct (c1 s1) as [s1' [e1|a]], (c2 s2) as [s2' [e2|b]]; simpl in *;
    try done.
  subst e2. by apply Hh.
Qed.

Lemma simulates_weaken {A B} (R R' : A -> B -> Prop) c1 c2 :
  simulates R c1 c2 -> (forall a b, R a b -> R' a b) -> simulates R' c1 c2.
Proof.
  intros Hc HR s1 s2 Hs. destruct (Hc s1 s2 Hs) as [Hs' Hr]. split; [done|].
  destruct (snd (c1 s1)), (snd (c2 s2)); auto.
Qed.

Lemma simulates_skip {A A' B} (R : A' -> B -> Prop) (c : M A) P k c2 :
  quiet c P ->
  (forall a, P a -> simulates R (k a) c2) ->
  simulates R (bind c k) c2.
Proof.
  intros Hc Hk s1 s2 [Hw Ha]. unfold bind.
  destruct (Hc s1) as [[Hw' Ha'] (a & Hr & HP)].
  destruct (c s1) as [s1' r]; simpl in *; subst r.
  apply (Hk a HP). split; congruence.
Qed.

Lemma simulates_map {A A' B} (R : A' -> B -> Prop) (c1 : M A) (c2 : M B) g :
  simulates (fun a b => R (g a) b) c1 c2 ->
  simulates R (bind c1 (fun a => ret (g a))) c2.
Proof.
  intros Hc s1 s2 Hs. unfold bind. specialize (Hc s1 s2 Hs).
  by destruct (c1 s1) as [s1' [e1|a]], (c2 s2) as [s2' [e2|b]].
Qed.

Lemma simulates_maps {A A' B B'} (R : A' -> B' -> Prop) (c1 : M A) (c2 : M B) g1 g2 :
  simulates (fun a b => R (g1 a) (g2 b)) c1 c2 ->
  simulates R (bind c1 (fun a => ret (g1 a))) (bind c2 (fun b => ret (g2 b))).
Proof.
  intros Hc s1 s2 Hs. unfold bind. specialize (Hc s1 s2 Hs).
  by destruct (c1 s1) as [s1' [e1|a]], (c2 s2) as [s2' [e2|b]].
Qed.

Lemma simulates_call_world {A} (g : World -> (Error + A) * World) :
  simulates eq (call_world g) (call_world g).
Proof.
  intros [l1 w1 mc1 o1 a1] [l2 w2 mc2 o2 a2] [Hw Ha]; simpl in *; subst.
  unfold call_world; simpl.
  by destruct (g w2) as [[e|a] w'].
Qed.

Lemma simulates_call_pure {A} (r : Error + A) :
  simulates eq (call_pure r) (call_pure r).
Proof. intros s1 s2 Hs. split; [done|]. by destruct r. Qed.

Lemma simulates_now : simulates eq now now.
Proof. intros s1 s2 [Hw Ha]. split; [done|]. simpl. by rewrite Hw. Qed.

Lemma simulates_get_agent : simulates eq get_agent get_agent.
Proof. intros s1 s2 [Hw Ha]. by split. Qed.

Lemma simulates_modify_agent g :
  simulates eq (modify_agent g) (modify_agent g).
Proof.
  intros s1 s2 [Hw Ha]. split; [|done]. split; simpl; [done|]. by rewrite Ha.
Qed.

Lemma simulates_for_each {A} (g : A -> M unit) l :
  (forall x, simulates eq (g x) (g x)) ->
  simulates eq (for_each g l) (for_each g l).
Proof.
  intros Hg. induction l as [|x l IH]; simpl.
  - by apply simulates_ret.
  - eapply simulates_bind; [apply Hg|]. by intros.
Qed.

Lemma simulates_for_collect {A B} (g : A -> M (list B)) l :
  (forall x, simulates eq (g x) (g x)) ->
  simulates eq (for_collect g l) (for_collect g l).
Proof.
  intros Hg. induction l as [|x l IH]; simpl.
  - by apply simulates_ret.
  - eapply simulates_bind; [apply Hg|]. intros ys ? <-.
    eapply simulates_bind; [apply IH|]. intros zs ? <-.
    by apply simulates_ret.
Qed.

End Fallback.

(** One step in showing that a collaborator's method simulates itself. *)
Ltac same_step :=
  match goal with
  | |- simulates eq (bind _ _) (bind _ _) =>
      apply (simulates_bind eq eq); [|intros ? ? <-]
  | |- simulates eq (try_catch _ _) (try_catch _ _) =>
      apply simulates_try_catch; [|intros ?]
  | |- simulates eq (for_each _ _) _ => apply simulates_for_each; intros ?
  | |- simulates eq (for_collect _ _) _ => apply simulates_for_collect; intros ?
  | |- simulates eq (ret _) _ => by apply simulates_ret
  | |- simulates eq (throw _) _ => apply simulates_throw
  | |- simulates eq (call_pure _) _ => apply simulates_call_pure
  | |- simulates eq now _ => apply simulates_now
  | |- simulates eq get_agent _ => apply simulates_get_agent
  | |- simulates eq (call_world _) _ => apply simulates_call_world
  | |- simulates eq (modify_agent _) _ => apply simulates_modify_agent
  | |- simulates eq (match ?x with _ => _ end) _ => destruct x
  end.

Section FallbackRun.
Context `{E : Env}.

Lemma simulates_generateKubernetesManifests options :
  simulates eq (Agent.generateKubernetesManifests options)
               (Agent.generateKubernetesManifests options).
Proof. unfold Agent.generateKubernetesManifests. repeat same_step. Qed.

Lemma simulates_validateManifests arg :
  simulates eq (Agent.validateManifests arg) (Agent.validateManifests arg).
Proof.
  unfold Agent.validateManifests, Agent.check, Agent.executeCommand.
  repeat same_step.
Qed.

Lemma quiet_now : quiet now (fun _ => True).
Proof. intros s. split; [done|]. by eexists. Qed.

(** A request that is answered with guidance: [orchestrate] returns the
    reasoning and touches nothing that the collaborators see. *)
Lemma quiet_orchestrate userInput context :
  guidance_only ->
  quiet (Orchestrator.orchestrate userInput context)
        (fun r => Coordinator.result_of r = None).
Proof.
  intros Hg [l w mc o a].
  unfold Orchestrator.orchestrate, try_catch, bind, get_orchestrator, call_llm;
    simpl.
  match goal with
  | |- context [chat_completions_create ?req l] =>
      destruct (Hg req l) as (content & rest & Hreply);
      destruct (chat_completions_create req l) as [r l']
  end.
  simpl in Hreply; subst r. simpl. split; [done|]. by eexists.
Qed.

Lemma quiet_planIntegration request context :
  guidance_only ->
  quiet (Orchestrator.planIntegration request context) (fun _ => True).
Proof.
  intros Hg s. unfold Orchestrator.planIntegration, bind.
  match goal with
  | |- context [Orchestrator.orchestrate ?prompt context s] =>
      destruct (quiet_orchestrate prompt context Hg s) as [Hs (r & Hr & _)];
      destruct (Orchestrator.orchestrate prompt context s) as [s' r']
  end.
  simpl in *; subst r'.
  split; [done|]. by eexists.
Qed.

Lemma result_of_None r :
  Coordinator.result_of r = None ->
  Coordinator.result_spec r = None /\ Coordinator.result_manifests r = None.
Proof. by destruct r. Qed.

(** Under guidance, the stages of a run do to the collaborators what the
    direct run does, and return the same outputs or throw the same error. *)
Lemma stages_simulate_runDirect options startTime :
  guidance_only ->
  simulates (fun result outputs => stage_outputs result = outputs)
    (Coordinator.stages options startTime) (Coordinator.runDirect options).
Proof.
  intros Hg. unfold Coordinator.stages, Coordinator.runDirect.
  eapply simulates_skip; [by apply quiet_planIntegration|]. intros plan _.
  eapply simulates_skip; [by apply quiet_orchestrate|]. intros r1 H1.
  destruct (result_of_None _ H1) as [-> _].
  eapply simulates_bind; [apply simulates_call_world|]. intros spec ? <-.
  eapply simulates_skip; [by apply quiet_orchestrate|]. intros r2 H2.
  rewrite H2.
  eapply simulates_bind with (R := fun a b => a = GeneratedModels b).
  { apply simulates_map.
    eapply simulates_weaken; [apply simulates_call_world|]. by intros ? ? ->. }
  intros ? generated ->.
  eapply simulates_skip; [by apply quiet_orchestrate|]. intros r3 H3.
  destruct (result_of_None _ H3) as [_ ->].
  eapply simulates_bind; [apply simulates_generateKubernetesManifests|].
  intros manifests ? <-.
  eapply simulates_bind; [apply simulates_validateManifests|].
  intros ? ? _.
  eapply simulates_bind with (R := eq).
  { unfold Coordinator.deploy. destruct (truthy (o_git_repo options)).
    - eapply simulates_skip; [by apply quiet_orchestrate|]. intros r5 H5.
      rewrite H5. apply simulates_maps.
      eapply simulates_weaken; [apply simulates_call_world|]. by intros ? ? ->.
    - by apply simulates_ret. }
  intros deployment ? <-.
  eapply simulates_skip; [apply quiet_now|]. intros finished _.
  by apply simulates_ret.
Qed.

(** A request that is rejected: [orchestrate] throws the service's error
    and touches nothing that the collaborators see. *)
Lemma orchestrate_unreachable userInput context s :
  service_unreachable ->
  same_collaborators (fst (Orchestrator.orchestrate userInput context s)) s /\
  exists e, snd (Orchestrator.orchestrate userInput context s) = inl e.
Proof.
  intros Hu. destruct s as [l w mc o a].
  unfold Orchestrator.orchestrate, try_catch, bind, get_orchestrator, call_llm;
    simpl.
  match goal with
  | |- context [chat_completions_create ?req l] =>
      destruct (Hu req l) as (e & Hreply);
      destruct (chat_completions_create req l) as [r l']
  end.
  simpl in Hreply; subst r. simpl. split; [done|]. by eexists.
Qed.

Lemma stages_unreachable options startTime s :
  service_unreachable ->
  same_collaborators (fst (Coordinator.stages options startTime s)) s /\
  exists e, snd (Coordinator.stages options startTime s) = inl e.
Proof.
  intros Hu.
  unfold Coordinator.stages, Orchestrator.planIntegration, bind.
  match goal with
  | |- context [Orchestrator.orchestrate ?prompt ?context s] =>
      destruct (orchestrate_unreachable prompt context s Hu) as [Hs (e & He)];
      destruct (Orchestrator.orchestrate prompt context s) as [s' r]
  end.
  simpl in *; subst r. split; [done|]. by eexists.
Qed.

(** C1, as the code has it.  In a run with [openapi_url], when the
    reasoning service answers every request with guidance (text, no tool
    call), each stage's collaborator is invoked directly: the run leaves the
    collaborators' world and the agent registry as the direct run does, and
    it returns the same stage outputs, or throws the same error, as the
    direct run.  When the reasoning service rejects every request, the run
    throws and leaves the collaborators' world and the agent registry
    untouched. *)
Theorem guidance_falls_back_to_direct_run (options : Options) (s : State) :
  truthy (openapi_url options) = true ->
  let run := Coordinator.createIntegrationAgent options s in
  let direct := Coordinator.runDirect options s in
  (guidance_only ->
   world (fst run) = world (fst direct) /\
   integrationAgent (fst run) = integrationAgent (fst direct) /\
   match snd run, snd direct with
   | inr result, inr outputs => stage_outputs result = outputs
   | inl e, inl e' => e = e'
   | _, _ => False
   end) /\
  (service_unreachable ->
   world (fst run) = world s /\
   integrationAgent (fst run) = integrationAgent s /\
   exists e, snd run = inl e).
Proof.
  intros Hurl. cbv zeta.
  rewrite (createIntegrationAgent_stages options s Hurl). cbv zeta.
  split.
  - intros Hg.
    match goal with
    | |- context [Coordinator.stages options ?t ?s1] =>
        destruct (stages_simulate_runDirect options t Hg s1 s) as [[Hw Ha] Hr];
          [by split|];
        destruct (Coordinator.stages options t s1) as [s2 [e|result]]
    end;
    destruct (Coordinator.runDirect options s) as [s3 [e'|outputs]];
    simpl in *; done.
  - intros Hu.
    match goal with
    | |- context [Coordinator.stages options ?t ?s1] =>
        destruct (stages_unreachable options t s1 Hu) as [[Hw Ha] (e & He)];
        destruct (Coordinator.stages options t s1) as [s2 r]
    end.
    simpl in *; subst r. simpl. repeat split; try done. by eexists.
Qed.

End FallbackRun.

(** C1, witness: the billing run under guidance against the direct run, and
    the billing run with the reasoning service unreachable. *)
Lemma guidance_falls_back_to_direct_run_witness :
  (let s := initial (E := guided) 0%nat 0 in
   let options := billing_options (Some "https://git/x.git") in
   let run := Coordinator.createIntegrationAgent options s in
   let direct := Coordinator.runDirect options s in
   world (fst run) = world (fst direct) /\
   integrationAgent (fst run) = integrationAgent (fst direct) /\
   match snd run, snd direct with
   | inr result, inr outputs => stage_outputs result = outputs
   | inl e, inl e' => e = e'
   | _, _ => False
   end) /\
  (let s := initial (E := unguided) 0%nat 0 in
   let run := Coordinator.createIntegrationAgent (billing_options None) s in
   world (fst run) = world s /\
   integrationAgent (fst run) = integrationAgent s /\
   exists e, snd run = inl e).
Proof.
  split.
  - apply (proj1 (guidance_falls_back_to_direct_run (E := guided)
                    (billing_options (Some "https://git/x.git"))
                    (initial (E := guided) 0%nat 0) eq_refl)).
    intros req l. by exists "Proceed stage by stage.", [].
  - apply (proj2 (guidance_falls_back_to_direct_run (E := unguided)
                    (billing_options None)
                    (initial (E := unguided) 0%nat 0) eq_refl)).
    intros req l. by exists (mkError "APIConnectionError" "Connection error.").
Defined.

(** C1, counterexample: with the reasoning service unreachable, the run
    throws the service's error without invoking a collaborator, while the
    direct run completes. *)
Lemma unreachable_service_aborts_run :
  let s := initial (E := unguided) 0%nat 0 in
  let run := Coordinator.createIntegrationAgent (billing_options None) s in
  let direct := Coordinator.runDirect (billing_options None) s in
  snd run = inl (mkError "APIConnectionError" "Connection error.") /\
  world (fst run) = world s /\
  integrationAgent (fst run) = integrationAgent s /\
  (exists outputs, snd direct = inr outputs) /\
  world (fst direct) <> world s.
Proof.
  repeat split.
  - eexists. vm_compute. reflexivity.
  - vm_compute. discriminate.
Qed.


(* ================================================================== *)
(** * Further properties of the code *)

(** ** The average duration is a double *)

Section Rounding.
Import PrimFloat.

(** The average of 1, 1 and 2 milliseconds is the double nearest to 4 / 3,
    which prints as 1.3333333333333333. *)
Example average_is_a_double :
  Metrics.avg_duration
    (Metrics.durations
       (Metrics.calls
          [Metrics.RecordSuccess 1; Metrics.RecordSuccess 1; Metrics.RecordSuccess 2]
          (Metrics.constructor Metrics.empty_heap))) =
  0x1.5555555555555p+0%float.
Proof. reflexivity. Qed.

End Rounding.

(** ** Durations, errors and requests in the metrics *)

Section MetricsAggregates.
Import Metrics MetricsSummary.

Lemma durations_call mc c :
  durations (call mc c) =
  match c with
  | StartIntegration _ _ => durations mc
  | RecordSuccess d | RecordFailure d _ =>
      let p := durations mc in
      let td := total_duration p + d in
      let t := total (counters mc) + 1 in
      mkPerformance td
        (if 0 <? t then divide td t else avg_duration p)
        (Some (match min_duration p with None => d | Some m => Z.min m d end))
        (Z.max (max_duration p) d)
  end.
Proof.
  destruct c; [done| |];
    unfold durations, counters, call, recordSuccess, recordFailure,
      updateDurationMetrics, get_performance, get_integrations; simpl;
    by rewrite !lookup_insert_eq.
Qed.

Lemma durations_constructor h : durations (constructor h) = zero_performance.
Proof.
  unfold durations, constructor, get_performance; simpl.
  by rewrite lookup_insert_eq.
Qed.

Lemma recorded_snoc cs c :
  recorded (cs ++ [c]) =
  recorded cs ++ match c with
                 | StartIntegration _ _ => []
                 | RecordSuccess d | RecordFailure d _ => [d]
                 end.
Proof.
  unfold recorded. rewrite flat_map_app. simpl. by rewrite app_nil_r.
Qed.

Lemma total_counts_recorded h cs :
  total (counters (calls cs (constructor h))) = Z.of_nat (length (recorded cs)).
Proof.
  induction cs as [|c cs IH] using rev_ind.
  - change (calls [] (constructor h)) with (constructor h).
    by rewrite counters_constructor.
  - rewrite calls_snoc, counters_call, recorded_snoc, length_app, Nat2Z.inj_add.
    destruct c; simpl; lia.
Qed.

(** X1.  After any sequence of calls on a new collector, [total_duration] is
    the sum of the durations recorded, [total] is their number, and, once a
    run has been recorded, [avg_duration] is the double that the division of
    the two gives. *)
Theorem durations_accumulate (h : Heap) (cs : list Call) :
  let mc := calls cs (constructor h) in
  total_duration (durations mc) = foldr Z.add 0 (recorded cs) /\
  total (counters mc) = Z.of_nat (length (recorded cs)) /\
  (recorded cs <> [] ->
   avg_duration (durations mc) =
   divide (total_duration (durations mc)) (total (counters mc))).
Proof.
  simpl. split; [|split; [apply total_counts_recorded|]].
  - induction cs as [|c cs IH] using rev_ind.
    + change (calls [] (constructor h)) with (constructor h).
      by rewrite durations_constructor.
    + rewrite calls_snoc, durations_call, recorded_snoc, foldr_app.
      destruct c; simpl.
      * by rewrite IH.
      * rewrite IH. generalize (recorded cs). intros l.
        induction l as [|x l IHl]; simpl; lia.
      * rewrite IH. generalize (recorded cs). intros l.
        induction l as [|x l IHl]; simpl; lia.
  - induction cs as [|c cs IH] using rev_ind; [done|].
    intros Hne. rewrite calls_snoc, durations_call, counters_call.
    pose proof (total_counts_recorded h cs) as Ht.
    destruct c; simpl.
    + apply IH. rewrite recorded_snoc, app_nil_r in Hne. done.
    + destruct (Z.ltb_spec 0 (total (counters (calls cs (constructor h))) + 1));
        [done | lia].
    + destruct (Z.ltb_spec 0 (total (counters (calls cs (constructor h))) + 1));
        [done | lia].
Qed.

(** X2.  Before any run is recorded [min_duration] is still [Infinity] and
    [max_duration] is 0; afterwards [min_duration] is one of the recorded
    durations, it is at most every recorded duration, and [max_duration] is
    at least every recorded duration. *)
Theorem durations_bounds (h : Heap) (cs : list Call) :
  let p := durations (calls cs (constructor h)) in
  (recorded cs = [] -> min_duration p = None /\ max_duration p = 0) /\
  (recorded cs <> [] ->
   exists m, min_duration p = Some m /\ In m (recorded cs) /\
             forall d, In d (recorded cs) -> m <= d <= max_duration p).
Proof.
  simpl. induction cs as [|c cs [IHnil IHcons]] using rev_ind.
  - change (calls [] (constructor h)) with (constructor h).
    rewrite durations_constructor. by split.
  - rewrite calls_snoc, durations_call, recorded_snoc.
    assert (Hstep : forall d,
      (recorded (cs ++ [RecordSuccess d]) = [] -> False) /\
      exists m,
        Some (match min_duration (durations (calls cs (constructor h))) with
              | None => d | Some m0 => Z.min m0 d end) = Some m /\
        In m (recorded cs ++ [d]) /\
        forall x, In x (recorded cs ++ [d]) ->
          m <= x <= Z.max (max_duration (durations (calls cs (constructor h)))) d).
    { intros d. split.
      { rewrite recorded_snoc. by destruct (recorded cs). }
      destruct (recorded cs) as [|d0 l] eqn:Hrec.
      - destruct IHnil as [-> ->]; [done|].
        exists d. split; [done|]. split; [by left|].
        intros x [<-|[]]. lia.
      - destruct IHcons as (m & -> & Hin & Hb); [done|].
        eexists; split; [done|]. split.
        + rewrite in_app_iff. destruct (Z.min_spec m d) as [[_ ->]|[_ ->]];
            [by left | right; by left].
        + intros x Hx. apply in_app_iff in Hx as [Hx|[<-|[]]].
          * specialize (Hb x Hx). lia.
          * lia. }
    destruct c as [id t|d|d e]; simpl.
    + rewrite app_nil_r. by split.
    + destruct (Hstep d) as [_ Hex]. split; [by destruct (recorded cs)|done].
    + destruct (Hstep d) as [_ Hex]. split; [by destruct (recorded cs)|done].
Qed.

(** X2, witness: three runs of 30, 10 and 20 milliseconds. *)
Lemma durations_bounds_witness :
  exists m,
    min_duration
      (durations
         (calls [RecordSuccess 30; RecordFailure 10 (new_Error "failed");
                 RecordSuccess 20] (constructor empty_heap))) = Some m /\
    In m [30; 10; 20] /\
    forall d, In d [30; 10; 20] ->
      m <= d <=
      max_duration
        (durations
           (calls [RecordSuccess 30; RecordFailure 10 (new_Error "failed");
                   RecordSuccess 20] (constructor empty_heap))).
Proof.
  apply (proj2 (durations_bounds empty_heap
                  [RecordSuccess 30; RecordFailure 10 (new_Error "failed");
                   RecordSuccess 20])).
  discriminate.
Defined.

(** X1, witness: three runs of 1, 1 and 2 milliseconds, whose average is
    the double of 4 / 3. *)
Lemma durations_accumulate_witness :
  avg_duration
    (durations
       (calls [RecordSuccess 1; RecordSuccess 1; RecordSuccess 2]
              (constructor empty_heap))) =
  divide
    (total_duration
       (durations
          (calls [RecordSuccess 1; RecordSuccess 1; RecordSuccess 2]
                 (constructor empty_heap))))
    (total
       (counters
          (calls [RecordSuccess 1; RecordSuccess 1; RecordSuccess 2]
                 (constructor empty_heap)))).
Proof.
  apply (durations_accumulate empty_heap
           [RecordSuccess 1; RecordSuccess 1; RecordSuccess 2]).
  discriminate.
Defined.

Lemma sum_counts_increment (m : gmap string Z) k :
  sum_counts (<[k := default 0 (m !! k) + 1]> m) = sum_counts m + 1.
Proof.
  unfold sum_counts. destruct (m !! k) as [v|] eqn:Hk; simpl.
  - rewrite <- insert_delete_eq.
    rewrite map_fold_insert_L; [|intros; lia|apply lookup_delete_eq].
    rewrite (map_fold_delete_L _ _ k v m); [lia|intros; lia|done].
  - rewrite map_fold_insert_L; [lia|intros; lia|done].
Qed.

Lemma error_counts_call mc c :
  error_counts (call mc c) =
  match c with
  | RecordFailure _ e =>
      let errorType := or_str (Some (ctor_name e)) "UnknownError" in
      <[errorType := default 0 (error_counts mc !! errorType) + 1]> (error_counts mc)
  | _ => error_counts mc
  end.
Proof.
  destruct c; [done|done|].
  unfold error_counts, call, recordFailure, updateDurationMetrics, get_map; simpl.
  by rewrite lookup_insert_eq.
Qed.

Lemma error_counts_constructor h : error_counts (constructor h) = ∅.
Proof.
  unfold error_counts, constructor, get_map; simpl.
  rewrite lookup_insert_ne by lia. by rewrite lookup_insert_eq.
Qed.

Lemma failure_types_snoc ty cs c :
  length (filter (fun c => failure_type c = Some ty) (cs ++ [c])) =
  (length (filter (fun c => failure_type c = Some ty) cs) +
   if decide (failure_type c = Some ty) then 1 else 0)%nat.
Proof.
  rewrite filter_app, length_app. f_equal.
  rewrite filter_cons. by case_decide.
Qed.

(** X3.  After any sequence of calls on a new collector, the error counts
    add up to the number of failed runs ([totalErrors] of the summary is
    [failedIntegrations]), and the count kept for an error type is the number
    of failures recorded with an error of that type. *)
Theorem errors_count_failures (h : Heap) (cs : list Call) :
  let mc := calls cs (constructor h) in
  totalErrors (getSummary mc) = failedIntegrations (getSummary mc) /\
  forall ty,
    default 0 (error_counts mc !! ty) =
    Z.of_nat (length (filter (fun c => failure_type c = Some ty) cs)).
Proof.
  simpl. unfold getSummary; simpl.
  change (sum_counts (error_counts (calls cs (constructor h))) =
          failed (counters (calls cs (constructor h))) /\
          forall ty,
            default 0 (error_counts (calls cs (constructor h)) !! ty) =
            Z.of_nat (length (filter (fun c => failure_type c = Some ty) cs))).
  induction cs as [|c cs [IHsum IHty]] using rev_ind.
  - change (calls [] (constructor h)) with (constructor h).
    rewrite error_counts_constructor, counters_constructor. split; [done|].
    intros ty. by rewrite lookup_empty.
  - rewrite calls_snoc, error_counts_call, counters_call. split.
    + destruct c; simpl; try done. rewrite sum_counts_increment. lia.
    + intros ty. rewrite failure_types_snoc, Nat2Z.inj_add, <- IHty.
      destruct (decide (failure_type c = Some ty)) as [Hty|Hty];
        destruct c as [| |d e]; simpl in *; try done; try lia.
      * injection Hty as <-. rewrite lookup_insert_eq. simpl. lia.
      * rewrite lookup_insert_ne by congruence. lia.
Qed.

Lemma record_requests_snoc rs r mc :
  record_requests (rs ++ [r]) mc =
  recordApiRequest (fst r) (snd r) (record_requests rs mc).
Proof. unfold record_requests. by rewrite fold_left_app. Qed.

(** X5.  After a sequence of [recordApiRequest] calls, the count kept for a
    key is what it was plus the number of requests whose method and endpoint
    give that key; the counters of the runs are as they were. *)
Theorem api_requests_are_counted (rs : list (string * string))
    (mc : MetricsCollector) (key : string) :
  api_count key (record_requests rs mc) =
  api_count key mc +
  Z.of_nat (length (filter (fun r => snd r +:+ " " +:+ fst r = key) rs)) /\
  counters (record_requests rs mc) = counters mc.
Proof.
  induction rs as [|r rs [IHc IHi]] using rev_ind.
  - split; [simpl; lia|done].
  - rewrite record_requests_snoc. split.
    + rewrite filter_app, length_app, Nat2Z.inj_add, Z.add_assoc, <- IHc.
      unfold api_count, recordApiRequest, get_map; simpl.
      rewrite lookup_insert_eq; simpl. rewrite filter_cons.
      case_decide as Hk.
      * rewrite Hk, lookup_insert_eq. simpl. lia.
      * rewrite lookup_insert_ne by done. simpl. lia.
    + by rewrite <- IHi.
Qed.

Lemma allocated_call mc c : allocated mc -> allocated (call mc c).
Proof. by destruct c. Qed.

Lemma allocated_calls cs mc : allocated mc -> allocated (calls cs mc).
Proof.
  intros H. induction cs as [|c cs IH] using rev_ind; [done|].
  rewrite calls_snoc. by apply allocated_call.
Qed.

Lemma allocated_constructor h : allocated (constructor h).
Proof. unfold allocated, constructor; simpl. lia. Qed.

(** A call on the collector writes no counters but its own. *)
Lemma other_counters_call mc c l :
  l <> integrations (metrics mc) ->
  get_integrations (heap (call mc c)) l = get_integrations (heap mc) l.
Proof.
  intros Hl.
  destruct c; unfold call, startIntegration, recordSuccess, recordFailure,
    updateDurationMetrics, get_integrations; simpl;
    by rewrite lookup_insert_ne.
Qed.

Lemma other_counters_calls cs mc l :
  l <> integrations (metrics mc) ->
  get_integrations (heap (calls cs mc)) l = get_integrations (heap mc) l.
Proof.
  intros Hl. induction cs as [|c cs IH] using rev_ind; [done|].
  rewrite calls_snoc, other_counters_call; [done|].
  by rewrite metrics_calls.
Qed.

(** X4.  [reset] gives the collector new objects with all counters at 0;
    a snapshot returned before the reset keeps showing the counters as they
    were at the reset, whatever is recorded afterwards. *)
Theorem reset_detaches_snapshots (h : Heap) (cs later : list Call) (uptime : Z) :
  let mc := calls cs (constructor h) in
  let s := getMetrics uptime mc in
  counters (reset mc) = zero_integrations /\
  durations (reset mc) = zero_performance /\
  error_counts (reset mc) = ∅ /\
  currentIntegrations (reset mc) = ∅ /\
  snapshot_counters s (calls later (reset mc)) = counters mc.
Proof.
  simpl.
  pose proof (allocated_calls cs _ (allocated_constructor h)) as Halloc.
  set (mc := calls cs (constructor h)) in *.
  repeat split.
  - unfold counters, reset, get_integrations; simpl. by rewrite lookup_insert_eq.
  - unfold durations, reset, get_performance; simpl. by rewrite lookup_insert_eq.
  - unfold error_counts, reset, get_map; simpl.
    rewrite lookup_insert_ne by lia. by rewrite lookup_insert_eq.
  - unfold snapshot_counters, getMetrics; simpl.
    rewrite other_counters_calls.
    + unfold counters, reset, get_integrations; simpl.
      rewrite lookup_insert_ne; [done|]. unfold allocated in Halloc. lia.
    + unfold reset; simpl. unfold allocated in Halloc. lia.
Qed.

End MetricsAggregates.

(** ** The tool registry and the tools *)

Section Tools.
Context `{E : Env}.

Lemma register_all_snoc ts tool o :
  register_all (ts ++ [tool]) o = Orchestrator.registerTool tool (register_all ts o).
Proof. unfold register_all. by rewrite fold_left_app. Qed.

Lemma map_set_keys_new {V} k (v : V) m :
  map_get k m = None -> map fst (map_set k v m) = map fst m ++ [k].
Proof.
  induction m as [|[k' v'] m IH]; simpl; [done|].
  destruct (String.eqb_spec k' k) as [->|Hk]; simpl; [done|].
  intros H. by rewrite IH.
Qed.

Lemma map_get_None_keys {V} k (m : list (string * V)) :
  map_get k m = None -> k ∉ map fst m.
Proof.
  induction m as [|[k' v'] m IH]; simpl; [intros _; apply not_elem_of_nil|].
  destruct (String.eqb_spec k' k) as [->|Hk]; [done|].
  intros H. apply not_elem_of_cons. split; [congruence|auto].
Qed.

Lemma map_set_nodup {V} k (v : V) m :
  NoDup (map fst m) -> NoDup (map fst (map_set k v m)).
Proof.
  intros Hnd. destruct (map_get k m) as [v0|] eqn:Hk.
  - by rewrite (map_set_keys k v v0).
  - rewrite map_set_keys_new by done.
    apply NoDup_app. split; [done|]. split; [|apply NoDup_singleton].
    intros x Hx Hx'. apply list_elem_of_singleton in Hx' as ->.
    by apply (map_get_None_keys k m).
Qed.

Lemma map_set_in {V} k (v : V) m k0 v0 :
  In (k0, v0) (map_set k v m) -> (k0 = k /\ v0 = v) \/ In (k0, v0) m.
Proof.
  induction m as [|[k' v'] m IH]; simpl.
  - intros [[= <- <-]|[]]. by left.
  - destruct (String.eqb_spec k' k) as [->|Hk]; simpl.
    + intros [[= <- <-]|Hin]; [by left|right; by right].
    + intros [Heq|Hin]; [right; by left|].
      destruct (IH Hin) as [?|?]; [by left|right; by right].
Qed.

(** X6.  After any sequence of registrations on an empty registry, the tool
    retrieved under a name is the last one registered with that name (none if
    there was none); the names in the registry are distinct, and each
    descriptor is stored under its own name. *)
Theorem last_registration_wins (ts : list Tool) (history : list ChatMessage) :
  let o := register_all ts (mkOrchestrator [] history) in
  (forall name,
     Orchestrator.getTool name o =
     last (filter (fun tool => tool_name tool = name) ts)) /\
  NoDup (map fst (tools o)) /\
  (forall name tool, In (name, tool) (tools o) ->
     tool_name tool = name /\ In tool ts).
Proof.
  simpl. induction ts as [|tool ts (IHget & IHnd & IHin)] using rev_ind.
  - repeat split; try done. apply NoDup_nil_2.
  - rewrite register_all_snoc. unfold Orchestrator.getTool in *.
    unfold Orchestrator.registerTool; simpl. repeat split.
    + intros name. rewrite filter_app, filter_cons, filter_nil.
      case_decide as Hn.
      * subst name. by rewrite map_get_set_eq, last_snoc.
      * rewrite map_get_set_ne by done. by rewrite app_nil_r.
    + by apply map_set_nodup.
    + apply map_set_in in H as [[-> ->]|Hin]; [done|].
      by apply IHin.
    + apply map_set_in in H as [[-> ->]|Hin].
      * apply in_app_iff. right. by left.
      * apply in_app_iff. left. by eapply IHin.
Qed.

(** X7.  Once the arguments of a function call parse, [executeTool] never
    throws: a tool that throws gives a failure result.  A name that is not
    one of the five tools gives the failure "Unknown tool" and changes
    nothing; arguments that do not parse make [executeTool] throw the
    [SyntaxError] of [JSON.parse], and change nothing either. *)
Theorem executeTool_returns_failures (call : FunctionCall) (context : Context)
    (s : State) :
  (forall args, fc_arguments call = Some args ->
     (exists r, snd (Orchestrator.executeTool call context s) = inr r) /\
     (~ In (fc_name call) known_tools ->
      Orchestrator.executeTool call context s =
      (s, inr (ToolFailure ("Unknown tool: " +:+ fc_name call) (fc_name call) args)))) /\
  (fc_arguments call = None ->
   exists e,
     Orchestrator.executeTool call context s = (s, inl e) /\
     ctor_name e = "SyntaxError").
Proof.
  unfold Orchestrator.executeTool, fc_arguments.
  destruct (fc_parsed call) as [rejected|parsed]; split; try done.
  - intros _. by eexists.
  - intros args [= ->]. split.
    + unfold try_catch.
      destruct (Orchestrator.dispatch (fc_name call) args context s) as [s' [e|r]];
        simpl; eauto.
    + intros Hname. unfold Orchestrator.dispatch, try_catch.
      repeat match goal with
      | |- context [String.eqb ?a ?b] =>
          destruct (String.eqb_spec a b) as [Heq|_];
            [exfalso; apply Hname; rewrite Heq; simpl; tauto|]
      end.
      done.
Qed.


(** X8.  With a context that carries no components, every function call
    whose arguments parse gives a failure result, and no collaborator is
    called: the state is as it was. *)
Theorem tools_need_their_components (call : FunctionCall) (context : Context)
    (s : State) (args : ToolArgs) :
  ctx_integrationAgent context = None ->
  fc_arguments call = Some args ->
  exists reason,
    Orchestrator.executeTool call context s =
    (s, inr (ToolFailure reason (fc_name call) args)).
Proof.
  intros Hctx Hargs.
  unfold Orchestrator.executeTool, Orchestrator.dispatch, try_catch,
    Orchestrator.executeOpenAPIParser, Orchestrator.executePydanticGenerator,
    Orchestrator.executeManifestGenerator, Orchestrator.executeGitOpsDeployment,
    Orchestrator.executeComplexityAnalyzer, Orchestrator.component.
  unfold fc_arguments in Hargs.
  destruct (fc_parsed call) as [rejected|parsed]; [done|].
  injection Hargs as ->. rewrite Hctx. simpl.
  repeat match goal with
  | |- context [String.eqb ?a ?b] => destruct (String.eqb a b)
  end; simpl; eauto.
Qed.


End Tools.

(** X7, witness: a call of a tool that does not exist. *)
Lemma executeTool_returns_failures_witness :
  let args := mkToolArgs None None None None None None None None None in
  Orchestrator.executeTool (E := guided)
    (mkFunctionCall "restart_cluster" (inr args)) Coordinator.orchestrationContext
    (initial (E := guided) 0%nat 0) =
  (initial (E := guided) 0%nat 0,
   inr (ToolFailure "Unknown tool: restart_cluster" "restart_cluster" args)).
Proof.
  apply (proj1 (executeTool_returns_failures (E := guided)
                  (mkFunctionCall "restart_cluster"
                     (inr (mkToolArgs None None None None None None None None None)))
                  Coordinator.orchestrationContext (initial (E := guided) 0%nat 0))
           _ eq_refl).
  simpl. intros [H|[H|[H|[H|[H|[]]]]]]; discriminate.
Defined.

(** X8, witness: the parser tool called with an empty context. *)
Lemma tools_need_their_components_witness :
  exists reason,
    Orchestrator.executeTool (E := guided)
      (mkFunctionCall "parse_openapi_spec"
         (inr (mkToolArgs (Some "https://x/openapi.json") None None None None None
                           None None None)))
      (mkContext None None None None None None) (initial (E := guided) 0%nat 0) =
    (initial (E := guided) 0%nat 0,
     inr (ToolFailure reason "parse_openapi_spec"
            (mkToolArgs (Some "https://x/openapi.json") None None None None None
                        None None None))).
Proof.
  apply (tools_need_their_components (E := guided)
           (mkFunctionCall "parse_openapi_spec"
              (inr (mkToolArgs (Some "https://x/openapi.json") None None None None
                                None None None None)))
           (mkContext None None None None None None)
           (initial (E := guided) 0%nat 0) _ eq_refl eq_refl).
Defined.

(** ** The agent registry *)

Section AgentRegistry.
Context `{E : Env}.

(** What a call of [generateKubernetesManifests] does: it takes the next
    number; when it returns, the result is built from the workflow of the
    specification, the generator's manifests and the integration manifests,
    and is stored under the new id; when it throws, nothing is stored. *)
Lemma generateKubernetesManifests_outcome options s :
  let id := "integration-agent-" +:+ pretty (agentIdCounter (integrationAgent s) + 1) in
  let s' := fst (Agent.generateKubernetesManifests options s) in
  agentIdCounter (integrationAgent s') = agentIdCounter (integrationAgent s) + 1 /\
  match snd (Agent.generateKubernetesManifests options s) with
  | inr k =>
      exists spec wf generated,
        mo_openAPISpec options = Some spec /\
        Agent.generateAgentWorkflow (Some spec) = inr wf /\
        fst (yamlGenerator_generate wf
               (mkGenerateOptions id (or_str (mo_targetNamespace options) "default")
                  (match mo_deployConfig options with
                   | Some c => if js_truthy c then c else JObj []
                   | None => JObj []
                   end)
                  [("autoweave.dev/agent-type", "integration-agent");
                   ("autoweave.dev/generated-from", "openapi-spec")])
               (world s)) = inr generated /\
        k = mkK8sResult id
              (spread generated
                 (Agent.generateIntegrationManifests id spec (mo_targetNamespace options)))
              wf
              (mkManifestMetadata
                 (or_str (chain (OpenAPI.info spec) OpenAPI.version) "unknown")
                 (mo_targetNamespace options)) /\
        agents (integrationAgent s') =
        map_set id (mkAgentRecord k "generated") (agents (integrationAgent s))
  | inl _ => agents (integrationAgent s') = agents (integrationAgent s)
  end.
Proof.
  destruct s as [l w mc o a].
  unfold Agent.generateKubernetesManifests, try_catch, bind, modify_agent,
    get_agent, call_pure, call_world, throw, ret; simpl.
  destruct (Agent.generateAgentWorkflow (mo_openAPISpec options)) as [e|wf] eqn:Hwf;
    simpl; [done|].
  match goal with
  | |- context [yamlGenerator_generate wf ?opts w] =>
      destruct (yamlGenerator_generate wf opts w) as [[e|generated] w'] eqn:Hgen
  end; simpl; [done|].
  destruct (mo_openAPISpec options) as [spec|] eqn:Hspec; simpl; [|done].
  split; [done|]. exists spec, wf, generated. by rewrite Hgen.
Qed.

(** X9.  Every call of [generateKubernetesManifests] takes the next number
    of the id counter, whether it returns or throws.  When it returns, the
    result carries the id [integration-agent-<number>], and [getStatus] of
    that id gives the result with status [generated]; when it throws, the
    registry holds what it held. *)
Theorem generated_agent_is_registered (options : ManifestOptions) (s : State) :
  let s' := fst (Agent.generateKubernetesManifests options s) in
  agentIdCounter (integrationAgent s') = agentIdCounter (integrationAgent s) + 1 /\
  match snd (Agent.generateKubernetesManifests options s) with
  | inr k =>
      agentId k =
        "integration-agent-" +:+ pretty (agentIdCounter (integrationAgent s) + 1) /\
      Agent.getStatus (agentId k) s' = (s', inr (mkAgentRecord k "generated"))
  | inl _ => agents (integrationAgent s') = agents (integrationAgent s)
  end.
Proof.
  destruct (generateKubernetesManifests_outcome options s) as [Hc Hr].
  cbv zeta in *. split; [done|].
  destruct (snd (Agent.generateKubernetesManifests options s)) as [e|k]; [done|].
  destruct Hr as (spec & wf & generated & _ & _ & _ & Hk & Hagents).
  split; [by rewrite Hk|].
  unfold Agent.getStatus, bind, get_agent. rewrite Hagents.
  replace (agentId k) with
    ("integration-agent-" +:+ pretty (agentIdCounter (integrationAgent s) + 1))
    by (by rewrite Hk).
  by rewrite map_get_set_eq.
Qed.

Lemma map_get_spread3 {V} name (a : list (string * V)) k1 v1 k2 v2 k3 v3 :
  k1 <> k2 -> k1 <> k3 -> k2 <> k3 ->
  map_get name (spread a [(k1, v1); (k2, v2); (k3, v3)]) =
  match map_get name [(k1, v1); (k2, v2); (k3, v3)] with
  | Some own => Some own
  | None => map_get name a
  end.
Proof.
  intros H12 H13 H23. unfold spread. cbn [fold_left map_get fst snd].
  destruct (String.eqb_spec k1 name) as [<-|H1].
  { by rewrite !map_get_set_ne, map_get_set_eq by congruence. }
  destruct (String.eqb_spec k2 name) as [<-|H2].
  { by rewrite map_get_set_ne, map_get_set_eq by congruence. }
  destruct (String.eqb_spec k3 name) as [<-|H3].
  { by rewrite map_get_set_eq. }
  by rewrite !map_get_set_ne by congruence.
Qed.

(** X10.  The manifests of a result are the generator's manifests with the
    three integration manifests put over them: [configMap], [service] and
    [serviceMonitor] are always the agent's own, whatever the generator has
    returned under these names, and every other name keeps the generator's
    manifest. *)
Theorem integration_manifests_take_precedence (options : ManifestOptions)
    (s : State) (k : K8sResult) :
  snd (Agent.generateKubernetesManifests options s) = inr k ->
  exists spec generated,
    mo_openAPISpec options = Some spec /\
    fst (yamlGenerator_generate (workflow k)
           (mkGenerateOptions (agentId k)
              (or_str (mo_targetNamespace options) "default")
              (match mo_deployConfig options with
               | Some c => if js_truthy c then c else JObj []
               | None => JObj []
               end)
              [("autoweave.dev/agent-type", "integration-agent");
               ("autoweave.dev/generated-from", "openapi-spec")])
           (world s)) = inr generated /\
    forall name,
      map_get name (manifests k) =
      match map_get name
              (Agent.generateIntegrationManifests (agentId k) spec
                 (mo_targetNamespace options)) with
      | Some own => Some own
      | None => map_get name generated
      end.
Proof.
  intros Hk.
  destruct (generateKubernetesManifests_outcome options s) as [_ Hr].
  rewrite Hk in Hr. destruct Hr as (spec & wf & generated & Hs & _ & Hg & -> & _).
  exists spec, generated. cbn [agentId workflow manifests].
  split; [done|]. split; [done|].
  intros name. unfold Agent.generateIntegrationManifests.
  by apply map_get_spread3.
Qed.

(** X11.  Without a specification [generateKubernetesManifests] throws a
    [TypeError]: the YAML generator is not called and no agent is stored, but
    the number of the id is used up. *)
Theorem manifests_need_a_specification (options : ManifestOptions) (s : State) :
  mo_openAPISpec options = None ->
  Agent.generateKubernetesManifests options s =
  (mkState (llm s) (world s) (metricsCollector s) (orchestrator s)
     (mkAgent (agents (integrationAgent s)) (agentIdCounter (integrationAgent s) + 1)),
   inl (new_TypeError "Cannot read properties of undefined (reading 'info')")).
Proof.
  intros Hspec.
  unfold Agent.generateKubernetesManifests, try_catch, bind, modify_agent,
    get_agent, call_pure, throw.
  rewrite Hspec. done.
Qed.

Lemma map_get_filter_ne {V} k k0 (m : list (string * V)) :
  map_get k (filter (fun kv => fst kv ≠ k0) m) =
  if decide (k = k0) then None else map_get k m.
Proof.
  induction m as [|[k' v'] m IH]; simpl; [by case_decide|].
  rewrite filter_cons. simpl.
  destruct (decide (k' ≠ k0)) as [Hk'|Hk']; simpl.
  - rewrite IH. destruct (String.eqb_spec k' k) as [->|Hk]; [|done].
    by rewrite decide_False.
  - apply dec_stable in Hk'. subst k'. rewrite IH.
    destruct (String.eqb_spec k0 k) as [->|Hk]; [by rewrite !decide_True|done].
Qed.

(** X12.  [deleteAgent] of an id that is not registered throws "not found"
    and changes nothing.  [deleteAgent] of a registered id returns it; after
    that the id is not found any more, every other id gives the agent it
    gave, and nothing but the registry has changed. *)
Theorem deleteAgent_removes_one (id : string) (s : State) :
  (map_get id (agents (integrationAgent s)) = None ->
   Agent.deleteAgent id s = (s, inl (new_Error ("Agent " +:+ id +:+ " not found")))) /\
  (forall agent, map_get id (agents (integrationAgent s)) = Some agent ->
     let s' := fst (Agent.deleteAgent id s) in
     snd (Agent.deleteAgent id s) = inr id /\
     Agent.getStatus id s' =
       (s', inl (new_Error ("Agent " +:+ id +:+ " not found"))) /\
     (forall other, other <> id ->
        map_get other (agents (integrationAgent s')) =
        map_get other (agents (integrationAgent s))) /\
     agentIdCounter (integrationAgent s') = agentIdCounter (integrationAgent s) /\
     world s' = world s /\ metricsCollector s' = metricsCollector s /\
     orchestrator s' = orchestrator s).
Proof.
  unfold Agent.deleteAgent, Agent.getStatus, bind, get_agent, modify_agent, throw, ret.
  split.
  - by intros ->.
  - intros agent ->. simpl. repeat split.
    + by rewrite map_get_filter_ne, decide_True.
    + intros other Hother. by rewrite map_get_filter_ne, decide_False.
Qed.

Lemma generated_ids_above cs : forall s id,
  In id (generated_ids cs s) ->
  exists n, agentIdCounter (integrationAgent s) < n /\
            id = "integration-agent-" +:+ pretty n.
Proof.
  induction cs as [|[options|deleted] cs IH]; intros s id; simpl; [done| |].
  - pose proof (generateKubernetesManifests_outcome options s) as [Hc Hr].
    cbv zeta in *.
    destruct (Agent.generateKubernetesManifests options s) as [s' r]; simpl in *.
    rewrite in_app_iff. intros [Hhere|Hrest].
    + destruct r as [e|k]; [done|]. destruct Hhere as [<-|[]].
      destruct Hr as (spec & wf & generated & _ & _ & _ & -> & _).
      eexists; split; [|done]. lia.
    + destruct (IH s' id Hrest) as (n & Hn & ->). exists n. split; [lia|done].
  - intros Hrest. destruct (IH _ id Hrest) as (n & Hn & ->).
    exists n. split; [|done].
    revert Hn. unfold Agent.deleteAgent, bind, get_agent, modify_agent, throw, ret.
    by destruct (map_get deleted (agents (integrationAgent s))).
Qed.

(** X13.  In any sequence of [generateKubernetesManifests] and [deleteAgent]
    calls, from any state, no agent id is returned twice: an id is not used
    again after a failed generation or after a deletion. *)
Theorem agent_ids_are_never_reused (cs : list AgentCall) (s : State) :
  NoDup (generated_ids cs s).
Proof.
  revert s. induction cs as [|[options|deleted] cs IH]; intros s; simpl.
  - apply NoDup_nil_2.
  - pose proof (generateKubernetesManifests_outcome options s) as [Hc Hr].
    cbv zeta in *.
    pose proof (generated_ids_above cs
                  (fst (Agent.generateKubernetesManifests options s))) as Habove.
    destruct (Agent.generateKubernetesManifests options s) as [s' r]; simpl in *.
    destruct r as [e|k]; simpl; [apply IH|].
    apply NoDup_cons. split; [|apply IH].
    intros Hin. apply list_elem_of_In in Hin.
    destruct (Habove _ Hin) as (n & Hn & Heq).
    destruct Hr as (spec & wf & generated & _ & _ & _ & Hk & _).
    rewrite Hk in Heq. simpl in Heq.
    apply String.app_inj in Heq. apply (inj pretty) in Heq. lia.
  - apply IH.
Qed.

End AgentRegistry.

(** X10, witness: the agent generated for the billing specification has the
    agent's own [service] manifest. *)
Lemma integration_manifests_take_precedence_witness :
  match snd (Agent.generateKubernetesManifests (E := guided)
               (mkManifestOptions (Some billing_spec) (Some "billing") None)
               (initial (E := guided) 0%nat 0)) with
  | inr k =>
      map_get "service" (manifests k) =
      map_get "service"
        (Agent.generateIntegrationManifests (E := guided) (agentId k) billing_spec
           (Some "billing"))
  | inl _ => False
  end.
Proof.
  destruct (snd (Agent.generateKubernetesManifests (E := guided)
                   (mkManifestOptions (Some billing_spec) (Some "billing") None)
                   (initial (E := guided) 0%nat 0))) as [e|k] eqn:Hrun.
  - vm_compute in Hrun. discriminate.
  - destruct (integration_manifests_take_precedence (E := guided) _ _ k Hrun)
      as (spec & generated & Hspec & _ & Hname).
    injection Hspec as <-. rewrite Hname. reflexivity.
Defined.

(** X11, witness: a call without a specification on a new agent. *)
Lemma manifests_need_a_specification_witness :
  snd (Agent.generateKubernetesManifests (E := guided)
         (mkManifestOptions None (Some "billing") None)
         (initial (E := guided) 0%nat 0)) =
  inl (new_TypeError "Cannot read properties of undefined (reading 'info')").
Proof.
  rewrite (manifests_need_a_specification (E := guided)
             (mkManifestOptions None (Some "billing") None)
             (initial (E := guided) 0%nat 0) eq_refl).
  reflexivity.
Defined.

(** X12, witness: a new agent holds no [integration-agent-1] to delete. *)
Lemma deleteAgent_removes_one_witness :
  Agent.deleteAgent (E := guided) "integration-agent-1" (initial (E := guided) 0%nat 0) =
  (initial (E := guided) 0%nat 0,
   inl (new_Error "Agent integration-agent-1 not found")).
Proof.
  apply (proj1 (deleteAgent_removes_one (E := guided) "integration-agent-1"
                  (initial (E := guided) 0%nat 0)) eq_refl).
Defined.

(** ** The run as a whole *)

Section Run.
Context `{E : Env}.

Lemma bind_result {A B} (c : M A) (k : A -> M B) (Q : State -> B -> Prop) s :
  (forall a s1, match k a s1 with
                | (s', inr b) => Q s' b
                | (_, inl _) => True
                end) ->
  match bind c k s with
  | (s', inr b) => Q s' b
  | (_, inl _) => True
  end.
Proof. intros Hk. unfold bind. destruct (c s) as [s1 [e|a]]; [done|apply Hk]. Qed.

(** The [duration] of a result is the time read after the last stage, less
    the start time. *)
Lemma stages_duration options startTime s :
  match Coordinator.stages options startTime s with
  | (s', inr r) => duration r = Date_now (world s') - startTime
  | (_, inl _) => True
  end.
Proof.
  unfold Coordinator.stages.
  do 9 (apply (bind_result _ _
                 (fun s' r => duration r = Date_now (world s') - startTime));
        intros ? ?).
  done.
Qed.

(** A run that returns has gone through its stages, and its success has been
    recorded on the collector that the stages have left. *)
Lemma createIntegrationAgent_returns options s r :
  snd (Coordinator.createIntegrationAgent options s) = inr r ->
  let t := Date_now (world s) in
  let s1 := mkState (llm s) (world s)
              (snd (Metrics.startIntegration (Some ("integration-" +:+ pretty t)) t
                      (metricsCollector s)))
              (orchestrator s) (integrationAgent s) in
  let s2 := fst (Coordinator.stages options t s1) in
  snd (Coordinator.stages options t s1) = inr r /\
  fst (Coordinator.createIntegrationAgent options s) =
  mkState (llm s2) (world s2)
    (Metrics.recordSuccess (duration r) (metricsCollector s2))
    (orchestrator s2) (integrationAgent s2).
Proof.
  destruct (truthy (openapi_url options)) eqn:Hurl.
  - rewrite (createIntegrationAgent_stages options s Hurl). cbv zeta.
    destruct (Coordinator.stages options (Date_now (world s)) _)
      as [s2 [e|result]]; simpl; [done|].
    by intros [= ->].
  - unfold Coordinator.createIntegrationAgent, bind, now. by rewrite Hurl.
Qed.

(** X14.  A run that returns a result has recorded one success, on the
    collector left by [startIntegration]: [total] and [success] are one
    higher, [failed] and the error counts are as before, and the result's
    [duration], which is the time from the start of the call to the end of
    its last stage, has been added to [total_duration]. *)
Theorem success_recorded_after_stages (options : Options) (s : State)
    (r : IntegrationResult) :
  snd (Coordinator.createIntegrationAgent options s) = inr r ->
  let s' := fst (Coordinator.createIntegrationAgent options s) in
  let before := Metrics.counters (metricsCollector s) in
  let after := Metrics.counters (metricsCollector s') in
  duration r = Date_now (world s') - Date_now (world s) /\
  Metrics.total after = Metrics.total before + 1 /\
  Metrics.success after = Metrics.success before + 1 /\
  Metrics.failed after = Metrics.failed before /\
  Metrics.in_progress after = Z.max 0 (Metrics.in_progress before) /\
  Metrics.total_duration (Metrics.durations (metricsCollector s')) =
    Metrics.total_duration (Metrics.durations (metricsCollector s)) + duration r /\
  Metrics.error_counts (metricsCollector s') =
    Metrics.error_counts (metricsCollector s).
Proof.
  intros Hrun. destruct (createIntegrationAgent_returns options s r Hrun) as [Hst Hs'].
  cbv zeta in *. rewrite Hs'. clear Hs'.
  match type of Hst with
  | context [Coordinator.stages options ?t ?s1] =>
      pose proof (stages_duration options t s1) as Hd;
      pose proof (preserves_stages metricsCollector options t
                    ltac:(done) ltac:(done) ltac:(done) ltac:(done) s1) as Hframe;
      destruct (Coordinator.stages options t s1) as [s2 [e|result]]
  end; cbn [fst snd metricsCollector world] in *; [done|].
  injection Hst as ->. rewrite Hframe.
  rewrite counters_recordSuccess, counters_startIntegration.
  match goal with
  | |- context [Metrics.recordSuccess ?d ?mc] =>
      change (Metrics.recordSuccess d mc)
        with (Metrics.call mc (Metrics.RecordSuccess d))
  end.
  rewrite (durations_call _ (Metrics.RecordSuccess (duration r))).
  rewrite (error_counts_call _ (Metrics.RecordSuccess (duration r))).
  rewrite durations_startIntegration, error_counts_startIntegration.
  simpl. repeat split; try done. f_equal. lia.
Qed.

Lemma registry_orchestrate userInput context :
  preserves registry (Orchestrator.orchestrate userInput context).
Proof.
  intros s. unfold registry. rewrite orchestrate_orchestrator.
  by destruct (snd (Orchestrator.orchestrate userInput context s)).
Qed.

Lemma registry_stages options startTime :
  preserves registry (Coordinator.stages options startTime).
Proof.
  assert (ignores_world registry) by done.
  assert (ignores_agent registry) by done.
  pose proof registry_orchestrate.
  unfold Coordinator.stages, Coordinator.deploy, Orchestrator.planIntegration.
  repeat first
    [ apply registry_orchestrate
    | apply preserves_generateKubernetesManifests; assumption
    | apply preserves_validateManifests; assumption
    | frame_step ].
Qed.

(** X15.  Neither [orchestrate] nor a whole run writes to the tool registry,
    whatever the reasoning service answers and whether the call returns or
    throws: the registry changes by [registerTool] only. *)
Theorem run_keeps_the_registry (options : Options) (userInput : string)
    (context : Context) (s : State) :
  registry (fst (Orchestrator.orchestrate userInput context s)) = registry s /\
  registry (fst (Coordinator.createIntegrationAgent options s)) = registry s.
Proof.
  split; [apply registry_orchestrate|].
  destruct (truthy (openapi_url options)) eqn:Hurl.
  - rewrite (createIntegrationAgent_stages options s Hurl). cbv zeta.
    match goal with
    | |- context [Coordinator.stages options ?t ?s1] =>
        pose proof (registry_stages options t s1) as Hframe;
        destruct (Coordinator.stages options t s1) as [s2 [e|result]]
    end; done.
  - unfold Coordinator.createIntegrationAgent, bind, now. by rewrite Hurl.
Qed.

Lemma ensures_match_result {A} (o : option A) (c : M A) (P : A -> Prop) :
  (forall a, o = Some a -> P a) -> (o = None -> ensures c P) ->
  ensures (match o with Some a => ret a | None => c end) P.
Proof.
  destruct o as [a|]; intros Hsome Hnone; [apply ensures_ret|]; auto.
Qed.





End Run.

(** X14, witness: the billing run succeeds, and its success is counted. *)
Lemma success_recorded_after_stages_witness :
  let s := initial (E := guided) 0%nat 0 in
  let run := Coordinator.createIntegrationAgent (billing_options None) s in
  match snd run with
  | inr r =>
      Metrics.success (Metrics.counters (metricsCollector (fst run))) =
      Metrics.success (Metrics.counters (metricsCollector s)) + 1
  | inl _ => False
  end.
Proof.
  cbv zeta.
  destruct (snd (Coordinator.createIntegrationAgent (billing_options None)
                   (initial (E := guided) 0%nat 0))) as [e|r] eqn:Hrun.
  - vm_compute in Hrun. discriminate.
  - destruct (success_recorded_after_stages (E := guided) _ _ r Hrun)
      as (_ & _ & Hsuccess & _).
    exact Hsuccess.
Defined.


(** ** The GitOps manager *)

Section GitOpsRules.
Import GitOps.
Context `{H : Host}.

Lemma emits_ret {A} (a : A) (P : list Op -> Error + A -> Prop) :
  P [] (inr a) -> emits (ret a) P.
Proof. intros HP s. exists []. by rewrite app_nil_r. Qed.

Lemma emits_throw {A} (e : Error) (P : list Op -> Error + A -> Prop) :
  P [] (inl e) -> emits (throw e) P.
Proof. intros HP s. exists []. by rewrite app_nil_r. Qed.

Lemma emits_now (P : list Op -> Error + Z -> Prop) :
  (forall t, P [] (inr t)) -> emits now P.
Proof. intros HP s. exists []. rewrite app_nil_r. split; [done|apply HP]. Qed.

Lemma emits_iso_now (P : list Op -> Error + string -> Prop) :
  (forall t, P [] (inr t)) -> emits iso_now P.
Proof. intros HP s. exists []. rewrite app_nil_r. split; [done|apply HP]. Qed.

Lemma emits_perform op (P : list Op -> Error + Answer op -> Prop) :
  (forall r, P [op] r) -> emits (perform op) P.
Proof.
  intros HP s. exists [op]. unfold perform.
  by destruct (exec op (disk s)) as [r d].
Qed.

Lemma emits_bind {A B} (c : G A) (k : A -> G B) P Q :
  emits c P ->
  (forall a ops1, P ops1 (inr a) -> emits (k a) (fun ops2 r => Q (ops1 ++ ops2) r)) ->
  (forall e ops1, P ops1 (inl e) -> Q ops1 (inl e)) ->
  emits (bind c k) Q.
Proof.
  intros Hc Hk He s. unfold bind. destruct (Hc s) as (ops1 & Ht & HP).
  destruct (c s) as [s1 [e|a]]; simpl in *.
  - exists ops1. auto.
  - destruct (Hk a ops1 HP s1) as (ops2 & Ht2 & HQ).
    exists (ops1 ++ ops2). by rewrite Ht2, Ht, app_assoc.
Qed.

Lemma emits_try_catch {A} (c : G A) (h : Error -> G A) P Q :
  emits c P ->
  (forall e ops1, P ops1 (inl e) -> emits (h e) (fun ops2 r => Q (ops1 ++ ops2) r)) ->
  (forall a ops1, P ops1 (inr a) -> Q ops1 (inr a)) ->
  emits (try_catch c h) Q.
Proof.
  intros Hc Hh Ha s. unfold try_catch. destruct (Hc s) as (ops1 & Ht & HP).
  destruct (c s) as [s1 [e|a]]; simpl in *.
  - destruct (Hh e ops1 HP s1) as (ops2 & Ht2 & HQ).
    exists (ops1 ++ ops2). by rewrite Ht2, Ht, app_assoc.
  - exists ops1. auto.
Qed.

Lemma emits_weaken {A} (c : G A) (P Q : list Op -> Error + A -> Prop) :
  emits c P -> (forall ops r, P ops r -> Q ops r) -> emits c Q.
Proof. intros Hc HPQ s. destruct (Hc s) as (ops & Ht & HP). eauto. Qed.

(** [try { c } catch (error) { throw error }] is [c]. *)
Lemma emits_rethrow {A} (c : G A) P :
  emits c P -> emits (try_catch c (fun error => throw error)) P.
Proof.
  intros Hc. apply emits_try_catch with (P := P); [done| |done].
  intros e ops1 HP. apply emits_throw. by rewrite app_nil_r.
Qed.

Section Only.
Context (P : Op -> Prop).

Lemma only_ret {A} (a : A) : only P (ret a).
Proof. by apply emits_ret. Qed.

Lemma only_throw {A} (e : Error) : only P (throw (A := A) e).
Proof. by apply emits_throw. Qed.

Lemma only_now : only P now.
Proof. by apply emits_now. Qed.

Lemma only_iso_now : only P iso_now.
Proof. by apply emits_iso_now. Qed.

Lemma only_perform op : P op -> only P (perform op).
Proof. intros HP. apply emits_perform. intros _. by apply Forall_singleton. Qed.

Lemma only_bind {A B} (c : G A) (k : A -> G B) :
  only P c -> (forall a, only P (k a)) -> only P (bind c k).
Proof.
  intros Hc Hk. eapply emits_bind; [apply Hc| |done].
  intros a ops1 H1. eapply emits_weaken; [apply Hk|].
  intros ops2 r H2. by apply Forall_app.
Qed.

Lemma only_try_catch {A} (c : G A) (h : Error -> G A) :
  only P c -> (forall e, only P (h e)) -> only P (try_catch c h).
Proof.
  intros Hc Hh. eapply emits_try_catch; [apply Hc| |done].
  intros e ops1 H1. eapply emits_weaken; [apply Hh|].
  intros ops2 r H2. by apply Forall_app.
Qed.

End Only.

End GitOpsRules.

(** One step of a proof that a method makes calls of one kind only. *)
Ltac only_step :=
  match goal with
  | |- GitOps.only _ (GitOps.bind _ _) => apply only_bind; [|intros ?]
  | |- GitOps.only _ (GitOps.try_catch _ _) => apply only_try_catch; [|intros ?]
  | |- GitOps.only _ (GitOps.ret _) => apply only_ret
  | |- GitOps.only _ (GitOps.throw _) => apply only_throw
  | |- GitOps.only _ GitOps.now => apply only_now
  | |- GitOps.only _ GitOps.iso_now => apply only_iso_now
  | |- GitOps.only ?P (GitOps.perform ?op) => apply (only_perform P op); reflexivity
  | |- GitOps.only _ (match ?x with _ => _ end) => destruct x
  | |- GitOps.only _ (if ?x then _ else _) => destruct x
  end.

(** Straight-line methods are run call by call. *)
Ltac run_calls :=
  unfold GitOps.bind, GitOps.try_catch, GitOps.perform, GitOps.now,
    GitOps.iso_now, GitOps.ret, GitOps.throw; simpl;
  repeat match goal with
  | changes : GitOps.Answer (GitOps.Status _) |- _ => destruct changes; simpl
  | |- context [GitOps.exec ?op ?d] =>
      destruct (GitOps.exec op d) as [[?|?] ?]; simpl
  | |- context [Nat.eqb ?n 0] => destruct (Nat.eqb_spec n 0); simpl
  end.

Ltac trace_found :=
  eexists; split;
  [simpl; rewrite <- ?app_assoc;
   first [reflexivity | symmetry; apply app_nil_r]|]; simpl.

Ltac trace_is ops :=
  exists ops; split; [simpl; by rewrite <- ?app_assoc, ?app_nil_r|]; simpl.

Section GitOpsProperties.
Import GitOps.
Context `{H : Host}.

Lemma only_cloneRepository gitRepo : only kept (cloneRepository gitRepo).
Proof. unfold cloneRepository. repeat only_step. Qed.

Lemma only_write_entries entries outputDir writtenFiles :
  only kept (write_entries entries outputDir writtenFiles).
Proof.
  revert writtenFiles. induction entries as [|[name manifest] rest IH];
    intros writtenFiles; simpl; repeat only_step. apply IH.
Qed.

Lemma only_writeManifests manifests outputDir :
  only kept (writeManifests manifests outputDir).
Proof.
  unfold writeManifests, entries_of. repeat only_step. apply only_write_entries.
Qed.

Lemma only_createArgocdApplication options repoDir :
  only kept (createArgocdApplication options repoDir).
Proof. unfold createArgocdApplication, entries_of. repeat only_step. Qed.

Lemma only_commitAndPush repoDir files commitMessage :
  only kept (commitAndPush repoDir files commitMessage).
Proof. unfold commitAndPush. repeat only_step. Qed.

Lemma emits_conj {A} (c : G A) P Q :
  emits c P -> emits c Q -> emits c (fun ops r => P ops r /\ Q ops r).
Proof.
  intros HP HQ s. destruct (HP s) as (ops & Ht & Hp).
  destruct (HQ s) as (ops' & Ht' & Hq).
  rewrite Ht in Ht'. apply app_inv_head in Ht'. subst ops'. eauto.
Qed.

Lemma emits_cloneRepository gitRepo :
  emits (cloneRepository gitRepo) (fun ops r =>
    match r with
    | inr repoDir =>
        exists repo,
          gitRepo = Some repo /\ ops = [GitOpen None; Clone repo repoDir]
    | inl _ => Forall kept ops
    end).
Proof.
  intros s. unfold cloneRepository. destruct gitRepo as [repo|].
  - run_calls.
    + trace_is [GitOpen None]. by repeat constructor.
    + trace_is [GitOpen None;
                Clone repo (join [workspaceDir;
                                  basename repo ".git" +:+ "-" +:+
                                  pretty (Date_now (disk s))])].
      by repeat constructor.
    + trace_is [GitOpen None;
                Clone repo (join [workspaceDir;
                                  basename repo ".git" +:+ "-" +:+
                                  pretty (Date_now (disk s))])].
      eauto.
  - trace_is (@nil Op). constructor.
Qed.

Lemma emits_write_entries entries outputDir writtenFiles :
  emits (write_entries entries outputDir writtenFiles) (fun ops r =>
    match r with
    | inr files =>
        files = writtenFiles ++ map (file_of outputDir) entries /\
        ops = map (write_of outputDir) entries
    | inl _ =>
        exists n, (n < length entries)%nat /\
                  ops = map (write_of outputDir) (take (S n) entries)
    end).
Proof.
  revert writtenFiles.
  induction entries as [|[name manifest] rest IH]; intros writtenFiles.
  - apply emits_ret. by rewrite app_nil_r.
  - simpl.
    eapply emits_bind
      with (P := fun ops _ => ops = [write_of outputDir (name, manifest)]).
    + by apply (emits_perform (WriteFile _ _)).
    + intros _ ? ->. eapply emits_weaken; [apply IH|].
      intros ops [e|files]; simpl.
      * intros (n & Hn & ->). exists (S n). split; [lia|done].
      * intros [-> ->]. by rewrite <- app_assoc.
    + intros e ? ->. exists 0%nat. split; [simpl; lia|]. by rewrite take_0.
Qed.

Lemma replay_all ops d :
  failed_with (replay ops d) = None -> made (replay ops d) = length ops.
Proof.
  revert d. induction ops as [|op rest IH]; intros d; simpl; [done|].
  destruct (exec op d) as [[e|a] d']; simpl; [done|].
  intros Hnone. by rewrite IH.
Qed.

Lemma write_entries_replay entries outputDir writtenFiles s :
  let writes := map (write_of outputDir) entries in
  let answers := replay writes (disk s) in
  write_entries entries outputDir writtenFiles s =
  (mkSt (leaves answers) (trace s ++ take (made answers) writes),
   match failed_with answers with
   | None => inr (writtenFiles ++ map (file_of outputDir) entries)
   | Some e => inl e
   end).
Proof.
  cbv zeta. unfold write_of, file_of. revert writtenFiles s.
  induction entries as [|[name manifest] rest IH]; intros writtenFiles s.
  - simpl. unfold ret. destruct s. by rewrite !app_nil_r.
  - simpl. unfold bind at 1, perform at 1.
    destruct (exec (WriteFile (join [outputDir; name +:+ ".yaml"])
                      (stringify manifest)) (disk s)) as [[e|a] d]; simpl; [done|].
    rewrite IH. simpl. by rewrite <- !app_assoc.
Qed.

(** X18.  [writeManifests] writes one file per entry of [manifests], in the
    order of the entries, each named after its entry, for as long as the
    writes succeed.  When all of them succeed it returns the paths of all the
    files; when one fails it stops there, no further file is written, and the
    error of that write is thrown.  Without [manifests] it throws a
    [TypeError] and writes nothing. *)
Theorem writeManifests_writes_each_entry
    (manifests : option (list (string * json))) (outputDir : string) (s : St) :
  match manifests with
  | Some entries =>
      let writes := map (write_of outputDir) entries in
      let answers := replay writes (disk s) in
      writeManifests manifests outputDir s =
      (mkSt (leaves answers) (trace s ++ take (made answers) writes),
       match failed_with answers with
       | None => inr (map (file_of outputDir) entries)
       | Some e => inl e
       end) /\
      (failed_with answers = None -> made answers = length entries)
  | None =>
      writeManifests manifests outputDir s =
      (s, inl (new_TypeError "Cannot convert undefined or null to object"))
  end.
Proof.
  destruct manifests as [entries|]; [|done]. cbv zeta. split.
  - exact (write_entries_replay entries outputDir [] s).
  - intros Hnone. by rewrite (replay_all _ _ Hnone), length_map.
Qed.

Lemma find_labelled_inr values found :
  find_labelled values = inr found ->
  match found with
  | None => Forall unlabelled values
  | Some m =>
      exists before after label,
        values = before ++ m :: after /\ Forall unlabelled before /\
        agent_label m = inr (Some label) /\ js_truthy label = true
  end.
Proof.
  revert found. induction values as [|m rest IH]; intros found; simpl.
  - intros [= <-]. constructor.
  - destruct (agent_label m) as [e|label] eqn:Hlabel; [done|].
    destruct (truthy_value label) eqn:Htruthy.
    + intros [= <-]. exists [], rest.
      destruct label as [label|]; [|done]. exists label. by repeat split.
    + intros Hfound. specialize (IH _ Hfound).
      assert (Hm : unlabelled m) by (by exists label).
      destruct found as [m'|].
      * destruct IH as (before & after & l & -> & Hbefore & Hl & Ht).
        exists (m :: before), after, l. repeat split; auto.
      * by constructor.
Qed.

Lemma agent_id_label m label :
  agent_label m = inr (Some label) -> js_truthy label = true ->
  agent_id (Some m) = label.
Proof.
  unfold agent_label, agent_id. destruct m; try done; simpl;
    intros [= ->]; by intros ->.
Qed.

Lemma agent_id_None : agent_id None = JStr "unknown".
Proof. done. Qed.

(** X19.  The Argo CD Application is named [autoweave-] and the agent id
    label of the first manifest that has one, or [autoweave-unknown] when no
    manifest has one; it is written to [argocd/<name>.yaml] of the
    repository, after the directory has been made.  A manifest that is
    [null] before a labelled one makes [createArgocdApplication] throw. *)
Theorem application_is_named_after_first_label (options : Options)
    (repoDir : string) :
  emits (createArgocdApplication options repoDir) (fun ops r =>
    match r with
    | inr app =>
        let argocdDir := join [repoDir; "argocd"] in
        let values := map snd (default [] (manifests options)) in
        app_name app = "autoweave-" +:+ template (app_agentId app) /\
        ops = [Mkdir argocdDir;
               WriteFile (join [argocdDir; app_name app +:+ ".yaml"])
                         (stringify_app app)] /\
        (app_agentId app = JStr "unknown" /\ Forall unlabelled values \/
         exists before m after,
           values = before ++ m :: after /\ Forall unlabelled before /\
           agent_label m = inr (Some (app_agentId app)) /\
           js_truthy (app_agentId app) = true)
    | inl _ =>
        ops = [] \/
        exists argocdDir,
          ops = [Mkdir argocdDir] \/ exists path content,
          ops = [Mkdir argocdDir; WriteFile path content]
    end).
Proof.
  intros s. unfold createArgocdApplication, entries_of.
  destruct (manifests options) as [entries|]; [|trace_is (@nil Op); by left].
  unfold bind, ret, throw. simpl.
  destruct (find_labelled (map snd entries)) as [e|found] eqn:Hfind;
    [trace_is (@nil Op); by left|].
  apply find_labelled_inr in Hfind.
  run_calls; trace_found; eauto 8.
  repeat split.
  destruct found as [m|]; [right|by left].
  destruct Hfind as (before & after & label & Hvalues & Hbefore & Hlabel & Htruthy).
  rewrite (agent_id_label m label Hlabel Htruthy). eauto 8.
Qed.

Lemma emits_cleanup repoDir :
  emits (cleanup repoDir) (fun ops r => ops = [Rm repoDir] /\ r = inr tt).
Proof.
  intros s. unfold cleanup. run_calls; trace_found; [done|].
  by match goal with a : Answer (Rm _) |- _ => destruct a end.
Qed.

(** X20.  [commitAndPush] opens the repository, configures the user and
    stages everything; the first of these calls that fails stops it, with
    that error.  Then it asks for the status.  When the status shows no
    changed file, it returns without a commit and without a push.  When the
    status shows changed files, it commits with the message given, or with
    the dated default message, and, when the commit has succeeded, pushes to
    [origin main]; it returns the commit, the number of changes and the
    message when the push has succeeded, and throws the error of the call
    that has failed otherwise. *)
Theorem push_follows_commit (repoDir : string) (files : list string)
    (commitMessage : option string) (s : St) :
  let prepared := replay (configuring repoDir) (disk s) in
  let commit message := Commit repoDir message in
  let push := Push repoDir "origin" "main" in
  commitAndPush repoDir files commitMessage s =
  match failed_with prepared with
  | Some e =>
      (mkSt (leaves prepared)
            (trace s ++ take (made prepared) (configuring repoDir)),
       inl e)
  | None =>
      match exec (Status repoDir) (leaves prepared) with
      | (inl e, d) => (mkSt d (trace s ++ staging repoDir), inl e)
      | (inr 0%nat, d) => (mkSt d (trace s ++ staging repoDir), inr NoChanges)
      | (inr changes, d) =>
          let message :=
            or_str commitMessage
              ("AutoWeave: Deploy integration agent - " +:+ toISOString d) in
          match exec (commit message) d with
          | (inl e, d') =>
              (mkSt d' (trace s ++ staging repoDir ++ [commit message]), inl e)
          | (inr hash, d') =>
              match exec push d' with
              | (inl e, d'') =>
                  (mkSt d'' (trace s ++ staging repoDir ++ [commit message; push]),
                   inl e)
              | (inr _, d'') =>
                  (mkSt d'' (trace s ++ staging repoDir ++ [commit message; push]),
                   inr (Committed hash changes message))
              end
          end
      end
  end.
Proof.
  cbv zeta. unfold commitAndPush, configuring, staging.
  run_calls; by rewrite <- ?app_assoc.
Qed.

(** X21.  [validateRepository] never throws.  It looks for [manifests] and
    then for [argocd]: it returns [true] when both can be accessed, and
    [false] as soon as one cannot; when [manifests] is missing, [argocd] is
    not looked at. *)
Theorem validateRepository_returns (repoDir : string) (s : St) :
  let checks :=
    [Access (join [repoDir; "manifests"]); Access (join [repoDir; "argocd"])] in
  let answers := replay checks (disk s) in
  validateRepository repoDir s =
  (mkSt (leaves answers) (trace s ++ take (made answers) checks),
   inr (match failed_with answers with None => true | Some _ => false end)).
Proof.
  cbv zeta. unfold validateRepository, has_directories.
  run_calls; by rewrite <- ?app_assoc.
Qed.

Lemma writeManifests_count manifests outputDir :
  emits (writeManifests manifests outputDir) (fun ops r =>
    match r with
    | inr files => length files = length (default [] manifests)
    | inl _ => True
    end).
Proof.
  destruct manifests as [entries|].
  - eapply emits_weaken; [exact (emits_write_entries entries outputDir [])|].
    intros ops [e|files]; simpl; [done|]. intros [-> _]. by rewrite length_map.
  - intros s. by trace_is (@nil Op).
Qed.

Lemma cleans_up_after {A B} (c : G A) (k : A -> G B) (R : A -> Prop) dir X :
  emits c (fun ops r =>
             Forall kept ops /\ match r with inr a => R a | inl _ => True end) ->
  (forall a, R a -> emits (k a) (cleans_up dir X)) ->
  emits (bind c k) (cleans_up dir X).
Proof.
  intros Hc Hk. eapply emits_bind; [apply Hc| |].
  - intros a ops1 [Hkept HR]. eapply emits_weaken; [by apply Hk|].
    intros ops2 [e|b]; simpl.
    + intros Hkept2. by apply Forall_app.
    + intros (calls & -> & Hcalls & HX). exists (ops1 ++ calls).
      rewrite app_assoc. repeat split; [|done]. by apply Forall_app.
  - by intros e ops1 [Hkept _].
Qed.

Lemma cleans_up_after_only {A B} (c : G A) (k : A -> G B) dir X :
  only kept c -> (forall a, emits (k a) (cleans_up dir X)) ->
  emits (bind c k) (cleans_up dir X).
Proof.
  intros Hc Hk. apply cleans_up_after with (R := fun _ => True); [|auto].
  eapply emits_weaken; [apply Hc|]. intros ops [e|a]; by simpl.
Qed.

(** X22.  [deployToGitOps] removes the directory it has cloned into with its
    last call, when it returns; when it throws, nothing has been removed:
    the clone stays on the disk.  The result of a deployment counts one
    written manifest per entry of [manifests]. *)
Theorem clone_is_removed_on_success_only (options : Options) :
  emits (deployToGitOps options) (fun ops r =>
    match r with
    | inr result =>
        exists repo repoDir calls,
          gitRepo options = Some repo /\
          ops = [GitOpen None; Clone repo repoDir] ++ calls ++ [Rm repoDir] /\
          Forall kept calls /\
          success result = true /\
          manifestsWritten result = length (default [] (manifests options))
    | inl _ => Forall kept ops
    end).
Proof.
  unfold deployToGitOps. apply emits_rethrow.
  eapply emits_bind; [apply emits_cloneRepository| |done].
  intros repoDir ops1 (repo & Hrepo & ->).
  apply emits_weaken
    with (P := cleans_up repoDir (fun result =>
                 success result = true /\
                 manifestsWritten result = length (default [] (manifests options)))).
  2: { intros ops [e|result]; simpl.
       - intros Hkept. by repeat constructor.
       - intros (calls & -> & Hcalls & HX). by exists repo, repoDir, calls. }
  apply cleans_up_after_only; [by apply (only_perform kept (Mkdir _))|]. intros _.
  apply cleans_up_after
    with (R := fun files => length files = length (default [] (manifests options))).
  { eapply emits_weaken.
    - apply emits_conj; [apply only_writeManifests|apply writeManifests_count].
    - intros ops [e|files]; simpl; tauto. }
  intros files Hfiles.
  apply cleans_up_after_only; [apply only_createArgocdApplication|]. intros app.
  apply cleans_up_after_only; [apply only_commitAndPush|]. intros commitResult.
  intros s. unfold cleanup. run_calls; trace_is [Rm repoDir]; by exists [].
Qed.

(** X23.  Without a [gitRepo], [deployToGitOps] throws a [TypeError] before
    any call is made.  Without [manifests] it never returns, and it writes
    no file. *)
Theorem deployment_needs_repository_and_manifests (options : Options) :
  (gitRepo options = None ->
   forall s, exists e,
     deployToGitOps options s = (s, inl e) /\ ctor_name e = "TypeError") /\
  (manifests options = None ->
   emits (deployToGitOps options) (fun ops r =>
     (exists e, r = inl e) /\
     Forall (fun op => match op with WriteFile _ _ => False | _ => True end) ops)).
Proof.
  split.
  - intros Hrepo s. unfold deployToGitOps, cloneRepository. rewrite Hrepo.
    eexists. split; [reflexivity|done].
  - intros Hmanifests s.
    unfold deployToGitOps, cloneRepository, writeManifests, entries_of.
    rewrite Hmanifests. destruct (gitRepo options) as [repo|].
    + run_calls; trace_found; (split; [eauto|by repeat constructor]).
    + trace_is (@nil Op). split; [eauto|constructor].
Qed.

End GitOpsProperties.

Section DeployedManifests.
Context `{E : Env} `{H : GitOps.Host}.

Lemma find_labelled_result_entries result steps generatedAt :
  map_get "metadata" (manifests result) = None ->
  GitOps.find_labelled (map snd (result_entries result steps generatedAt)) =
  inr None.
Proof.
  intros Hnone. unfold result_entries. simpl. rewrite Hnone. simpl.
  by destruct (md_targetNamespace (metadata result)).
Qed.

Lemma find_labelled_integration_manifests id spec ns :
  truthy_str id = true ->
  exists m,
    GitOps.find_labelled
      (map snd (Agent.generateIntegrationManifests id spec ns)) = inr (Some m) /\
    GitOps.agent_id (Some m) = JStr id.
Proof.
  intros Hid. unfold Agent.generateIntegrationManifests. simpl. rewrite Hid.
  eexists. split; [reflexivity|]. unfold GitOps.agent_id. simpl. by rewrite Hid.
Qed.

(** X24.  The application made for the manifests that the agent adds to
    every result ([configMap], [service], [serviceMonitor]) is named after
    the agent.  The application made for the whole result of
    [generateKubernetesManifests], which is what [createIntegrationAgent]
    hands over as [manifests], is named [autoweave-unknown] as long as the
    generator has made no manifest called [metadata]: none of the four
    entries of the result has a label. *)
Theorem application_of_a_result_is_unknown (options : GitOps.Options)
    (repoDir : string) (result : K8sResult) (steps : json) (generatedAt : string)
    (spec : OpenAPI.Spec) (ns : option string) :
  (GitOps.manifests options = Some (result_entries result steps generatedAt) ->
   map_get "metadata" (manifests result) = None ->
   GitOps.emits (GitOps.createArgocdApplication options repoDir) (fun ops r =>
     match r with
     | inr app => GitOps.app_name app = "autoweave-unknown"
     | inl _ => ops <> []
     end)) /\
  (GitOps.manifests options =
     Some (Agent.generateIntegrationManifests (agentId result) spec ns) ->
   truthy_str (agentId result) = true ->
   GitOps.emits (GitOps.createArgocdApplication options repoDir) (fun ops r =>
     match r with
     | inr app => GitOps.app_name app = "autoweave-" +:+ agentId result
     | inl _ => ops <> []
     end)).
Proof.
  split.
  - intros Hmanifests Hnone s.
    unfold GitOps.createArgocdApplication, GitOps.entries_of.
    rewrite Hmanifests. unfold GitOps.bind, GitOps.ret. cbv beta iota.
    rewrite (find_labelled_result_entries result steps generatedAt Hnone).
    run_calls; trace_found; done.
  - intros Hmanifests Hid s.
    destruct (find_labelled_integration_manifests (agentId result) spec ns Hid)
      as (m & Hfind & Hm).
    unfold GitOps.createArgocdApplication, GitOps.entries_of.
    rewrite Hmanifests. unfold GitOps.bind, GitOps.ret. cbv beta iota.
    rewrite Hfind, Hm.
    run_calls; trace_found; done.
Qed.

End DeployedManifests.

(** X23, witness: a deployment without a repository. *)
Lemma deployment_needs_repository_and_manifests_witness :
  exists e,
    GitOps.deployToGitOps (H := GitOps.host (fun _ => false))
      (GitOps.mkOptions (Some [("service", JObj [])]) None None None)
      (GitOps.mkSt (H := GitOps.host (fun _ => false)) 0%nat []) =
    (GitOps.mkSt (H := GitOps.host (fun _ => false)) 0%nat [], inl e) /\
    ctor_name e = "TypeError".
Proof.
  apply (proj1 (deployment_needs_repository_and_manifests
                  (H := GitOps.host (fun _ => false))
                  (GitOps.mkOptions (Some [("service", JObj [])]) None None None))
               eq_refl).
Defined.

(** X24, witness: the result of the billing run, handed over whole. *)
Lemma application_of_a_result_is_unknown_witness :
  GitOps.emits (H := GitOps.host (fun _ => false))
    (GitOps.createArgocdApplication
       (GitOps.mkOptions (Some (result_entries billing_manifests (JArr []) "2024"))
          (Some "https://x/repo.git") None None)
       "/tmp/repo")
    (fun ops r =>
       match r with
       | inr app => GitOps.app_name app = "autoweave-unknown"
       | inl _ => ops <> []
       end).
Proof.
  apply (proj1 (application_of_a_result_is_unknown (E := guided)
                  (H := GitOps.host (fun _ => false))
                  (GitOps.mkOptions
                     (Some (result_entries billing_manifests (JArr []) "2024"))
                     (Some "https://x/repo.git") None None)
                  "/tmp/repo" billing_manifests (JArr []) "2024" billing_spec None)
               eq_refl eq_refl).
Defined.

(** ** What the reasoning service is sent *)

Section Requests.
Context `{E : Env}.

Lemma slice_last_slice_last {A} m n (l : list A) :
  (m <= n)%nat -> slice_last m (slice_last n l) = slice_last m l.
Proof.
  intros Hmn. unfold slice_last. rewrite drop_drop, length_drop. f_equal. lia.
Qed.

Lemma slice_last_app_r {A} k (l l' : list A) :
  slice_last (k + length l') (l ++ l') = slice_last k l ++ l'.
Proof.
  unfold slice_last. rewrite length_app.
  rewrite drop_app_le by lia. f_equal. f_equal. lia.
Qed.

(** X17.  The messages built for a request are the system prompt, the last
    six entries of the history and the user's input, eight at most.  After an
    [orchestrate] call that has returned, the next request carries that
    exchange: the input of the call and the assistant's summary of its result
    come just before the new input. *)
Theorem next_request_carries_last_exchange (userInput next : string)
    (context nextContext : Context) (s : State) :
  let messages o := Orchestrator.buildMessages next nextContext o in
  (length (messages (orchestrator s)) <= 8)%nat /\
  forall result,
    snd (Orchestrator.orchestrate userInput context s) = inr result ->
    exists earlier,
      messages (orchestrator (fst (Orchestrator.orchestrate userInput context s))) =
      [mkChatMessage "system" (Orchestrator.systemPrompt nextContext)] ++
      earlier ++
      [mkChatMessage "user" userInput;
       mkChatMessage "assistant" (Orchestrator.formatResultForHistory result);
       mkChatMessage "user" next] /\
      earlier = slice_last 4 (history s).
Proof.
  cbv zeta. split.
  - unfold Orchestrator.buildMessages. rewrite !length_app. simpl.
    pose proof (slice_last_length 6 (conversationHistory (orchestrator s))). lia.
  - intros result Hresult. exists (slice_last 4 (history s)). split; [|done].
    unfold Orchestrator.buildMessages.
    rewrite orchestrate_orchestrator, Hresult, addToHistory_history.
    rewrite slice_last_slice_last by lia.
    change 6%nat
      with (4 + length [mkChatMessage "user" userInput;
                        mkChatMessage "assistant"
                          (Orchestrator.formatResultForHistory result)])%nat.
    rewrite slice_last_app_r. unfold history. by rewrite <- !app_assoc.
Qed.

(** X25.  The deployment tool hands its arguments to [deployToGitOps] as
    they are, and [deployToGitOps] reads [gitRepo] and [targetNamespace]:
    the [git_repo] and the [namespace] of the tool's schema do not reach the
    deployment.  Two calls that differ in these two arguments only do the
    same to the state and give the same deployment or the same error;
    [git_repo] shows in the message of the result only. *)
Theorem deployment_tool_ignores_git_repo (args : ToolArgs) (context : Context)
    (repo ns : option string) (s : State) :
  let args' :=
    mkToolArgs (spec_url args) (openapi_spec args) (agent_config args) ns
      (a_manifests args) repo (a_gitRepo args) (a_targetNamespace args)
      (a_commitMessage args) in
  fst (Orchestrator.executeGitOpsDeployment args' context s) =
  fst (Orchestrator.executeGitOpsDeployment args context s) /\
  match snd (Orchestrator.executeGitOpsDeployment args' context s),
        snd (Orchestrator.executeGitOpsDeployment args context s) with
  | inr (GitOpsResult deployed' message'), inr (GitOpsResult deployed message) =>
      deployed' = deployed /\
      message' = "Deployed to GitOps repository: " +:+ or_str repo "default"
  | inl e', inl e => e' = e
  | _, _ => False
  end.
Proof.
  cbv zeta. unfold Orchestrator.executeGitOpsDeployment, bind, call_world, throw, ret.
  simpl. destruct (negb (Orchestrator.component has_gitOpsManager context)); [done|].
  by destruct (deployToGitOps _ (world s)) as [[e|deployed] w].
Qed.

End Requests.

(** ** Names of the generated models *)

Section ModelNames.
Import Pydantic.

Lemma name_chars_replace_others s :
  Forall (fun c => is_name_char c = true) (replace_others s).
Proof.
  unfold replace_others. apply Forall_map, Forall_forall. intros c _.
  unfold is_name_char. simpl.
  destruct (is_lower c || is_digit c) eqn:Hc; [by rewrite Hc|done].
Qed.

Lemma replace_others_name s :
  Forall (fun c => is_name_char c = true) s -> replace_others s = s.
Proof.
  unfold replace_others. induction 1 as [|c s Hc Hs IH]; simpl; [done|].
  rewrite IH. destruct (is_lower c || is_digit c) eqn:Hld; [done|].
  unfold is_name_char in Hc. rewrite Hld in Hc. simpl in Hc.
  unfold is_underscore in Hc. apply N.eqb_eq in Hc. by rewrite Hc.
Qed.

Lemma no_double_cons c s :
  no_double (c :: s) =
  match head s with
  | Some c' => negb (is_underscore c && is_underscore c')
  | None => true
  end && no_double s.
Proof. by destruct s. Qed.

Lemma head_collapse s : head (collapse s) = head s.
Proof.
  induction s as [|c rest IH]; [done|].
  simpl. destruct rest as [|c' rest']; [done|].
  destruct (is_underscore c && is_underscore c') eqn:Hcc; [|done].
  rewrite IH. simpl. apply andb_prop in Hcc as [Hc Hc'].
  unfold is_underscore in *. apply N.eqb_eq in Hc, Hc'. congruence.
Qed.

Lemma name_chars_collapse s :
  Forall (fun c => is_name_char c = true) s ->
  Forall (fun c => is_name_char c = true) (collapse s).
Proof.
  induction 1 as [|c rest Hc Hrest IH]; [done|].
  simpl. destruct rest as [|c' rest']; [by repeat constructor|].
  destruct (is_underscore c && is_underscore c'); [done|by constructor].
Qed.

Lemma no_double_collapse s : no_double (collapse s) = true.
Proof.
  induction s as [|c rest IH]; [done|].
  simpl. destruct rest as [|c' rest']; [done|].
  destruct (is_underscore c && is_underscore c') eqn:Hcc; [done|].
  rewrite no_double_cons, head_collapse, IH. simpl. by rewrite Hcc.
Qed.

Lemma collapse_no_double s : no_double s = true -> collapse s = s.
Proof.
  induction s as [|c rest IH]; [done|].
  rewrite no_double_cons. intros [Hc Hrest]%andb_prop.
  simpl. destruct rest as [|c' rest']; [done|].
  simpl in Hc. apply negb_true_iff in Hc. rewrite Hc. by rewrite IH.
Qed.

Lemma head_strip_trailing s :
  head (strip_trailing s) = None \/ head (strip_trailing s) = head s.
Proof.
  destruct s as [|c [|c' rest]]; simpl; auto.
  destruct (is_underscore c); auto.
Qed.

Lemma name_chars_strip_trailing s :
  Forall (fun c => is_name_char c = true) s ->
  Forall (fun c => is_name_char c = true) (strip_trailing s).
Proof.
  induction 1 as [|c rest Hc Hrest IH]; [done|].
  simpl. destruct rest as [|c' rest'].
  - destruct (is_underscore c); by repeat constructor.
  - by constructor.
Qed.

Lemma no_double_strip_trailing s :
  no_double s = true -> no_double (strip_trailing s) = true.
Proof.
  induction s as [|c rest IH]; [done|].
  rewrite no_double_cons. intros [Hc Hrest]%andb_prop.
  simpl. destruct rest as [|c' rest'].
  - by destruct (is_underscore c).
  - rewrite no_double_cons, (IH Hrest).
    destruct (head_strip_trailing (c' :: rest')) as [-> | ->]; [done|].
    by rewrite Hc.
Qed.

Lemma last_strip_trailing s :
  no_double s = true -> last (strip_trailing s) <> Some underscore.
Proof.
  induction s as [|c rest IH]; [done|].
  rewrite no_double_cons. intros [Hc Hrest]%andb_prop.
  simpl. destruct rest as [|c' rest'].
  - destruct (is_underscore c) eqn:Hu; [done|].
    simpl. intros [= ->]. done.
  - specialize (IH Hrest).
    destruct (strip_trailing (c' :: rest')) as [|d l] eqn:Hstrip.
    + simpl in Hstrip. destruct rest' as [|c'' rest'']; [|done].
      destruct (is_underscore c') eqn:Hu'; [|done].
      simpl in Hc. rewrite Hu', andb_true_r in Hc.
      apply negb_true_iff in Hc. simpl. intros [= ->]. done.
    + by rewrite last_cons_cons.
Qed.

Lemma strip_trailing_last s :
  last s <> Some underscore -> strip_trailing s = s.
Proof.
  induction s as [|c rest IH]; [done|].
  simpl. destruct rest as [|c' rest'].
  - simpl. destruct (is_underscore c) eqn:Hu; [|done].
    unfold is_underscore in Hu. apply N.eqb_eq in Hu.
    intros Hne. exfalso. apply Hne. by rewrite Hu.
  - rewrite last_cons_cons. intros Hlast. by rewrite IH.
Qed.

(** X26.  A sanitized model name is made of [a-z], [0-9] and underscores,
    has no two underscores in a row and neither begins nor ends with an
    underscore, whatever the title and whatever [toLowerCase] gives for it;
    the three replacements leave such a name as it is. *)
Theorem sanitized_name_is_clean (toLowerCase : Str -> Str) (title : Str) :
  let name := sanitizeModelName toLowerCase title in
  Forall (fun c => is_name_char c = true) name /\
  no_double name = true /\
  head name <> Some underscore /\
  last name <> Some underscore /\
  strip_ends (collapse (replace_others name)) = name.
Proof.
  cbv zeta. unfold sanitizeModelName.
  pose proof (name_chars_collapse _ (name_chars_replace_others (toLowerCase title)))
    as Hchars.
  pose proof (no_double_collapse (replace_others (toLowerCase title))) as Hnd.
  set (s := collapse (replace_others (toLowerCase title))) in *.
  assert (Hchars1 : Forall (fun c => is_name_char c = true) (strip_leading s)).
  { destruct s as [|c rest]; [done|]. simpl.
    destruct (is_underscore c); [by inversion Hchars|done]. }
  assert (Hnd1 : no_double (strip_leading s) = true).
  { destruct s as [|c rest]; [done|]. simpl.
    destruct (is_underscore c); [|done].
    rewrite no_double_cons in Hnd. by apply andb_prop in Hnd as [_ ?]. }
  assert (Hhead1 : head (strip_leading s) <> Some underscore).
  { destruct s as [|c rest]; [done|]. simpl.
    destruct (is_underscore c) eqn:Hu.
    - rewrite no_double_cons, Hu in Hnd.
      destruct (head rest) as [c'|]; [|done].
      apply andb_prop in Hnd as [Hc' _]. simpl in Hc'.
      apply negb_true_iff in Hc'. intros [= ->]. done.
    - simpl. intros [= ->]. done. }
  unfold strip_ends.
  assert (Hhead : head (strip_trailing (strip_leading s)) <> Some underscore).
  { by destruct (head_strip_trailing (strip_leading s)) as [-> | ->]. }
  pose proof (name_chars_strip_trailing _ Hchars1) as Hchars2.
  pose proof (no_double_strip_trailing _ Hnd1) as Hnd2.
  pose proof (last_strip_trailing _ Hnd1) as Hlast.
  repeat split; try done.
  rewrite (replace_others_name _ Hchars2), (collapse_no_double _ Hnd2).
  set (name := strip_trailing (strip_leading s)) in *.
  replace (strip_leading name) with name.
  - by apply strip_trailing_last.
  - destruct name as [|c rest]; [done|]. simpl.
    destruct (is_underscore c) eqn:Hu; [|done].
    unfold is_underscore in Hu. apply N.eqb_eq in Hu. by subst c.
Qed.

End ModelNames.

(** X6, witness: a second descriptor registered under the name of the parser
    tool is the one retrieved. *)
Lemma last_registration_wins_witness :
  Orchestrator.getTool "parse_openapi_spec"
    (register_all
       [Orchestrator.parse_openapi_spec;
        mkTool "parse_openapi_spec" "Another parser" JNull]
       (mkOrchestrator [] [])) =
  Some (mkTool "parse_openapi_spec" "Another parser" JNull).
Proof.
  exact (proj1 (last_registration_wins
                  [Orchestrator.parse_openapi_spec;
                   mkTool "parse_openapi_spec" "Another parser" JNull] [])
               "parse_openapi_spec").
Defined.

(** X17, witness: the request that follows a first exchange. *)
Lemma next_request_carries_last_exchange_witness :
  exists earlier,
    Orchestrator.buildMessages (E := guided) "And then?"
      Coordinator.orchestrationContext
      (orchestrator
         (fst (Orchestrator.orchestrate (E := guided) "Parse"
                 Coordinator.orchestrationContext
                 (initial (E := guided) 0%nat 0)))) =
    [mkChatMessage "system"
       (Orchestrator.systemPrompt (E := guided) Coordinator.orchestrationContext)] ++
    earlier ++
    [mkChatMessage "user" "Parse";
     mkChatMessage "assistant" "Proceed stage by stage.";
     mkChatMessage "user" "And then?"] /\
    earlier = slice_last 4 (history (initial (E := guided) 0%nat 0)).
Proof.
  exact (proj2 (next_request_carries_last_exchange (E := guided) "Parse" "And then?"
                  Coordinator.orchestrationContext Coordinator.orchestrationContext
                  (initial (E := guided) 0%nat 0))
               (Reasoning "Proceed stage by stage." []) eq_refl).
Defined.

(** ** Start of the integration agent *)

Section StartupProperties.
Context `{E : Env}.

(** X27.  [initialize] of the integration agent never throws: it asks each
    of [kubeconform], [conftest] and [kubectl] for its version, in this
    order and whether or not the one before has answered, and returns; only
    the world of the subprocesses has changed. *)
Theorem initialize_never_throws (s : State) :
  let probe tool w := snd (spawn tool ["--version"] w) in
  Startup.initialize s =
  (mkState (llm s)
     (probe "kubectl" (probe "conftest" (probe "kubeconform" (world s))))
     (metricsCollector s) (orchestrator s) (integrationAgent s),
   inr tt).
Proof.
  cbv zeta. destruct s as [l w mc o a].
  unfold Startup.initialize, Startup.verifyDependencies, Agent.executeCommand,
    for_each, try_catch, bind, call_world, ret, throw; simpl.
  destruct (spawn "kubeconform" ["--version"] w) as [[e1|out1] w1]; simpl;
    destruct (spawn "conftest" ["--version"] w1) as [[e2|out2] w2]; simpl;
    by destruct (spawn "kubectl" ["--version"] w2) as [[e3|out3] w3].
Qed.

End StartupProperties.

(** X18, witness: one manifest, on a host whose writes succeed. *)
Lemma writeManifests_writes_each_entry_witness :
  GitOps.made
    (GitOps.replay (H := GitOps.host (fun _ => false))
       (map (GitOps.write_of (H := GitOps.host (fun _ => false)) "/tmp/repo/manifests")
            [("service", JObj [])])
       0%nat) = 1%nat.
Proof.
  apply (proj2 (writeManifests_writes_each_entry (H := GitOps.host (fun _ => false))
                  (Some [("service", JObj [])]) "/tmp/repo/manifests"
                  (GitOps.mkSt (H := GitOps.host (fun _ => false)) 0%nat []))
               eq_refl).
Defined.
